(** * Customer segmentation dashboard

    A shallow embedding of the analysis pipeline of the dashboard
    ([AnalyticsDashboard.tsx], in its rule-based RFM revision and in its
    k-means revision) and of the JavaScript runtime operations it calls.

    Conventions of the embedding:
    - a JavaScript number is an IEEE 754 binary64 value, [spec_float] with
      precision 53 and maximal exponent 1024, and arithmetic is the
      correctly rounded arithmetic of [SpecFloat];
    - array lengths, array indices and tallies incremented by one hold
      integers far below 2^53, where binary64 arithmetic is exact; they are
      kept in [nat] and [Z] and enter number arithmetic through
      [number_of_Z];
    - a string is a [string] of ASCII characters; a record of the input
      table is the list of its own properties in enumeration order (the
      order [Object.keys] yields), every value being a string as the CSV
      reader produces them; property names that are array indices, which
      an object enumerates before the others, are not told apart;
    - [undefined] is [None];
    - what the environment decides is a parameter: the result of the
      k-means routine, the values [Math.random()] returns, the fields of a
      parsed date, the collation of [localeCompare] and the month labels
      [toLocaleDateString] prints.

    The k-means revision embedded is the later one, which names the
    segments from the cluster statistics. *)

From Stdlib Require Import ZArith QArith Qpower List String Ascii Bool Lia Lqa SpecFloat.
From Stdlib Require Import DecimalString Permutation Sorted.
Import ListNotations.
Local Open Scope string_scope.
Local Open Scope Z_scope.

(** ** The JavaScript runtime *)

Module JS.

(** *** Numbers *)

Definition number : Type := spec_float.

Definition prec : Z := 53.
Definition emax : Z := 1024.

Definition NaN : number := S754_nan.
Definition zero : number := S754_zero false.

Definition num_add : number -> number -> number := SFadd prec emax.
Definition num_sub : number -> number -> number := SFsub prec emax.
Definition num_mul : number -> number -> number := SFmul prec emax.
Definition num_div : number -> number -> number := SFdiv prec emax.

(** [a < b], [a > b], [a >= b] and [a === b] on numbers. *)
Definition num_lt (a b : number) : bool := SFltb a b.
Definition num_gt (a b : number) : bool := SFltb b a.
Definition num_ge (a b : number) : bool := SFleb b a.
Definition num_eq (a b : number) : bool := SFeqb a b.

Definition isNaN (x : number) : bool :=
  match x with S754_nan => true | _ => false end.

Definition num_isFinite (x : number) : bool :=
  match x with S754_nan | S754_infinity _ => false | _ => true end.

(** ToBoolean on a number: [NaN], [+0] and [-0] are falsy. *)
Definition truthy (x : number) : bool :=
  match x with S754_nan | S754_zero _ => false | _ => true end.

(** [x || y] on numbers. *)
Definition num_or (x y : number) : number := if truthy x then x else y.

(** The number with the integer value [z]. *)
Definition number_of_Z (z : Z) : number := binary_normalize prec emax z 0 false.

Definition number_of_nat (n : nat) : number := number_of_Z (Z.of_nat n).

(** The binary64 value nearest to [n / d] (ties to even): the quotient is
    computed with 66 extra bits and a sticky bit for the remainder. *)
Definition of_ratio (s : bool) (n d : positive) : number :=
  let sh := Z.max 0 (Z.log2 (Zpos d) + 66 - Z.log2 (Zpos n)) in
  let (q, r) := Z.div_eucl (Zpos n * 2 ^ sh) (Zpos d) in
  let m := 2 * q + (if r =? 0 then 0 else 1) in
  binary_normalize prec emax (cond_Zopp s m) (- sh - 1) s.

(** The number a decimal literal [m * 10^e10] denotes. *)
Definition of_decimal (s : bool) (m : N) (e10 : Z) : number :=
  match m with
  | N0 => S754_zero s
  | Npos p =>
      if 0 <=? e10
      then binary_normalize prec emax (cond_Zopp s (Zpos p * 10 ^ e10)) 0 s
      else of_ratio s p (Z.to_pos (10 ^ (- e10)))
  end.

(** The integer part of a finite number, rounded down, up, or to the
    nearest integer with halves going up; 0 on the other numbers. *)
Definition floorZ (x : number) : Z :=
  match x with
  | S754_finite s m e => Z.shiftl (cond_Zopp s (Zpos m)) e
  | _ => 0
  end.

Definition ceilZ (x : number) : Z :=
  match x with
  | S754_finite s m e => - Z.shiftl (cond_Zopp (negb s) (Zpos m)) e
  | _ => 0
  end.

Definition roundZ (x : number) : Z :=
  match x with
  | S754_finite s m e => Z.shiftl (2 * cond_Zopp s (Zpos m) + Z.shiftl 1 (- e)) (e - 1)
  | _ => 0
  end.

Definition sign_of (x : number) : bool :=
  match x with
  | S754_zero s | S754_infinity s | S754_finite s _ _ => s
  | S754_nan => false
  end.

(** An integer result carries the sign of the argument when it is zero. *)
Definition integral (s : bool) (z : Z) : number := binary_normalize prec emax z 0 s.

Definition Math_floor (x : number) : number :=
  match x with
  | S754_finite s _ _ => integral s (floorZ x)
  | _ => x
  end.

Definition Math_ceil (x : number) : number :=
  match x with
  | S754_finite s _ _ => integral s (ceilZ x)
  | _ => x
  end.

Definition Math_round (x : number) : number :=
  match x with
  | S754_finite s _ _ => integral s (roundZ x)
  | _ => x
  end.

Definition Math_min (a b : number) : number :=
  match a, b with
  | S754_nan, _ | _, S754_nan => S754_nan
  | S754_zero sa, S754_zero sb => S754_zero (sa || sb)
  | _, _ => if SFltb b a then b else a
  end.

Definition Math_sqrt : number -> number := SFsqrt prec emax.

(** [Math.pow(x, 2)], taken as the correctly rounded square. *)
Definition Math_pow2 (x : number) : number := num_mul x x.

(** *** Strings *)

Definition lower_ascii (c : ascii) : ascii :=
  let n := nat_of_ascii c in
  if ((65 <=? n) && (n <=? 90))%nat then ascii_of_nat (n + 32) else c.

Fixpoint toLowerCase (s : string) : string :=
  match s with
  | EmptyString => EmptyString
  | String c s' => String (lower_ascii c) (toLowerCase s')
  end.

(** [s.includes(sub)] *)
Fixpoint includes (s sub : string) : bool :=
  String.prefix sub s ||
  match s with
  | EmptyString => false
  | String _ s' => includes s' sub
  end.

(** [String(n)] for an integer. *)
Definition string_of_Z (z : Z) : string := NilZero.string_of_int (Z.to_int z).

(** [s.padStart(2, '0')] *)
Definition padStart2 (s : string) : string :=
  match s with
  | EmptyString => "00"
  | String c EmptyString => String "0" s
  | _ => s
  end.

(** *** Numeric strings *)

(** The white space of the ASCII range: TAB, LF, VT, FF, CR and SP. *)
Definition isWhiteSpace (c : ascii) : bool :=
  let n := nat_of_ascii c in
  (((9 <=? n) && (n <=? 13)) || (n =? 32))%nat.

Fixpoint trimStart (s : string) : string :=
  match s with
  | String c s' => if isWhiteSpace c then trimStart s' else s
  | EmptyString => EmptyString
  end.

Fixpoint trimEnd (s : string) : string :=
  match s with
  | EmptyString => EmptyString
  | String c s' =>
      match trimEnd s' with
      | EmptyString => if isWhiteSpace c then EmptyString else String c EmptyString
      | t => String c t
      end
  end.

Definition isDigit (c : ascii) : bool :=
  let n := nat_of_ascii c in ((48 <=? n) && (n <=? 57))%nat.

Definition digitValue (c : ascii) : N := N.of_nat (nat_of_ascii c - 48).

(** Reads the longest run of decimal digits at the head of [s]: the value
    of [acc] followed by these digits, how many were read, and the rest. *)
Fixpoint takeDigits (s : string) (acc : N) (count : nat) : N * nat * string :=
  match s with
  | String c s' =>
      if isDigit c then takeDigits s' (10 * acc + digitValue c)%N (S count)
      else (acc, count, s)
  | EmptyString => (acc, count, s)
  end.

(** What a StrDecimalLiteral denotes. *)
Variant decimal : Type :=
  | DInfinity (s : bool)
  | DFinite (s : bool) (m : N) (e10 : Z).

Definition decimal_value (d : decimal) : number :=
  match d with
  | DInfinity s => S754_infinity s
  | DFinite s m e10 => of_decimal s m e10
  end.

(** The optional ExponentPart after a mantissa: [e] or [E], an optional
    sign and at least one digit; nothing is consumed otherwise. *)
Definition scanExponent (s : string) : Z * string :=
  match s with
  | String c s1 =>
      if (Ascii.eqb c "e" || Ascii.eqb c "E")%bool then
        let '(neg, s2) :=
          match s1 with
          | String "+" r => (false, r)
          | String "-" r => (true, r)
          | _ => (false, s1)
          end in
        let '(v, n, r) := takeDigits s2 0%N 0%nat in
        match n with
        | O => (0, s)
        | _ => (cond_Zopp neg (Z.of_N v), r)
        end
      else (0, s)
  | EmptyString => (0, s)
  end.

(** The longest prefix of [s] that is a StrDecimalLiteral, with what
    follows it; [None] when no prefix is one. *)
Definition scanDecimal (s : string) : option (decimal * string) :=
  let '(neg, s1) :=
    match s with
    | String "+" r => (false, r)
    | String "-" r => (true, r)
    | _ => (false, s)
    end in
  if String.prefix "Infinity" s1 then
    Some (DInfinity neg, String.substring 8 (String.length s1 - 8) s1)
  else
    let '(ip, n1, r1) := takeDigits s1 0%N 0%nat in
    match n1, r1 with
    | S _, String "." r2 =>
        let '(m, n2, r3) := takeDigits r2 ip 0%nat in
        let '(e, r4) := scanExponent r3 in
        Some (DFinite neg m (e - Z.of_nat n2), r4)
    | S _, _ =>
        let '(e, r4) := scanExponent r1 in
        Some (DFinite neg ip e, r4)
    | O, String "." r2 =>
        let '(m, n2, r3) := takeDigits r2 0%N 0%nat in
        match n2 with
        | O => None
        | _ =>
            let '(e, r4) := scanExponent r3 in
            Some (DFinite neg m (e - Z.of_nat n2), r4)
        end
    | O, _ => None
    end.

(** [parseFloat(s)] *)
Definition parseFloat_string (s : string) : number :=
  match scanDecimal (trimStart s) with
  | Some (d, _) => decimal_value d
  | None => NaN
  end.

(** [parseFloat(v)] for a property value; [undefined] reads as the string
    "undefined". *)
Definition parseFloat (v : option string) : number :=
  match v with
  | Some s => parseFloat_string s
  | None => NaN
  end.

(** Digits of a NonDecimalIntegerLiteral in base [b] (2, 8 or 16). *)
Definition radixDigit (b : N) (c : ascii) : option N :=
  let n := N.of_nat (nat_of_ascii c) in
  let v :=
    if ((48 <=? n) && (n <=? 57))%N then Some (n - 48)%N
    else if ((97 <=? n) && (n <=? 102))%N then Some (n - 87)%N
    else if ((65 <=? n) && (n <=? 70))%N then Some (n - 55)%N
    else None in
  match v with
  | Some d => if (d <? b)%N then Some d else None
  | None => None
  end.

Fixpoint radixValue (b : N) (s : string) (acc : N) : option N :=
  match s with
  | EmptyString => Some acc
  | String c s' =>
      match radixDigit b c with
      | Some d => radixValue b s' (b * acc + d)%N
      | None => None
      end
  end.

Definition scanNonDecimal (s : string) : option N :=
  match s with
  | String "0" (String c (String d r as body)) =>
      if (Ascii.eqb c "x" || Ascii.eqb c "X")%bool then radixValue 16 body 0%N
      else if (Ascii.eqb c "o" || Ascii.eqb c "O")%bool then radixValue 8 body 0%N
      else if (Ascii.eqb c "b" || Ascii.eqb c "B")%bool then radixValue 2 body 0%N
      else None
  | _ => None
  end.

(** [Number(s)], the StringToNumber conversion: the whole trimmed string
    has to be a numeric literal, and the empty string is 0. *)
Definition Number_string (s : string) : number :=
  match trimEnd (trimStart s) with
  | EmptyString => zero
  | t =>
      match scanDecimal t with
      | Some (d, EmptyString) => decimal_value d
      | _ =>
          match scanNonDecimal t with
          | Some v => number_of_Z (Z.of_N v)
          | None => NaN
          end
      end
  end.

(** The global [isFinite(v)], which converts its argument with [Number]. *)
Definition isFinite (v : option string) : bool :=
  match v with
  | Some s => num_isFinite (Number_string s)
  | None => false
  end.

(** *** Text *)

(** [s.trim()] *)
Definition trim (s : string) : string := trimEnd (trimStart s).

(** [s.split(sep)] for a separator of one character: the pieces between
    the occurrences of [sep], of which there is always at least one. *)
Fixpoint split (sep : ascii) (s : string) : list string :=
  match s with
  | EmptyString => [EmptyString]
  | String c s' =>
      if Ascii.eqb c sep then EmptyString :: split sep s'
      else
        match split sep s' with
        | piece :: pieces => String c piece :: pieces
        | [] => [String c EmptyString]
        end
  end.

(** The line feed and the double quote. *)
Definition LF : ascii := "010"%char.
Definition quote : ascii := "034"%char.

(** [s.replace(q, '')] where [q] is the global pattern of one double
    quote: every double quote is removed. *)
Fixpoint removeQuotes (s : string) : string :=
  match s with
  | EmptyString => EmptyString
  | String c s' => if Ascii.eqb c quote then removeQuotes s' else String c (removeQuotes s')
  end.

(** [s.endsWith(suffix)] *)
Definition endsWith (s suffix : string) : bool :=
  let n := String.length s in
  let m := String.length suffix in
  ((m <=? n)%nat && String.eqb (String.substring (n - m) m s) suffix)%bool.

End JS.

Import JS.

(** ** Objects, arrays and tables *)

Section Objects.
Context {V : Type}.

(** [o[k]] *)
Fixpoint get (o : list (string * V)) (k : string) : option V :=
  match o with
  | [] => None
  | (k', v) :: o' => if String.eqb k' k then Some v else get o' k
  end.

(** [o[k] = v]: an existing property keeps its place, a new one goes
    last. *)
Fixpoint set (k : string) (v : V) (o : list (string * V)) : list (string * V) :=
  match o with
  | [] => [(k, v)]
  | (k', v') :: o' =>
      if String.eqb k' k then (k', v) :: o' else (k', v') :: set k v o'
  end.

Definition Object_keys (o : list (string * V)) : list string := map fst o.
End Objects.

(** The array index a property name is, if it is one: a decimal numeral
    without a leading zero whose value is below 2^32 - 1. *)
Definition arrayIndex (k : string) : option N :=
  match k with
  | EmptyString => None
  | String c r =>
      match takeDigits k 0%N 0%nat with
      | (v, _, EmptyString) =>
          if (Ascii.eqb c "0" && negb (String.eqb r EmptyString))%bool then None
          else if (v <? 4294967295)%N then Some v
          else None
      | _ => None
      end
  end.

Section Define.
Context {V : Type}.

(** Where a new property whose name is the array index [n] goes: before
    the first property that is not an array index or is a larger one. *)
Fixpoint insertIndexed (n : N) (k : string) (v : V) (o : list (string * V))
    : list (string * V) :=
  match o with
  | [] => [(k, v)]
  | (k', v') :: o' =>
      if String.eqb k' k then (k', v) :: o'
      else
        match arrayIndex k' with
        | Some n' =>
            if (n <? n')%N then (k, v) :: o else (k', v') :: insertIndexed n k v o'
        | None => (k, v) :: o
        end
  end.

(** [o[k] = v], with the place the property takes in the enumeration of
    the object: the array indices come first, in ascending order, and the
    other names follow in the order of their creation. *)
Definition define (k : string) (v : V) (o : list (string * V)) : list (string * V) :=
  match arrayIndex k with
  | Some n => insertIndexed n k v o
  | None => set k v o
  end.
End Define.

Section Arrays.
Context {A B : Type}.

Fixpoint mapi_from (f : nat -> A -> B) (i : nat) (l : list A) : list B :=
  match l with
  | [] => []
  | x :: l' => f i x :: mapi_from f (S i) l'
  end.

(** [l.map((x, i) => f i x)] *)
Definition mapi (f : nat -> A -> B) (l : list A) : list B := mapi_from f 0 l.

(** [l.filter((x, i) => p i x)] *)
Fixpoint filteri_from (p : nat -> A -> bool) (i : nat) (l : list A) : list A :=
  match l with
  | [] => []
  | x :: l' =>
      if p i x then x :: filteri_from p (S i) l' else filteri_from p (S i) l'
  end.

(** [l.findIndex(p)], [None] standing for -1 *)
Fixpoint findIndex_from (p : A -> bool) (i : nat) (l : list A) : option nat :=
  match l with
  | [] => None
  | x :: l' => if p x then Some i else findIndex_from p (S i) l'
  end.

(** [l.slice(-n)] *)
Definition lastn (n : nat) (l : list A) : list A := skipn (List.length l - n) l.

(** [l.sort(cmp)]: the sort is stable, and [cmp a b = Gt] says that [a]
    goes after [b]. *)
Fixpoint insert_sorted (cmp : A -> A -> comparison) (x : A) (l : list A) : list A :=
  match l with
  | [] => [x]
  | y :: l' =>
      match cmp x y with
      | Gt => y :: insert_sorted cmp x l'
      | _ => x :: l
      end
  end.

Definition sort (cmp : A -> A -> comparison) (l : list A) : list A :=
  fold_right (insert_sorted cmp) [] l.
End Arrays.

(** A record of the uploaded table. *)
Definition Customer : Type := list (string * string).

(** The values an enriched record holds: the strings of the input record
    and the derived numbers, [undefined] and feature object. *)
Variant jsvalue : Type :=
  | VString (s : string)
  | VNumber (x : number)
  | VUndefined
  | VObject (o : list (string * number)).

(** [{ ...customer }] *)
Definition spread (customer : Customer) : list (string * jsvalue) :=
  map (fun kv => (fst kv, VString (snd kv))) customer.

(** [row[j]] in arithmetic: a missing cell is [undefined], which
    arithmetic turns into [NaN]. *)
Definition cell (row : list number) (j : nat) : number := nth j row NaN.

(** ** The normalizer *)

Definition normalizeData (data : list (list number)) : list (list number) :=
  match data with
  | [] => data
  | [] :: _ => data
  | row0 :: _ =>
      let numFeatures := List.length row0 in
      let n := number_of_nat (List.length data) in
      let sums :=
        fold_left
          (fun means row => mapi (fun j m => num_add m (cell row j)) means)
          data (repeat zero numFeatures) in
      let means := map (fun m => num_div m n) sums in
      let squares :=
        fold_left
          (fun stds row =>
             mapi (fun j s => num_add s (Math_pow2 (num_sub (cell row j) (cell means j)))) stds)
          data (repeat zero numFeatures) in
      let stds :=
        map (fun s =>
               let sd := Math_sqrt (num_div s n) in
               if num_eq sd zero then number_of_Z 1 else sd)
            squares in
      map (fun row =>
             mapi (fun j v => num_div (num_sub v (cell means j)) (cell stds j)) row)
          data
  end.

(** ** What both revisions of the dashboard share

    The field heuristics, the basic metrics and the segment distribution
    read the same in the RFM revision and in the k-means revision. *)

Definition fields (data : list Customer) : list string :=
  match data with
  | sampleRow :: _ => Object_keys sampleRow
  | [] => []
  end.

(** [fields.find(f => ...includes('email')) || fields[0]] *)
Definition emailField (data : list Customer) : option string :=
  match find (fun f => includes (toLowerCase f) "email") (fields data) with
  | Some f => Some f
  | None => hd_error (fields data)
  end.

Definition amountFields (data : list Customer) : list string :=
  filter (fun f =>
            includes (toLowerCase f) "amount" ||
            includes (toLowerCase f) "revenue" ||
            includes (toLowerCase f) "value" ||
            includes (toLowerCase f) "total")
         (fields data).

Definition dateFields (data : list Customer) : list string :=
  filter (fun f =>
            includes (toLowerCase f) "date" ||
            includes (toLowerCase f) "time" ||
            includes (toLowerCase f) "created")
         (fields data).

Definition totalCustomers (data : list Customer) : nat := List.length data.

Definition totalRevenue (data : list Customer) : number :=
  match amountFields data with
  | f :: _ =>
      fold_left
        (fun sum customer => num_add sum (num_or (parseFloat (get customer f)) zero))
        data zero
  | [] => zero
  end.

(** [customer.segment] of an enriched record; the object literals that
    build the records always set it to a string. *)
Definition segment_of (customer : list (string * jsvalue)) : string :=
  match get customer "segment" with
  | Some (VString s) => s
  | _ => "undefined"
  end.

(** [acc[name] = (acc[name] || 0) + 1] *)
Definition tally (acc : list (string * Z)) (name : string) : list (string * Z) :=
  set name (match get acc name with Some c => c | None => 0 end + 1) acc.

Definition segmentCounts (customerSegments : list (list (string * jsvalue))) : list (string * Z) :=
  fold_left (fun acc customer => tally acc (segment_of customer)) customerSegments [].

Record SegmentDatum : Type := {
  name : string;
  value : Z;
  percentage : number
}.

(** [Math.round((value / totalCustomers) * 100)] *)
Definition percentageOf (v : Z) (total : nat) : number :=
  Math_round (num_mul (num_div (number_of_Z v) (number_of_nat total)) (number_of_Z 100)).

Definition segmentData (total : nat) (counts : list (string * Z)) : list SegmentDatum :=
  map (fun e => {| name := fst e; value := snd e; percentage := percentageOf (snd e) total |})
      counts.

(** [segmentData.sort((a, b) => b.value - a.value)]; the sort is in place,
    so the snapshot holds the sorted array. *)
Definition sortedSegmentData (sd : list SegmentDatum) : list SegmentDatum :=
  sort (fun a b => Z.compare (value b - value a) 0) sd.

(** [sorted[0]?.name || 'Champions'] *)
Definition topSegment (sorted : list SegmentDatum) : string :=
  match sorted with
  | {| name := String c s |} :: _ => String c s
  | _ => "Champions"
  end.

(** ** The rule-based RFM revision *)

Module Rfm.
Record MonthDatum : Type := {
  month : string;
  customers : number;
  revenue : number
}.

Section Environment.

(** [random i] is what the call number [i] of [Math.random()] returns. *)
Variable random : nat -> number.

Definition rScore (recency : number) : Z :=
  if num_lt recency (number_of_Z 30) then 5
  else if num_lt recency (number_of_Z 90) then 4
  else if num_lt recency (number_of_Z 180) then 3
  else if num_lt recency (number_of_Z 365) then 2
  else 1.

Definition fScore (frequency : number) : Z :=
  if num_gt frequency (number_of_Z 15) then 5
  else if num_gt frequency (number_of_Z 10) then 4
  else if num_gt frequency (number_of_Z 5) then 3
  else if num_gt frequency (number_of_Z 2) then 2
  else 1.

Definition mScore (amount : number) : Z :=
  if num_gt amount (number_of_Z 1000) then 5
  else if num_gt amount (number_of_Z 500) then 4
  else if num_gt amount (number_of_Z 200) then 3
  else if num_gt amount (number_of_Z 50) then 2
  else 1.

Definition segmentOfScore (avgScore : number) : string :=
  if num_ge avgScore (of_decimal false 45 (-1)) then "Champions"
  else if num_ge avgScore (number_of_Z 4) then "Loyal Customers"
  else if num_ge avgScore (of_decimal false 35 (-1)) then "Potential Loyalists"
  else if num_ge avgScore (number_of_Z 3) then "At Risk"
  else if num_ge avgScore (number_of_Z 2) then "Need Attention"
  else "Lost Customers".

(** The amount of a record, and the number of [Math.random()] calls
    made once it is known, [calls] of them having been made before. *)
Definition amountOf (data : list Customer) (customer : Customer) (calls : nat) : number * nat :=
  match amountFields data with
  | f :: _ => (num_or (parseFloat (get customer f)) zero, calls)
  | [] => (num_mul (random calls) (number_of_Z 1000), S calls)
  end.

(** The body of [data.map((customer, index) => ...)]. *)
Definition customerSegment (data : list Customer) (customer : Customer)
    (index calls : nat) : list (string * jsvalue) * nat :=
  let '(amount, calls1) := amountOf data customer calls in
  let recency := Math_floor (num_mul (random calls1) (number_of_Z 365)) in
  let frequency :=
    num_add (Math_floor (num_mul (random (S calls1)) (number_of_Z 20))) (number_of_Z 1) in
  let r := rScore recency in
  let f := fScore frequency in
  let m := mScore amount in
  let avgScore := num_div (number_of_Z (r + f + m)) (number_of_Z 3) in
  let segment := segmentOfScore avgScore in
  (set "segment" (VString segment)
     (set "mScore" (VNumber (number_of_Z m))
        (set "fScore" (VNumber (number_of_Z f))
           (set "rScore" (VNumber (number_of_Z r))
              (set "monetary" (VNumber amount)
                 (set "frequency" (VNumber frequency)
                    (set "recency" (VNumber recency)
                       (set "id" (VNumber (number_of_nat (index + 1)))
                          (spread customer)))))))),
   S (S calls1)).

Fixpoint customerSegments_from (data rows : list Customer) (index calls : nat)
    : list (list (string * jsvalue)) :=
  match rows with
  | [] => []
  | customer :: rows' =>
      let '(c, calls') := customerSegment data customer index calls in
      c :: customerSegments_from data rows' (S index) calls'
  end.

Definition customerSegments (data : list Customer) : list (list (string * jsvalue)) :=
  customerSegments_from data data 0 0.

Record Insights : Type := {
  totalCustomers_ : nat;
  totalRevenue_ : number;
  avgOrderValue : number;
  customerSegments_ : list (list (string * jsvalue));
  segmentData_ : list SegmentDatum;
  fields_ : list string;
  topSegment_ : string
}.

(** The [useMemo] callback; [None] is a [null] or [undefined] table, and
    the result [None] is the [null] that shows the empty state. The
    simulated [monthlyData] of this revision is left out. *)
Definition insights (data : option (list Customer)) : option Insights :=
  match data with
  | None | Some [] => None
  | Some data =>
      let sorted :=
        sortedSegmentData
          (segmentData (totalCustomers data) (segmentCounts (customerSegments data))) in
      Some {| totalCustomers_ := totalCustomers data;
              totalRevenue_ := totalRevenue data;
              avgOrderValue :=
                num_or (num_div (totalRevenue data) (number_of_nat (totalCustomers data))) zero;
              customerSegments_ := customerSegments data;
              segmentData_ := sorted;
              fields_ := fields data;
              topSegment_ := topSegment sorted |}
  end.

(** The labels [toLocaleDateString('en', { month: 'short' })] gives the
    twelve months. *)
Definition shortMonths : list string :=
  ["Jan"; "Feb"; "Mar"; "Apr"; "May"; "Jun"; "Jul"; "Aug"; "Sep"; "Oct"; "Nov"; "Dec"].

(** The number of [Math.random()] calls that the segments of the table
    have made: three a record, or two where the amount is read from a
    field. *)
Definition drawsOfSegments (data : list Customer) : nat :=
  (List.length data * match amountFields data with [] => 3 | _ :: _ => 2 end)%nat.

(** The simulated monthly trend, which draws the customers and then the
    revenue of each month. *)
Definition monthlyData (data : list Customer) : list MonthDatum :=
  mapi (fun i label =>
          {| month := label;
             customers :=
               num_add
                 (Math_floor (num_mul (random (drawsOfSegments data + 2 * i))
                                      (number_of_Z 100)))
                 (number_of_Z 50);
             revenue :=
               num_add
                 (Math_floor (num_mul (random (drawsOfSegments data + 2 * i + 1))
                                      (number_of_Z 10000)))
                 (number_of_Z 5000) |})
       shortMonths.

End Environment.
End Rfm.

(** ** The k-means revision *)

Module KMeans.

(** What evaluating the [useMemo] callback comes to. *)
Variant outcome (A : Type) : Type :=
  | Returned (a : A)
  | Thrown_TypeError.
Arguments Returned {A} a.
Arguments Thrown_TypeError {A}.

Record Labels : Type := {
  customers_label : string;
  revenue_label : string;
  avgOrder_label : string
}.

Record ClusterStat : Type := {
  clusterId : nat;
  avgValues : list number;
  size : nat
}.

Record MonthDatum : Type := {
  month : string;
  customers : number;
  revenue : number
}.

Record ScatterDatum : Type := {
  x : number;
  y : number;
  cluster : jsvalue;
  segment : string
}.

Section Environment.

(** [kmeans X k] is the [clusters] array of the result of the k-means
    routine of the ml-kmeans package on the rows [X]. *)
Variable kmeans : list (list number) -> nat -> list nat.

(** [newDate s] is [getFullYear()] and [getMonth()] of [new Date(s)],
    and [None] when its time value is [NaN]. *)
Variable newDate : option string -> option (Z * Z).

(** [random i] is what the call number [i] of [Math.random()] returns. *)
Variable random : nat -> number.

(** [a.localeCompare(b)] *)
Variable localeCompare : string -> string -> comparison.

(** The label of a month key ["year-month"]: the short month and
    two-digit year that [toLocaleDateString] prints for it. *)
Variable monthLabel : string -> string.

(** [!isNaN(parseFloat(val)) && isFinite(val)] *)
Definition looksNumeric (val : option string) : bool :=
  negb (isNaN (parseFloat val)) && isFinite val.

Definition numericFields (data : list Customer) : list string :=
  filter (fun field =>
            let values := map (fun row => get row field) (firstn 100 data) in
            existsb looksNumeric values)
         (fields data).

Definition clusteringData (data : list Customer) : list (list number) :=
  map (fun customer =>
         map (fun field =>
                let v := parseFloat (get customer field) in
                if isNaN v then zero else v)
             (numericFields data))
      data.

Definition normalizedData (data : list Customer) : list (list number) :=
  match clusteringData data with
  | [] => []
  | cd => normalizeData cd
  end.

Definition k (data : list Customer) : nat := Nat.min 5 (List.length data).

(** The [clusters] of [clusterResults], [None] being [null]. *)
Definition clusterResults (data : list Customer) : option (list nat) :=
  match normalizedData data with
  | [] => None
  | nd => Some (kmeans nd (k data))
  end.

Definition labels (emailField : string) (amountFields : list string) : Labels :=
  let e := toLowerCase emailField in
  {| customers_label :=
       if includes e "customer" then "Total Customers"
       else if includes e "user" then "Total Users"
       else if includes e "contact" then "Total Contacts"
       else "Total Records";
     revenue_label :=
       match amountFields with
       | f :: _ =>
           let a := toLowerCase f in
           if includes a "revenue" then "Total Revenue"
           else if includes a "sales" then "Total Sales"
           else if includes a "value" then "Total Value"
           else if includes a "amount" then "Total Amount"
           else "Total Value"
       | [] => "Total Value"
       end;
     avgOrder_label :=
       match amountFields with
       | f :: _ =>
           let a := toLowerCase f in
           if includes a "revenue" then "Avg Revenue"
           else if includes a "sales" then "Avg Sale Value"
           else if includes a "order" then "Avg Order Value"
           else "Avg Value"
       | [] => "Avg Value"
       end |}.

(** [`Segment ${i + 1}`] *)
Definition segmentLabel (i : nat) : string :=
  "Segment " ++ string_of_Z (Z.of_nat (i + 1)).

(** The statistics of one cluster id, [None] being the [null] of an
    empty cluster. *)
Definition clusterStat (data : list Customer) (clusters : list nat) (id : nat)
    : option ClusterStat :=
  let clusterPoints :=
    filteri_from
      (fun idx _ =>
         match nth_error clusters idx with
         | Some c => Nat.eqb c id
         | None => false
         end)
      0 (clusteringData data) in
  match clusterPoints with
  | [] => None
  | _ =>
      Some {| clusterId := id;
              avgValues :=
                mapi (fun fieldIdx _ =>
                        let sum :=
                          fold_left (fun acc point => num_add acc (cell point fieldIdx))
                                    clusterPoints zero in
                        num_div sum (number_of_nat (List.length clusterPoints)))
                     (numericFields data);
              size := List.length clusterPoints |}
  end.

(** [stats.filter(Boolean)] *)
Definition filter_Boolean {A : Type} (l : list (option A)) : list A :=
  flat_map (fun o => match o with Some a => [a] | None => [] end) l.

Definition clusterStats (data : list Customer) (clusters : list nat) : list ClusterStat :=
  filter_Boolean (map (clusterStat data clusters) (seq 0 (k data))).

Definition primaryValueFieldIdx (data : list Customer) : option nat :=
  findIndex_from (fun f => existsb (String.eqb f) (amountFields data)) 0 (numericFields data).

(** The name given to the statistics of a cluster. *)
Definition nameOfStat (data : list Customer) (stat : ClusterStat) : string :=
  let relativeSize := num_div (number_of_nat (size stat)) (number_of_nat (List.length data)) in
  match primaryValueFieldIdx data with
  | Some idx =>
      let avgValue := cell (avgValues stat) idx in
      let overallAvg :=
        num_div
          (fold_left (fun sum point => num_add sum (cell point idx)) (clusteringData data) zero)
          (number_of_nat (List.length (clusteringData data))) in
      if num_gt avgValue (num_mul overallAvg (of_decimal false 15 (-1))) then
        if num_gt relativeSize (of_decimal false 15 (-2)) then "High Value" else "Premium"
      else if num_gt avgValue (num_mul overallAvg (of_decimal false 8 (-1))) then
        if num_gt relativeSize (of_decimal false 25 (-2)) then "Core Customers" else "Regular"
      else if num_gt avgValue (num_mul overallAvg (of_decimal false 3 (-1))) then
        "Potential Growth"
      else
        if num_gt relativeSize (of_decimal false 2 (-1)) then "Entry Level" else "At Risk"
  | None =>
      if num_gt relativeSize (of_decimal false 3 (-1)) then "Majority Segment"
      else if num_gt relativeSize (of_decimal false 2 (-1)) then "Significant Group"
      else if num_gt relativeSize (of_decimal false 1 (-1)) then "Niche Segment"
      else "Emerging Group"
  end.

(** The statistics that reach the naming step went through
    [filter(Boolean)], so its [if (!stat) return 'Other'] never fires. *)
Definition generateSegmentNames (data : list Customer) : list string :=
  match clusterResults data, numericFields data with
  | None, _ | _, [] => map segmentLabel (seq 0 (k data))
  | Some clusters, _ => map (nameOfStat data) (clusterStats data clusters)
  end.

Definition segmentNames (data : list Customer) : list string := generateSegmentNames data.

(** [clusterResults ? clusterResults.clusters[index] : 0], [None] being
    [undefined]. *)
Definition clusterIdOf (data : list Customer) (index : nat) : option nat :=
  match clusterResults data with
  | Some clusters => nth_error clusters index
  | None => Some 0%nat
  end.

(** [segmentNames[clusterId] || `Segment ${clusterId + 1}`] *)
Definition segmentOf (data : list Customer) (id : option nat) : string :=
  match id with
  | Some c =>
      match nth_error (segmentNames data) c with
      | Some (String a s) => String a s
      | _ => segmentLabel c
      end
  | None => "Segment NaN"
  end.

Definition amountOf (data : list Customer) (customer : Customer) : number :=
  match amountFields data with
  | f :: _ => num_or (parseFloat (get customer f)) zero
  | [] => zero
  end.

Definition featuresOf (data : list Customer) (customer : Customer) : list (string * number) :=
  fold_left
    (fun acc field => set field (num_or (parseFloat (get customer field)) zero) acc)
    (numericFields data) [].

(** The object literal
    [{ ...customer, id, cluster, segment, monetary, features }]. *)
Definition enrich (customer : Customer) (id : nat) (cluster : option nat)
    (segment : string) (amount : number) (features : list (string * number))
    : list (string * jsvalue) :=
  set "features" (VObject features)
    (set "monetary" (VNumber amount)
       (set "segment" (VString segment)
          (set "cluster" (match cluster with
                          | Some c => VNumber (number_of_nat c)
                          | None => VUndefined
                          end)
             (set "id" (VNumber (number_of_nat id))
                (spread customer))))).

Definition customerSegments (data : list Customer) : list (list (string * jsvalue)) :=
  mapi (fun index customer =>
          let id := clusterIdOf data index in
          enrich customer (index + 1) id (segmentOf data id)
                 (amountOf data customer) (featuresOf data customer))
       data.

(** [`${year}-${String(month + 1).padStart(2, '0')}`] *)
Definition monthKey (year month : Z) : string :=
  string_of_Z year ++ "-" ++ padStart2 (string_of_Z (month + 1)).

(** The reducer that groups the records by the month of the first date
    field: a group holds its count and its revenue, and a record whose
    date is invalid leaves the groups as they are. *)
Definition monthGroupStep (data : list Customer) (dateField : string)
    (acc : list (string * (Z * number))) (row : Customer) : list (string * (Z * number)) :=
  match newDate (get row dateField) with
  | Some (year, mon) =>
      let key := monthKey year mon in
      let '(count, rev) :=
        match get acc key with
        | Some g => g
        | None => (0, zero)
        end in
      set key (count + 1, num_add rev (amountOf data row)) acc
  | None => acc
  end.

Definition monthGroups (data : list Customer) (dateField : string)
    : list (string * (Z * number)) :=
  fold_left (monthGroupStep data dateField) data [].

Definition shortMonths : list string :=
  ["Jan"; "Feb"; "Mar"; "Apr"; "May"; "Jun"; "Jul"; "Aug"; "Sep"; "Oct"; "Nov"; "Dec"].

(** The fallback that spreads the records over twelve months. *)
Definition fallbackMonthlyData (data : list Customer) : list MonthDatum :=
  let itemsPerMonth :=
    Math_ceil (num_div (number_of_nat (List.length data)) (number_of_Z 12)) in
  mapi (fun i label =>
          {| month := label;
             customers :=
               Math_min itemsPerMonth
                        (num_sub (number_of_nat (List.length data))
                                 (num_mul (number_of_nat i) itemsPerMonth));
             revenue :=
               Math_round
                 (num_mul (num_div (totalRevenue data) (number_of_Z 12))
                          (num_add (of_decimal false 8 (-1))
                                   (num_mul (random i) (of_decimal false 4 (-1))))) |})
       shortMonths.

(** Nothing in the [try] block throws on a table of records, so its
    [catch] is never entered. *)
Definition monthlyData (data : list Customer) : list MonthDatum :=
  match dateFields data with
  | dateField :: _ =>
      map (fun e =>
             {| month := monthLabel (fst e);
                customers := number_of_Z (fst (snd e));
                revenue := Math_round (snd (snd e)) |})
          (lastn 12
             (sort (fun a b => localeCompare (fst a) (fst b))
                   (monthGroups data dateField)))
  | [] => fallbackMonthlyData data
  end.

Record Insights : Type := {
  totalCustomers_ : nat;
  totalRevenue_ : number;
  avgOrderValue : number;
  customerSegments_ : list (list (string * jsvalue));
  segmentData_ : list SegmentDatum;
  monthlyData_ : list MonthDatum;
  numericFields_ : list string;
  fields_ : list string;
  labels_ : Labels;
  topSegment_ : string
}.

(** The [useMemo] callback; [None] is a [null] or [undefined] table, and
    the result [None] is the [null] that shows the empty state.
    [emailField.toLowerCase()] throws a TypeError when [emailField] is
    [undefined]. The scatter data, which no metric reads, is left out. *)
Definition insights (data : option (list Customer)) : outcome (option Insights) :=
  match data with
  | None | Some [] => Returned None
  | Some data =>
      match emailField data with
      | None => Thrown_TypeError
      | Some email =>
          let sorted :=
            sortedSegmentData
              (segmentData (totalCustomers data) (segmentCounts (customerSegments data))) in
          Returned
            (Some {| totalCustomers_ := totalCustomers data;
                     totalRevenue_ := totalRevenue data;
                     avgOrderValue :=
                       num_or (num_div (totalRevenue data)
                                       (number_of_nat (totalCustomers data))) zero;
                     customerSegments_ := customerSegments data;
                     segmentData_ := sorted;
                     monthlyData_ := monthlyData data;
                     numericFields_ := numericFields data;
                     fields_ := fields data;
                     labels_ := labels email (amountFields data);
                     topSegment_ := topSegment sorted |})
      end
  end.

(** [customer.features[field] || 0] on an enriched record, whose
    [features] is always an object. *)
Definition featureOf (customer : list (string * jsvalue)) (field : string) : number :=
  match get customer "features" with
  | Some (VObject features) =>
      match get features field with
      | Some v => num_or v zero
      | None => zero
      end
  | _ => zero
  end.

(** The points of the scatter chart. A coordinate without a numeric
    field is [Math.random() * 100]; the draws come after the twelve of
    the fallback trend where that was computed, the one of [x] before
    the one of [y]. *)
Definition clusterVisualizationData (data : list Customer) : list ScatterDatum :=
  let drawn := match dateFields data with [] => 12%nat | _ => 0%nat end in
  mapi (fun index customer =>
          {| x := match numericFields data with
                  | field :: _ => featureOf customer field
                  | [] => num_mul (random (drawn + 2 * index)) (number_of_Z 100)
                  end;
             y := match numericFields data with
                  | _ :: field :: _ => featureOf customer field
                  | [_] => num_mul (random (drawn + index)) (number_of_Z 100)
                  | [] => num_mul (random (drawn + 2 * index + 1)) (number_of_Z 100)
                  end;
             cluster := match get customer "cluster" with
                        | Some c => c
                        | None => VUndefined
                        end;
             segment := segment_of customer |})
       (customerSegments data).

End Environment.
End KMeans.

(** ** The earlier k-means revision

    It differs from the later one in the names of the segments, which
    come from a fixed list, and in the trend, which is simulated. *)

Module KMeansEarly.
Section Environment.
Variable kmeans : list (list number) -> nat -> list nat.

Definition segmentNames : list string :=
  ["High Value"; "Loyal Customers"; "At Risk"; "New Customers"; "Lost Customers"].

(** [segmentNames[clusterId] || `Cluster ${clusterId + 1}`] *)
Definition segmentOf (id : option nat) : string :=
  match id with
  | Some c =>
      match nth_error segmentNames c with
      | Some (String a s) => String a s
      | _ => "Cluster " ++ string_of_Z (Z.of_nat (c + 1))
      end
  | None => "Cluster NaN"
  end.

(** The enriched records; the fields, the features, the clustering and
    the object literal read as in the later revision. *)
Definition customerSegments (data : list Customer) : list (list (string * jsvalue)) :=
  mapi (fun index customer =>
          let id := KMeans.clusterIdOf kmeans data index in
          KMeans.enrich customer (index + 1) id (segmentOf id)
                        (KMeans.amountOf data customer) (KMeans.featuresOf data customer))
       data.
End Environment.
End KMeansEarly.

(** ** The upload component *)

Module FileUpload.

Variant result (A : Type) : Type :=
  | Returned (a : A)
  | Thrown_Error (message : string).
Arguments Returned {A} a.
Arguments Thrown_Error {A} message.

(** The cell trimmed, and then stripped of its double quotes. *)
Definition clean (cell : string) : string := removeQuotes (trim cell).

(** [row[header] = value] on a record under construction, for a string
    [value]: the name [__proto__] reaches the setter that
    [Object.prototype] holds, which ignores a string and creates no
    property. *)
Definition assign (header value : string) (row : Customer) : Customer :=
  if String.eqb header "__proto__" then row else define header value row.

(** [values[index] || ''] *)
Definition valueAt (values : list string) (index : nat) : string :=
  match nth_error values index with
  | Some (String c s) => String c s
  | _ => EmptyString
  end.

(** The record of one data line: [headers.forEach((header, index) =>
    row[header] = values[index] || '')] from the empty object. *)
Definition rowOf (headers : list string) (line : string) : Customer :=
  let values := map clean (split "," line) in
  fold_left (fun row hi => assign (snd hi) (valueAt values (fst hi)) row)
            (combine (seq 0 (List.length headers)) headers) [].

(** [text.split('\n').filter(line => line.trim())] *)
Definition linesOf (text : string) : list string :=
  filter (fun line => negb (String.eqb (trim line) EmptyString)) (split LF text).

Definition headersOf (lines : list string) : list string :=
  map clean (split "," (nth 0 lines EmptyString)).

Definition parseCSV (text : string) : result (list Customer) :=
  let lines := linesOf text in
  if (List.length lines <? 2)%nat then
    Thrown_Error "CSV must have at least a header row and one data row"
  else
    let headers := headersOf lines in
    Returned (map (rowOf headers) (skipn 1 lines)).

(** A file the browser hands over: its MIME type, its name, and the text
    that [file.text()] resolves to. *)
Record File : Type := {
  type : string;
  name : string;
  text : string
}.

Record Toast : Type := {
  title : string;
  description : string;
  destructive : bool
}.

(** The state of the component, with what it sent out: the toasts shown
    and the tables passed to [onFileUpload], the latest last. *)
Record State : Type := {
  isDragging : bool;
  uploadedFile : option File;
  isLoading : bool;
  toasts : list Toast;
  uploads : list (list Customer)
}.

Definition toast (t : Toast) (st : State) : State :=
  {| isDragging := isDragging st; uploadedFile := uploadedFile st;
     isLoading := isLoading st; toasts := (toasts st ++ [t])%list;
     uploads := uploads st |}.

Definition setIsLoading (b : bool) (st : State) : State :=
  {| isDragging := isDragging st; uploadedFile := uploadedFile st;
     isLoading := b; toasts := toasts st; uploads := uploads st |}.

Definition setIsDragging (b : bool) (st : State) : State :=
  {| isDragging := b; uploadedFile := uploadedFile st;
     isLoading := isLoading st; toasts := toasts st; uploads := uploads st |}.

Definition setUploadedFile (f : option File) (st : State) : State :=
  {| isDragging := isDragging st; uploadedFile := f;
     isLoading := isLoading st; toasts := toasts st; uploads := uploads st |}.

Definition onFileUpload (data : list Customer) (st : State) : State :=
  {| isDragging := isDragging st; uploadedFile := uploadedFile st;
     isLoading := isLoading st; toasts := toasts st;
     uploads := (uploads st ++ [data])%list |}.

(** The toast of the [catch] block for an [Error] with this message. *)
Definition parseError (message : string) : Toast :=
  {| title := "Error parsing CSV"; description := message; destructive := true |}.

Definition handleFile (file : File) (st : State) : State :=
  if (negb (includes (type file) "csv") && negb (endsWith (name file) ".csv"))%bool then
    toast {| title := "Invalid file type";
             description := "Please upload a CSV file";
             destructive := true |} st
  else
    let st1 := setIsLoading true st in
    let st2 :=
      match parseCSV (text file) with
      | Thrown_Error message => toast (parseError message) st1
      | Returned [] => toast (parseError "No data found in CSV file") st1
      | Returned data =>
          toast {| title := "File uploaded successfully!";
                   description :=
                     "Parsed " ++ string_of_Z (Z.of_nat (List.length data))
                     ++ " records from " ++ name file;
                   destructive := false |}
                (onFileUpload data (setUploadedFile (Some file) st1))
      end in
    setIsLoading false st2.

Definition handleDragOver (st : State) : State := setIsDragging true st.
Definition handleDragLeave (st : State) : State := setIsDragging false st.

Definition handleDrop (files : list File) (st : State) : State :=
  let st1 := setIsDragging false st in
  match files with
  | file :: _ => handleFile file st1
  | [] => st1
  end.

Definition handleFileSelect (files : option (list File)) (st : State) : State :=
  match files with
  | Some (file :: _) => handleFile file st
  | _ => st
  end.

Definition removeFile (st : State) : State :=
  onFileUpload [] (setUploadedFile None st).

End FileUpload.

(** The page: [customerData] is the table the upload component passed
    last, and the empty table before it passed any. *)
Module Index.
Definition customerData (st : FileUpload.State) : list Customer :=
  last (FileUpload.uploads st) [].
End Index.

(** ** Vocabulary of the statements *)

(** "Parses as a finite floating-point number": [parseFloat] yields a
    number that is neither [NaN] nor infinite. *)
Definition parsesAsFiniteFloat (val : option string) : bool :=
  num_isFinite (parseFloat val).

(** The derived properties of an enriched record of the k-means
    revision. *)
Definition derivedKeys : list string :=
  ["id"; "cluster"; "segment"; "monetary"; "features"].

(** Modelled from the spec: the k-means routine is the ml-kmeans package,
    which the sources import and do not contain. Of its contract the
    design says that it "fails gracefully (returns single cluster 0 for
    all records) when the NormalizedMatrix has zero columns or zero
    rows". *)
Definition degradesGracefully (kmeans : list (list number) -> nat -> list nat) : Prop :=
  forall (X : list (list number)) (k : nat),
    Forall (fun row => row = []) X ->
    kmeans X k = repeat 0%nat (List.length X).

(** A k-means stand-in that puts every row in cluster 0. *)
Definition oneCluster (X : list (list number)) (k : nat) : list nat :=
  repeat 0%nat (List.length X).

(** A table with one record and no numeric, amount or date column. *)
Definition namesOnly : list Customer := [[("name", "bob")]].

(** A record with an input column named [segment], as the sample data
    generator produces them. *)
Definition sampleRow : Customer :=
  [("customer_id", "CUST0001"); ("total_spent", "120"); ("segment", "Premium")].

(** A column whose only value starts with digits and goes on with text. *)
Definition prefixOnly : list Customer := [[("age", "12abc")]].

(** The primary amount of a record as the design words it: the "parsed
    float of record[amountFields[0]] if amountFields non-empty, else 0.0
    (again 0.0 on parse failure)". *)
Definition primaryAmount (data : list Customer) (customer : Customer) : number :=
  match amountFields data with
  | f :: _ =>
      let v := parseFloat (get customer f) in
      if isNaN v then zero else v
  | [] => zero
  end.

(** A source of random numbers that always draws 0.5. *)
Definition halves (i : nat) : number := of_decimal false 5 (-1).

(** A date reader for which no string is a date. *)
Definition neverValid (s : option string) : option (Z * Z) := None.

(** A table whose date-like column holds no date. *)
Definition undated : list Customer :=
  [[("email", "a@example.com"); ("signup_date", "soon")];
   [("email", "b@example.com"); ("signup_date", "later")]].

(** Three records that all hold 0.1 in their only feature. *)
Definition tenths : list (list number) :=
  [[of_decimal false 1 (-1)]; [of_decimal false 1 (-1)]; [of_decimal false 1 (-1)]].

(** Three spenders, and a clustering of them that leaves cluster 1 of
    0, 1, 2 empty. *)
Definition threeSpenders : list Customer :=
  [[("amount", "100")]; [("amount", "900")]; [("amount", "950")]].

Definition skipsCluster1 (X : list (list number)) (k : nat) : list nat :=
  [0; 2; 2]%nat.

(** The two segmentation strategies, each with what it draws on: the
    random numbers of the RFM scores, or the k-means routine. *)
Variant strategy : Type :=
  | RuleBased (random : nat -> number)
  | Clustering (kmeans : list (list number) -> nat -> list nat).

Definition customerSegmentsBy (s : strategy) (data : list Customer)
    : list (list (string * jsvalue)) :=
  match s with
  | RuleBased random => Rfm.customerSegments random data
  | Clustering kmeans => KMeans.customerSegments kmeans data
  end.

(** The count of a segment in a distribution, 0 when it has none. *)
Definition countOf (counts : list (string * Z)) (name : string) : Z :=
  match get counts name with
  | Some c => c
  | None => 0
  end.

Definition Zsum (l : list Z) : Z := fold_right Z.add 0 l.

(** How far the quotient and the product of two binary64 numbers may lie
    from the exact ones, relative to them. *)
Definition eps_div : Q := 6 # 9007199254740992.
Definition eps_mul : Q := 1 # 2251799813685248.

(** The z-score of the design, column by column: the mean over the n
    records, the population standard deviation (dividing by n), and the
    divisor, which is 1 where that deviation is 0. *)
Definition columnMean (data : list (list number)) (j : nat) : number :=
  num_div (fold_left (fun sum row => num_add sum (cell row j)) data zero)
          (number_of_nat (List.length data)).

Definition populationStd (data : list (list number)) (j : nat) : number :=
  Math_sqrt
    (num_div
       (fold_left
          (fun sum row => num_add sum (Math_pow2 (num_sub (cell row j) (columnMean data j))))
          data zero)
       (number_of_nat (List.length data))).

Definition divisor (data : list (list number)) (j : nat) : number :=
  if num_eq (populationStd data j) zero then number_of_Z 1 else populationStd data j.

(** Two tables with the same columns, record by record, whose values
    agree in every column but [key]. *)
Definition agreeExcept (key : string) (data data' : list Customer) : Prop :=
  Forall2 (fun c c' : Customer =>
             Object_keys c = Object_keys c' /\
             forall k, k <> key -> get c k = get c' k)
          data data'.

(** The character [c] occurs in the string [s]. *)
Definition occurs (c : ascii) (s : string) : Prop := In c (list_ascii_of_string s).

(** A header that names a property like any other: neither [__proto__]
    nor an array index. *)
Definition plainHeader (h : string) : Prop := h <> "__proto__" /\ arrayIndex h = None.

(** A file of a header line and two data lines, the second of them
    short of a cell, and the table read from it. *)
Definition smallCSV : string :=
  String.concat (String LF EmptyString) ["name, total"; "ann, 12"; "bob"].

Definition smallTable : list Customer :=
  [[("name", "ann"); ("total", "12")]; [("name", "bob"); ("total", EmptyString)]].

(** A file whose only header is [__proto__]. *)
Definition protoCSV : string :=
  String.concat (String LF EmptyString) ["__proto__"; "x"].

(** The carriage return. *)
Definition CR : ascii := "013"%char.

(** The text with a carriage return put before every line feed, as a file
    with Windows line ends has them. *)
Fixpoint withCarriageReturns (text : string) : string :=
  match text with
  | EmptyString => EmptyString
  | String c text' =>
      if Ascii.eqb c LF then String CR (String LF (withCarriageReturns text'))
      else String c (withCarriageReturns text')
  end.

(** A line with a white space character more at its end. *)
Definition padded (w : ascii) (line' line : string) : Prop :=
  line' = line \/ line' = line ++ String w EmptyString.

(** [top] is a segment of [counts] with the largest count, and of those
    with that count the one counted first. *)
Definition largestFirstSeen (counts : list (string * Z)) (top : string) : Prop :=
  exists before c after,
    counts = (before ++ (top, c) :: after)%list /\
    Forall (fun e => snd e < c) before /\
    Forall (fun e => snd e <= c) after.

(** [customer.monetary] of an enriched record. *)
Definition monetary_of (customer : list (string * jsvalue)) : number :=
  match get customer "monetary" with
  | Some (VNumber amount) => amount
  | _ => NaN
  end.

(** The segment of a customer whose three scores add up to [total]. *)
Definition segmentOfTotal (total : Z) : string :=
  if 14 <=? total then "Champions"
  else if 12 <=? total then "Loyal Customers"
  else if 11 <=? total then "Potential Loyalists"
  else if 9 <=? total then "At Risk"
  else if 6 <=? total then "Need Attention"
  else "Lost Customers".

(** An infinite number, or [NaN]. *)
Definition notFinite (v : number) : Prop := num_isFinite v = false.

(** The number of records whose value in the date field is a date. *)
Definition dated (newDate : option string -> option (Z * Z)) (data : list Customer)
    (dateField : string) : Z :=
  Z.of_nat
    (List.length
       (filter (fun row =>
                  match newDate (get row dateField) with Some _ => true | None => false end)
               data)).

(** A date reader that takes every string that is not empty for a day
    of January 2024, and a table with two such dates and an empty one. *)
Definition januaryOnly (s : option string) : option (Z * Z) :=
  match s with
  | Some (String _ _) => Some (2024, 0)
  | _ => None
  end.

Definition dated2 : list Customer :=
  [[("signup_date", "2024-01-05")]; [("signup_date", EmptyString)];
   [("signup_date", "2024-01-20")]].

(** A number that [Math.random()] may return: a binary64 number from 0
    up to but not including 1. *)
Definition inUnitInterval (x : number) : bool :=
  valid_binary prec emax x && negb (sign_of x) && num_lt x (number_of_Z 1).

(** A random source keeps to the range of [Math.random()]. *)
Definition unitDraws (random : nat -> number) : Prop :=
  forall i, inUnitInterval (random i) = true.

(** The six segments of the RFM revision. *)
Definition rfmSegments : list string :=
  ["Champions"; "Loyal Customers"; "Potential Loyalists"; "At Risk"; "Need Attention";
   "Lost Customers"].

(** The k-means routine, on this table, gives every record a cluster id
    below the number of clusters asked for. *)
Definition clustersInRange (kmeans : list (list number) -> nat -> list nat)
    (data : list Customer) : Prop :=
  let clusters := kmeans (normalizeData (KMeans.clusteringData data)) (KMeans.k data) in
  List.length clusters = List.length data /\
  Forall (fun c => (c < KMeans.k data)%nat) clusters.

(** The number of records that the k-means routine puts in the cluster
    [c]. *)
Definition clusterSize (kmeans : list (list number) -> nat -> list nat)
    (data : list Customer) (c : nat) : nat :=
  List.length
    (filter (fun index =>
               match KMeans.clusterIdOf kmeans data index with
               | Some id => Nat.eqb id c
               | None => false
               end)
            (seq 0 (List.length data))).

(** What [scanDecimal] does once the sign is read. *)
Definition scanUnsigned (neg : bool) (s1 : string) : option (decimal * string) :=
  if String.prefix "Infinity" s1 then
    Some (DInfinity neg, String.substring 8 (String.length s1 - 8) s1)
  else
    let '(ip, n1, r1) := takeDigits s1 0%N 0%nat in
    match n1, r1 with
    | S _, String "." r2 =>
        let '(m, n2, r3) := takeDigits r2 ip 0%nat in
        let '(e, r4) := scanExponent r3 in
        Some (DFinite neg m (e - Z.of_nat n2), r4)
    | S _, _ =>
        let '(e, r4) := scanExponent r1 in
        Some (DFinite neg ip e, r4)
    | O, String "." r2 =>
        let '(m, n2, r3) := takeDigits r2 0%N 0%nat in
        match n2 with
        | O => None
        | _ =>
            let '(e, r4) := scanExponent r3 in
            Some (DFinite neg m (e - Z.of_nat n2), r4)
        end
    | O, _ => None
    end.

(** A string that starts like a decimal literal without a sign: with
    [Infinity], with a digit, or with a point and a digit. *)
Definition startsUnsigned (s1 : string) : bool :=
  String.prefix "Infinity" s1 ||
  match s1 with
  | String c r =>
      isDigit c ||
      (Ascii.eqb c "." &&
       match r with
       | String c2 _ => isDigit c2
       | EmptyString => false
       end)
  | EmptyString => false
  end.

(** A string that starts like a decimal literal, sign included. *)
Definition startsNumber (s : string) : bool :=
  match s with
  | String c r =>
      if (Ascii.eqb c "+" || Ascii.eqb c "-")%bool then startsUnsigned r
      else startsUnsigned s
  | EmptyString => false
  end.

Definition isSome {A : Type} (o : option A) : bool :=
  match o with Some _ => true | None => false end.

(** * Verification *)

(** ** Number literals *)

(** The decimal literals of the sources denote their nearest binary64
    numbers, here as mantissa and binary exponent: 0.1 is
    0x1.999999999999ap-4, 0.15 is 0x1.3333333333333p-3, and so on. *)
Example literals_are_binary64 :
  [of_decimal false 1 (-1); of_decimal false 15 (-2); of_decimal false 2 (-1);
   of_decimal false 25 (-2); of_decimal false 3 (-1); of_decimal false 4 (-1);
   of_decimal false 8 (-1); of_decimal false 15 (-1); of_decimal false 35 (-1);
   of_decimal false 45 (-1)]
  = [S754_finite false 0x1999999999999a (-56); S754_finite false 0x13333333333333 (-55);
     S754_finite false 0x1999999999999a (-55); S754_finite false 0x10000000000000 (-54);
     S754_finite false 0x13333333333333 (-54); S754_finite false 0x1999999999999a (-54);
     S754_finite false 0x1999999999999a (-53); S754_finite false 0x18000000000000 (-52);
     S754_finite false 0x1c000000000000 (-51); S754_finite false 0x12000000000000 (-50)].
Proof. vm_compute. reflexivity. Qed.

(** What [parseFloat] and [Number] make of some strings. *)
Example parseFloat_values :
  map parseFloat_string ["12abc"; "  -12.75e3xyz"; ".5"; "1e"; "abc"; "-"; "Infinityx"]
  = [number_of_Z 12; number_of_Z (-12750); of_decimal false 5 (-1); number_of_Z 1;
     NaN; NaN; S754_infinity false].
Proof. vm_compute. reflexivity. Qed.

Example Number_values :
  map Number_string ["12abc"; " 12.5 "; "0x1F"; "1e"; "   "; "1e400"]
  = [NaN; of_decimal false 125 (-1); number_of_Z 31; NaN; zero; S754_infinity false].
Proof. vm_compute. reflexivity. Qed.

(** ** Objects *)

Section ObjectFacts.
Context {V : Type}.
Implicit Types (o : list (string * V)) (k : string) (v : V).

Lemma get_set_same o k v : get (set k v o) k = Some v.
Proof.
  induction o as [|[k' v'] o IH]; simpl.
  - now rewrite String.eqb_refl.
  - destruct (String.eqb k' k) eqn:E; simpl; rewrite E; auto.
Qed.

Lemma get_set_other o k k' v : k <> k' -> get (set k v o) k' = get o k'.
Proof.
  intros Hne. induction o as [|[k0 v0] o IH]; simpl.
  - destruct (String.eqb k k') eqn:E; auto.
    apply String.eqb_eq in E. contradiction.
  - destruct (String.eqb k0 k) eqn:E; simpl.
    + apply String.eqb_eq in E. subst k0.
      destruct (String.eqb k k') eqn:E'; auto.
      apply String.eqb_eq in E'. contradiction.
    + now rewrite IH.
Qed.
End ObjectFacts.

Lemma get_spread (customer : Customer) (key : string) :
  get (spread customer) key = option_map VString (get customer key).
Proof.
  induction customer as [|[k' v] c IH]; simpl; auto.
  destruct (String.eqb k' key); auto.
Qed.

Section ArrayFacts.
Context {A B : Type}.

Lemma nth_error_mapi_from (f : nat -> A -> B) (l : list A) :
  forall start i,
    nth_error (mapi_from f start l) i = option_map (f (start + i)%nat) (nth_error l i).
Proof.
  induction l as [|x l IH]; intros start i.
  - now destruct i.
  - destruct i as [|i]; simpl.
    + now rewrite Nat.add_0_r.
    + rewrite IH. now rewrite Nat.add_succ_comm.
Qed.

Lemma nth_error_mapi (f : nat -> A -> B) (l : list A) (i : nat) :
  nth_error (mapi f l) i = option_map (f i) (nth_error l i).
Proof. unfold mapi. now rewrite nth_error_mapi_from. Qed.

Lemma length_mapi_from (f : nat -> A -> B) (l : list A) :
  forall start, List.length (mapi_from f start l) = List.length l.
Proof. induction l; intros; simpl; auto. Qed.

Lemma length_mapi (f : nat -> A -> B) (l : list A) :
  List.length (mapi f l) = List.length l.
Proof. apply length_mapi_from. Qed.
End ArrayFacts.

(** ** Enriched records *)

Lemma get_enrich_derived customer id cluster segment amount features :
  let e := KMeans.enrich customer id cluster segment amount features in
  get e "id" = Some (VNumber (number_of_nat id)) /\
  get e "cluster" =
    Some (match cluster with
          | Some c => VNumber (number_of_nat c)
          | None => VUndefined
          end) /\
  get e "segment" = Some (VString segment) /\
  get e "monetary" = Some (VNumber amount) /\
  get e "features" = Some (VObject features).
Proof.
  unfold KMeans.enrich. cbv zeta.
  repeat split;
    repeat first
      [ rewrite get_set_same; reflexivity
      | rewrite get_set_other by discriminate ].
Qed.

Lemma get_enrich_other customer id cluster segment amount features key :
  ~ In key derivedKeys ->
  get (KMeans.enrich customer id cluster segment amount features) key
  = option_map VString (get customer key).
Proof.
  intros Hkey. unfold KMeans.enrich.
  rewrite !get_set_other.
  - apply get_spread.
  - intros <-. apply Hkey. simpl. tauto.
  - intros <-. apply Hkey. simpl. tauto.
  - intros <-. apply Hkey. simpl. tauto.
  - intros <-. apply Hkey. simpl. tauto.
  - intros <-. apply Hkey. simpl. tauto.
Qed.

Lemma segment_of_enrich customer id cluster segment amount features :
  segment_of (KMeans.enrich customer id cluster segment amount features) = segment.
Proof.
  unfold segment_of.
  destruct (get_enrich_derived customer id cluster segment amount features)
    as (_ & _ & -> & _).
  reflexivity.
Qed.

Lemma enriched_shape kmeans (data : list Customer) (index : nat) (customer : Customer) :
  nth_error data index = Some customer ->
  exists enriched,
    nth_error (KMeans.customerSegments kmeans data) index = Some enriched /\
    get enriched "cluster" =
      Some (match KMeans.clusterIdOf kmeans data index with
            | Some c => VNumber (number_of_nat c)
            | None => VUndefined
            end) /\
    get enriched "segment"
    = Some (VString (KMeans.segmentOf kmeans data (KMeans.clusterIdOf kmeans data index))).
Proof.
  intros Hnth. eexists. split.
  - unfold KMeans.customerSegments. rewrite nth_error_mapi, Hnth. reflexivity.
  - split; apply get_enrich_derived.
Qed.

Lemma segmentCounts_tallies (cs : list (list (string * jsvalue))) :
  segmentCounts cs = fold_left tally (map segment_of cs) [].
Proof.
  unfold segmentCounts. generalize (@nil (string * Z)).
  induction cs as [|c cs IH]; intros acc; simpl; auto.
Qed.

Lemma map_mapi_from {A B C : Type} (g : B -> C) (f : nat -> A -> B) (l : list A) :
  forall start, map g (mapi_from f start l) = mapi_from (fun i x => g (f i x)) start l.
Proof. induction l as [|x l IH]; intros; simpl; [|rewrite IH]; reflexivity. Qed.

Lemma mapi_from_index_only {A B : Type} (f : nat -> B) (l : list A) :
  forall start, mapi_from (fun i _ => f i) start l = map f (seq start (List.length l)).
Proof. induction l as [|x l IH]; intros; simpl; [|rewrite IH]; reflexivity. Qed.

Lemma mapi_from_ext {A B : Type} (f g : nat -> A -> B) (l : list A) :
  (forall i x, f i x = g i x) ->
  forall start, mapi_from f start l = mapi_from g start l.
Proof.
  intros Hfg. induction l as [|x l IH]; intros; simpl; [|rewrite Hfg, IH]; reflexivity.
Qed.

Lemma segments_of_customerSegments kmeans (data : list Customer) :
  map segment_of (KMeans.customerSegments kmeans data)
  = map (fun index => KMeans.segmentOf kmeans data (KMeans.clusterIdOf kmeans data index))
        (seq 0 (List.length data)).
Proof.
  unfold KMeans.customerSegments, mapi.
  rewrite map_mapi_from.
  rewrite <- mapi_from_index_only.
  apply mapi_from_ext. intros i x.
  apply segment_of_enrich.
Qed.

(** C10. Every record of the table has an enriched record at its index
    whose properties [id], [cluster], [segment], [monetary] and [features]
    hold the derived values whatever columns of these names the input
    record has, and whose other properties are the input columns
    unchanged; the segment distribution tallies the derived segment
    names. *)
Theorem enriched_record_shadows_input_columns :
  forall (kmeans : list (list number) -> nat -> list nat) (data : list Customer)
         (index : nat) (customer : Customer),
    nth_error data index = Some customer ->
    let cluster := KMeans.clusterIdOf kmeans data index in
    exists enriched,
      nth_error (KMeans.customerSegments kmeans data) index = Some enriched /\
      get enriched "id" = Some (VNumber (number_of_nat (index + 1))) /\
      get enriched "cluster" =
        Some (match cluster with
              | Some c => VNumber (number_of_nat c)
              | None => VUndefined
              end) /\
      get enriched "segment" = Some (VString (KMeans.segmentOf kmeans data cluster)) /\
      get enriched "monetary" = Some (VNumber (KMeans.amountOf data customer)) /\
      get enriched "features" = Some (VObject (KMeans.featuresOf data customer)) /\
      (forall key, ~ In key derivedKeys ->
                   get enriched key = option_map VString (get customer key)) /\
      segmentCounts (KMeans.customerSegments kmeans data)
      = fold_left tally
          (map (fun i => KMeans.segmentOf kmeans data (KMeans.clusterIdOf kmeans data i))
               (seq 0 (List.length data)))
          [].
Proof.
  intros kmeans data index customer Hnth cluster.
  eexists. split.
  - unfold KMeans.customerSegments. rewrite nth_error_mapi, Hnth. reflexivity.
  - destruct (get_enrich_derived customer (index + 1) cluster
                (KMeans.segmentOf kmeans data cluster)
                (KMeans.amountOf data customer)
                (KMeans.featuresOf data customer))
      as (Hid & Hcl & Hseg & Hmon & Hfeat).
    repeat split; auto.
    + intros key Hkey. now apply get_enrich_other.
    + rewrite segmentCounts_tallies, segments_of_customerSegments. reflexivity.
Qed.

Lemma Forall2_firstn_both {A B : Type} (R : A -> B -> Prop) (l : list A) (l' : list B) :
  Forall2 R l l' -> forall n, Forall2 R (firstn n l) (firstn n l').
Proof.
  induction 1 as [|x y l l' Hxy Hl IH]; intros [|n]; simpl; constructor; auto.
Qed.

(** A column that is not a numeric field and whose name is not one of an
    amount leaves no trace in the segments: changing its values changes
    neither the features nor the names, nor then the distribution. *)
Section ColumnWithoutEffect.
Variable kmeans : list (list number) -> nat -> list nat.
Variables (key : string) (data data' : list Customer).
Hypothesis Hagree : agreeExcept key data data'.
Hypothesis Hkey : ~ In key (KMeans.numericFields data).
Hypothesis Hkey' : ~ In key (KMeans.numericFields data').

Lemma agree_length : List.length data = List.length data'.
Proof. exact (Forall2_length Hagree). Qed.

Lemma agree_fields : fields data = fields data'.
Proof.
  unfold fields. destruct Hagree as [|c c' rows rows' [Hk _] _]; auto.
Qed.

Lemma agree_amountFields : amountFields data = amountFields data'.
Proof. unfold amountFields. now rewrite agree_fields. Qed.

Lemma agree_firstn (n : nat) : agreeExcept key (firstn n data) (firstn n data').
Proof. apply Forall2_firstn_both. exact Hagree. Qed.

Lemma agree_sample (field : string) (rows rows' : list Customer) :
  agreeExcept key rows rows' ->
  field <> key ->
  map (fun row => get row field) rows = map (fun row => get row field) rows'.
Proof.
  intros H Hne. induction H as [|c c' rows rows' [_ Hc] _ IH]; simpl; auto.
  now rewrite IH, (Hc field Hne).
Qed.

Lemma agree_numericFields : KMeans.numericFields data = KMeans.numericFields data'.
Proof.
  set (sampled := fun (rows : list Customer) (field : string) =>
                    existsb KMeans.looksNumeric
                            (map (fun row => get row field) (firstn 100 rows))).
  assert (Hnum : forall rows, KMeans.numericFields rows = filter (sampled rows) (fields rows))
    by reflexivity.
  rewrite !Hnum, <- agree_fields.
  apply filter_ext_in. intros field Hin.
  destruct (string_dec field key) as [->|Hne].
  - destruct (sampled data key) eqn:E.
    + exfalso. apply Hkey. rewrite Hnum. apply filter_In. now split.
    + destruct (sampled data' key) eqn:E'; auto.
      exfalso. apply Hkey'. rewrite Hnum, <- agree_fields. apply filter_In. now split.
  - unfold sampled. now rewrite (agree_sample field _ _ (agree_firstn 100) Hne).
Qed.

Lemma agree_clusteringData : KMeans.clusteringData data = KMeans.clusteringData data'.
Proof.
  unfold KMeans.clusteringData. rewrite <- agree_numericFields.
  assert (Hrows : forall rows rows',
             agreeExcept key rows rows' ->
             map (fun customer =>
                    map (fun field =>
                           let v := parseFloat (get customer field) in
                           if isNaN v then zero else v)
                        (KMeans.numericFields data)) rows
             = map (fun customer =>
                      map (fun field =>
                             let v := parseFloat (get customer field) in
                             if isNaN v then zero else v)
                          (KMeans.numericFields data)) rows').
  { induction 1 as [|c c' rows rows' [_ Hc] _ IH]; simpl; auto.
    f_equal; [|exact IH].
    apply map_ext_in. intros field Hin.
    assert (Hne : field <> key) by (intros ->; contradiction).
    now rewrite (Hc field Hne). }
  now apply Hrows.
Qed.

Lemma agree_clusterResults :
  KMeans.clusterResults kmeans data = KMeans.clusterResults kmeans data'.
Proof.
  unfold KMeans.clusterResults, KMeans.normalizedData, KMeans.k.
  now rewrite agree_clusteringData, agree_length.
Qed.

Lemma agree_segmentNames : KMeans.segmentNames kmeans data = KMeans.segmentNames kmeans data'.
Proof.
  pose proof agree_clusterResults as Hres.
  pose proof agree_numericFields as Hnum.
  pose proof agree_clusteringData as Hcd.
  pose proof agree_amountFields as Hamount.
  pose proof agree_length as Hlen.
  assert (Hk : KMeans.k data = KMeans.k data').
  { unfold KMeans.k. now rewrite Hlen. }
  assert (Hstats : forall clusters,
             KMeans.clusterStats data clusters = KMeans.clusterStats data' clusters).
  { intros clusters. unfold KMeans.clusterStats, KMeans.clusterStat.
    now rewrite Hk, Hcd, Hnum. }
  assert (Hname : forall stat, KMeans.nameOfStat data stat = KMeans.nameOfStat data' stat).
  { intros stat. unfold KMeans.nameOfStat, KMeans.primaryValueFieldIdx.
    now rewrite Hcd, Hnum, Hamount, Hlen. }
  unfold KMeans.segmentNames, KMeans.generateSegmentNames.
  rewrite Hres, Hnum, Hk.
  destruct (KMeans.clusterResults kmeans data') as [clusters|]; auto.
  destruct (KMeans.numericFields data'); auto.
  rewrite Hstats. apply map_ext. exact Hname.
Qed.

Lemma segment_distribution_ignores_column :
  segmentCounts (KMeans.customerSegments kmeans data)
  = segmentCounts (KMeans.customerSegments kmeans data').
Proof.
  rewrite !segmentCounts_tallies, !segments_of_customerSegments.
  rewrite <- agree_length. f_equal.
  apply map_ext. intros index.
  unfold KMeans.segmentOf, KMeans.clusterIdOf.
  now rewrite agree_clusterResults, agree_segmentNames.
Qed.

End ColumnWithoutEffect.

Lemma enriched_record_shadows_input_columns_witness :
  nth_error [sampleRow] 0 = Some sampleRow /\
  exists enriched,
    nth_error (KMeans.customerSegments oneCluster [sampleRow]) 0 = Some enriched /\
    get enriched "segment"
    = Some (VString (KMeans.segmentOf oneCluster [sampleRow]
                       (KMeans.clusterIdOf oneCluster [sampleRow] 0))).
Proof.
  split; [reflexivity|].
  destruct (enriched_record_shadows_input_columns oneCluster [sampleRow] 0 sampleRow eq_refl)
    as (enriched & Hnth & _ & _ & Hseg & _).
  exists enriched. split; [exact Hnth | exact Hseg].
Defined.

(** ** Degenerate clustering input *)

Lemma clusteringData_no_numeric_fields (data : list Customer) :
  KMeans.numericFields data = [] ->
  KMeans.clusteringData data = repeat [] (List.length data).
Proof.
  intros Hnum. unfold KMeans.clusteringData. rewrite Hnum. clear Hnum.
  induction data as [|c data IH]; simpl; [reflexivity|].
  f_equal. exact IH.
Qed.

Lemma clusterResults_no_numeric_fields kmeans (data : list Customer) :
  degradesGracefully kmeans ->
  KMeans.numericFields data = [] ->
  data <> [] ->
  KMeans.clusterResults kmeans data = Some (repeat 0%nat (List.length data)).
Proof.
  intros Hk Hnum Hne.
  unfold KMeans.clusterResults, KMeans.normalizedData.
  rewrite (clusteringData_no_numeric_fields data Hnum).
  destruct data as [|c data]; [contradiction|]. simpl.
  f_equal.
  rewrite (Hk ([] :: repeat [] (List.length data))).
  - simpl. now rewrite repeat_length.
  - constructor; auto. apply Forall_forall. intros row Hin.
    now apply repeat_spec in Hin.
Qed.

(** C4. With the k-means routine behaving as the design says on a matrix
    without columns, a table that has records and no numeric field gets
    the cluster id 0, and the segment of that cluster, on every record:
    the matrix passes the normalizer unchanged and the clustering result
    is read per record. *)
Theorem zero_feature_columns_single_cluster :
  forall (kmeans : list (list number) -> nat -> list nat),
    degradesGracefully kmeans ->
    forall (data : list Customer) (index : nat) (customer : Customer),
      KMeans.numericFields data = [] ->
      nth_error data index = Some customer ->
      KMeans.normalizedData data = repeat [] (List.length data) /\
      KMeans.clusterIdOf kmeans data index = Some 0%nat /\
      exists enriched,
        nth_error (KMeans.customerSegments kmeans data) index = Some enriched /\
        get enriched "cluster" = Some (VNumber zero) /\
        get enriched "segment" = Some (VString "Segment 1").
Proof.
  intros kmeans Hk data index customer Hnum Hnth.
  assert (Hne : data <> []) by (intros ->; destruct index; discriminate).
  assert (Hlt : (index < List.length data)%nat)
    by (apply nth_error_Some; congruence).
  pose proof (clusterResults_no_numeric_fields kmeans data Hk Hnum Hne) as Hres.
  assert (Hid : KMeans.clusterIdOf kmeans data index = Some 0%nat).
  { unfold KMeans.clusterIdOf. rewrite Hres.
    now rewrite nth_error_repeat. }
  assert (Hseg : KMeans.segmentOf kmeans data (Some 0%nat) = "Segment 1").
  { unfold KMeans.segmentOf, KMeans.segmentNames, KMeans.generateSegmentNames.
    rewrite Hres, Hnum. unfold KMeans.k.
    destruct data as [|c data]; [contradiction|].
    simpl List.length. rewrite Nat.min_comm. simpl Nat.min.
    destruct (List.length data) as [|[|[|[|n]]]]; reflexivity. }
  split; [|split; [exact Hid|]].
  - unfold KMeans.normalizedData.
    rewrite (clusteringData_no_numeric_fields data Hnum).
    destruct data as [|c data]; [contradiction|]. reflexivity.
  - destruct (enriched_shape kmeans data index customer Hnth)
      as (enriched & He & Hcl & Hsg).
    exists enriched. rewrite Hid in Hcl, Hsg. rewrite Hseg in Hsg.
    repeat split; assumption.
Qed.

Lemma zero_feature_columns_single_cluster_witness :
  degradesGracefully oneCluster /\
  KMeans.numericFields namesOnly = [] /\
  nth_error namesOnly 0 = Some [("name", "bob")] /\
  KMeans.clusterIdOf oneCluster namesOnly 0 = Some 0%nat.
Proof.
  assert (Hk : degradesGracefully oneCluster) by (intros X k _; reflexivity).
  split; [exact Hk|]. split; [reflexivity|]. split; [reflexivity|].
  exact (proj1 (proj2 (zero_feature_columns_single_cluster oneCluster Hk namesOnly 0
                         [("name", "bob")] eq_refl eq_refl))).
Defined.

(** ** The no-data result and the total of the amounts *)

Lemma insights_no_data kmeans newDate random localeCompare monthLabel :
  KMeans.insights kmeans newDate random localeCompare monthLabel None = KMeans.Returned None /\
  KMeans.insights kmeans newDate random localeCompare monthLabel (Some []) = KMeans.Returned None.
Proof. split; reflexivity. Qed.

Lemma totalRevenue_unparseable (data : list Customer) (f : string) (rest : list string) :
  amountFields data = f :: rest ->
  (forall customer, In customer data -> isNaN (parseFloat (get customer f)) = true) ->
  totalRevenue data = zero.
Proof.
  intros Hf Hnan. unfold totalRevenue. rewrite Hf.
  assert (H : forall rows, (forall c, In c rows -> isNaN (parseFloat (get c f)) = true) ->
              fold_left (fun sum c => num_add sum (num_or (parseFloat (get c f)) zero))
                        rows zero = zero).
  { induction rows as [|c rows IH]; intros Hrows; simpl; auto.
    assert (Hc : isNaN (parseFloat (get c f)) = true) by (apply Hrows; now left).
    destruct (parseFloat (get c f)); try discriminate. simpl.
    apply IH. intros c' Hin. apply Hrows. now right. }
  now apply H.
Qed.

Lemma emailField_defined (data : list Customer) (f : string) (rest : list string) :
  fields data = f :: rest -> exists email, emailField data = Some email.
Proof.
  intros Hf. unfold emailField. rewrite Hf.
  destruct (find _ (f :: rest)); simpl; eauto.
Qed.

Lemma insights_unparseable_amounts kmeans newDate random localeCompare monthLabel
      (data : list Customer) (f : string) (rest : list string) :
  data <> [] ->
  amountFields data = f :: rest ->
  (forall customer, In customer data -> isNaN (parseFloat (get customer f)) = true) ->
  exists snapshot,
    KMeans.insights kmeans newDate random localeCompare monthLabel (Some data)
    = KMeans.Returned (Some snapshot) /\
    KMeans.totalRevenue_ snapshot = zero.
Proof.
  intros Hne Hf Hnan.
  assert (Hfields : exists g more, fields data = g :: more).
  { unfold amountFields in Hf. destruct (fields data) as [|g more]; [discriminate|eauto]. }
  destruct Hfields as (g & more & Hg).
  destruct (emailField_defined data g more Hg) as [email Hemail].
  destruct data as [|c data]; [contradiction|].
  unfold KMeans.insights. rewrite Hemail.
  eexists. split; [reflexivity|]. simpl.
  now apply (totalRevenue_unparseable (c :: data) f rest).
Qed.

(** C2. A table whose first record has no column at all (the object
    [{}]) makes the callback throw a TypeError: [fields] is empty,
    [emailField] is [undefined], and the labels call [toLowerCase] on
    it. *)
Theorem insights_throws_on_record_without_columns :
  forall kmeans newDate random localeCompare monthLabel (rest : list Customer),
    KMeans.insights kmeans newDate random localeCompare monthLabel (Some ([] :: rest))
    = KMeans.Thrown_TypeError.
Proof. reflexivity. Qed.

(** The callback throws on these tables and on no other. *)
Lemma insights_throws_iff kmeans newDate random localeCompare monthLabel
      (data : option (list Customer)) :
  KMeans.insights kmeans newDate random localeCompare monthLabel data = KMeans.Thrown_TypeError
  <-> exists rest, data = Some ([] :: rest).
Proof.
  split.
  - destruct data as [[|[|[key v] c] rest]|].
    + discriminate.
    + intros _. now exists rest.
    + unfold KMeans.insights.
      destruct (emailField _) as [email|] eqn:E; [discriminate|].
      unfold emailField in E. cbn [fields Object_keys map fst hd_error find] in E.
      destruct (includes (toLowerCase key) "email"); [discriminate|].
      destruct (find _ (map fst c)); discriminate.
    + discriminate.
  - intros [rest ->]. reflexivity.
Qed.

(** ** Numeric fields *)

(** C3 as stated fails: in [prefixOnly] the value "12abc" parses, as
    [parseFloat] reads the number 12 at its head, and yet the column is
    not a numeric field. *)
Lemma numericFields_not_by_parseFloat_alone :
  ~ (forall (data : list Customer), data <> [] ->
       forall field,
         In field (KMeans.numericFields data) <->
         In field (fields data) /\
         exists row, In row (firstn 100 data) /\ parsesAsFiniteFloat (get row field) = true).
Proof.
  intros H.
  assert (Hin : In "age" (KMeans.numericFields prefixOnly)).
  { apply (H prefixOnly); [discriminate|].
    split; [now left|].
    exists [("age", "12abc")]. split; [now left|]. vm_compute. reflexivity. }
  vm_compute in Hin. exact Hin.
Qed.

(** C3, amended. A column of the first record is a numeric field exactly
    when one of the first 100 records holds in it a value for which
    [parseFloat] gives a number and which [isFinite] accepts, that is
    whose whole text converts to a finite number. *)
Theorem numericFields_characterization :
  forall (data : list Customer) (field : string),
    In field (KMeans.numericFields data) <->
    In field (fields data) /\
    exists row,
      In row (firstn (Nat.min 100 (List.length data)) data) /\
      isNaN (parseFloat (get row field)) = false /\
      isFinite (get row field) = true.
Proof.
  intros data field. unfold KMeans.numericFields.
  assert (Hfirst : firstn (Nat.min 100 (List.length data)) data = firstn 100 data).
  { destruct (Nat.le_gt_cases 100 (List.length data)) as [Hle|Hgt].
    - now rewrite Nat.min_l.
    - rewrite Nat.min_r by lia. rewrite firstn_all.
      symmetry. apply firstn_all2. lia. }
  rewrite Hfirst, filter_In, existsb_exists.
  split.
  - intros [Hf (val & Hval & Hnum)]. split; [exact Hf|].
    apply in_map_iff in Hval. destruct Hval as (row & <- & Hrow).
    exists row. split; [exact Hrow|].
    unfold KMeans.looksNumeric in Hnum.
    apply andb_true_iff in Hnum. destruct Hnum as [Hnan Hfin].
    split; [now apply negb_true_iff|exact Hfin].
  - intros [Hf (row & Hrow & Hnan & Hfin)]. split; [exact Hf|].
    exists (get row field). split.
    + apply in_map_iff. now exists row.
    + unfold KMeans.looksNumeric. now rewrite Hnan, Hfin.
Qed.

(** What the test of a numeric field makes of some values. *)
Example looksNumeric_values :
  map (fun s => KMeans.looksNumeric (Some s))
      ["12.5"; "-3e2"; "0x1F"; "12abc"; "2023-05-17"; "abc"; EmptyString; "Infinity"]
  = [true; true; true; false; false; false; false; false] /\
  KMeans.looksNumeric None = false.
Proof. split; vm_compute; reflexivity. Qed.

(** ** Segment names *)

(** C5. With three spenders clustered into 0, 2, 2, the statistics of
    the empty cluster 1 are dropped before the names are computed, and
    the names move down one place: the name "Core Customers", computed
    from the mean and size of cluster 2, lands at index 1, and the
    records of cluster 2 are shown as "Segment 3". *)
Theorem segment_names_shift_past_empty_cluster :
  KMeans.clusterResults skipsCluster1 threeSpenders = Some [0; 2; 2]%nat /\
  (exists stat,
      KMeans.clusterStat threeSpenders [0; 2; 2]%nat 2 = Some stat /\
      KMeans.nameOfStat threeSpenders stat = "Core Customers") /\
  KMeans.segmentNames skipsCluster1 threeSpenders = ["Entry Level"; "Core Customers"] /\
  KMeans.segmentOf skipsCluster1 threeSpenders (Some 2%nat) = "Segment 3".
Proof.
  split; [vm_compute; reflexivity|].
  split.
  { eexists. split.
    - vm_compute. reflexivity.
    - vm_compute. reflexivity. }
  split; vm_compute; reflexivity.
Qed.

Lemma nameOfStat_not_empty (data : list Customer) (stat : KMeans.ClusterStat) :
  exists c s, KMeans.nameOfStat data stat = String c s.
Proof.
  unfold KMeans.nameOfStat.
  destruct (KMeans.primaryValueFieldIdx data);
    repeat match goal with
           | |- context [if ?b then _ else _] => destruct b
           end; eauto.
Qed.

Lemma filter_Boolean_all_defined {A B : Type} (f : A -> option B) (g : A -> B) (l : list A) :
  (forall x, In x l -> f x = Some (g x)) ->
  KMeans.filter_Boolean (map f l) = map g l.
Proof.
  induction l as [|x l IH]; intros Hall; simpl; auto.
  rewrite (Hall x) by now left. simpl. f_equal.
  apply IH. intros y Hy. apply Hall. now right.
Qed.

(** Where no cluster id below [k] is empty, every cluster id is named
    from its own statistics. *)
Lemma segment_named_from_own_statistics kmeans (data : list Customer)
      (clusters : list nat) (stats : nat -> KMeans.ClusterStat) (id : nat) :
  KMeans.clusterResults kmeans data = Some clusters ->
  KMeans.numericFields data <> [] ->
  (forall c, (c < KMeans.k data)%nat -> KMeans.clusterStat data clusters c = Some (stats c)) ->
  (id < KMeans.k data)%nat ->
  KMeans.segmentOf kmeans data (Some id) = KMeans.nameOfStat data (stats id).
Proof.
  intros Hres Hnum Hall Hid.
  unfold KMeans.segmentOf, KMeans.segmentNames, KMeans.generateSegmentNames.
  rewrite Hres.
  destruct (KMeans.numericFields data) as [|f fs] eqn:Hf; [contradiction|].
  unfold KMeans.clusterStats.
  rewrite (filter_Boolean_all_defined _ stats).
  - rewrite map_map.
    rewrite (nth_error_map (fun c => KMeans.nameOfStat data (stats c)) id
                           (seq 0 (KMeans.k data))).
    rewrite nth_error_seq.
    destruct (Nat.ltb_spec id (KMeans.k data)) as [_|Hge]; [|lia]. simpl.
    destruct (nameOfStat_not_empty data (stats id)) as (c & s & ->). reflexivity.
  - intros c Hc. apply in_seq in Hc. apply Hall. lia.
Qed.

(** ** The monetary input of the RFM scores *)

Lemma nth_error_customerSegments_from random (data : list Customer) (step : nat) :
  (forall c calls, snd (Rfm.customerSegment random data c 0 calls) = (calls + step)%nat) ->
  (forall c i j calls, snd (Rfm.customerSegment random data c i calls)
                       = snd (Rfm.customerSegment random data c j calls)) ->
  forall (rows : list Customer) (index calls i : nat) (customer : Customer),
    nth_error rows i = Some customer ->
    nth_error (Rfm.customerSegments_from random data rows index calls) i
    = Some (fst (Rfm.customerSegment random data customer (index + i) (calls + step * i))).
Proof.
  intros Hstep Hindep.
  induction rows as [|c rows IH]; intros index calls i customer Hnth.
  - destruct i; discriminate.
  - simpl.
    destruct (Rfm.customerSegment random data c index calls) as [e calls'] eqn:E.
    destruct i as [|i]; simpl in *.
    + injection Hnth as ->. rewrite Nat.add_0_r, Nat.mul_0_r, Nat.add_0_r, E. reflexivity.
    + rewrite (IH (S index) calls' i customer Hnth).
      assert (Hc : calls' = (calls + step)%nat).
      { rewrite <- (Hstep c calls), (Hindep c 0%nat index calls), E. reflexivity. }
      subst calls'. do 3 f_equal; lia.
Qed.

Lemma num_eq_refl (x : number) : isNaN x = false -> num_eq x x = true.
Proof.
  destruct x as [s|s| |s m e]; intros H; try discriminate; unfold num_eq, SFeqb; simpl.
  - reflexivity.
  - now destruct s.
  - rewrite Z.compare_refl.
    assert (Hm : Pos.compare_cont Eq m m = Eq) by apply Pos.compare_refl.
    rewrite Hm. now destruct s.
Qed.

Lemma num_or_zero_eq (v : number) :
  num_eq (num_or v zero) (if isNaN v then zero else v) = true.
Proof.
  destruct v as [s|s| |s m e]; simpl; try reflexivity.
  - now destruct s.
  - apply (num_eq_refl (S754_finite s m e)). reflexivity.
Qed.

(** C6 as stated fails: on a table without an amount column, where the
    primary amount is 0, the monetary value of the record is the random
    draw times 1000, 500 for a draw of 0.5. *)
Lemma rfm_monetary_not_primaryAmount :
  ~ (forall (random : nat -> number) (data : list Customer) (index : nat) (customer : Customer),
       nth_error data index = Some customer ->
       exists enriched,
         nth_error (Rfm.customerSegments random data) index = Some enriched /\
         get enriched "monetary" = Some (VNumber (primaryAmount data customer))).
Proof.
  intros H.
  destruct (H halves namesOnly 0%nat [("name", "bob")] eq_refl) as (enriched & Hnth & Hmon).
  vm_compute in Hnth. injection Hnth as <-.
  vm_compute in Hmon. discriminate.
Qed.

Lemma customerSegment_monetary random (data : list Customer) (customer : Customer)
      (index calls : nat) :
  let amount := fst (Rfm.amountOf random data customer calls) in
  let enriched := fst (Rfm.customerSegment random data customer index calls) in
  get enriched "monetary" = Some (VNumber amount) /\
  get enriched "mScore" = Some (VNumber (number_of_Z (Rfm.mScore amount))).
Proof.
  unfold Rfm.customerSegment.
  destruct (Rfm.amountOf random data customer calls) as [amount calls1].
  cbv zeta. simpl fst.
  split;
    repeat first
      [ rewrite get_set_same; reflexivity
      | rewrite get_set_other by discriminate ].
Qed.

(** C6, amended. The monetary value of a record, which its monetary
    score is computed from, is [parseFloat] of the first amount field or
    0 where a table has an amount field, which equals the primary
    amount; where it has none, it is [Math.random() * 1000], the draw
    being the first of the three the record makes. *)
Theorem rfm_monetary_input :
  forall (random : nat -> number) (data : list Customer) (index : nat) (customer : Customer),
    nth_error data index = Some customer ->
    exists enriched amount,
      nth_error (Rfm.customerSegments random data) index = Some enriched /\
      get enriched "monetary" = Some (VNumber amount) /\
      get enriched "mScore" = Some (VNumber (number_of_Z (Rfm.mScore amount))) /\
      match amountFields data with
      | f :: _ =>
          amount = num_or (parseFloat (get customer f)) zero /\
          num_eq amount (primaryAmount data customer) = true
      | [] => amount = num_mul (random (3 * index)%nat) (number_of_Z 1000)
      end.
Proof.
  intros random data index customer Hnth.
  set (step := match amountFields data with [] => 3%nat | _ => 2%nat end).
  assert (Hstep : forall c calls,
             snd (Rfm.customerSegment random data c 0 calls) = (calls + step)%nat).
  { intros c calls. unfold Rfm.customerSegment, Rfm.amountOf, step.
    destruct (amountFields data); simpl; lia. }
  assert (Hindep : forall c i j calls,
             snd (Rfm.customerSegment random data c i calls)
             = snd (Rfm.customerSegment random data c j calls)).
  { intros c i j calls. unfold Rfm.customerSegment.
    destruct (Rfm.amountOf random data c calls). reflexivity. }
  pose proof (nth_error_customerSegments_from random data step Hstep Hindep
                data 0%nat 0%nat index customer Hnth) as Hrow.
  simpl in Hrow.
  exists (fst (Rfm.customerSegment random data customer index (step * index))),
         (fst (Rfm.amountOf random data customer (step * index))).
  split; [exact Hrow|].
  destruct (customerSegment_monetary random data customer index (step * index))
    as [Hmon Hscore].
  split; [exact Hmon|]. split; [exact Hscore|].
  unfold Rfm.amountOf, primaryAmount, step.
  destruct (amountFields data) as [|f fs]; simpl fst.
  - reflexivity.
  - split; [reflexivity|]. apply num_or_zero_eq.
Qed.

Lemma rfm_monetary_input_witness :
  nth_error namesOnly 0 = Some [("name", "bob")] /\
  exists enriched amount,
    nth_error (Rfm.customerSegments halves namesOnly) 0 = Some enriched /\
    get enriched "monetary" = Some (VNumber amount).
Proof.
  split; [reflexivity|].
  destruct (rfm_monetary_input halves namesOnly 0 [("name", "bob")] eq_refl)
    as (enriched & amount & Hnth & Hmon & _).
  exists enriched, amount. split; [exact Hnth | exact Hmon].
Defined.

(** ** The monthly trend *)

Lemma monthGroups_drop_unparseable newDate (data : list Customer) (dateField : string)
      (rows : list Customer) :
  forall acc,
    fold_left (KMeans.monthGroupStep newDate data dateField) rows acc
    = fold_left (KMeans.monthGroupStep newDate data dateField)
        (filter (fun row => match newDate (get row dateField) with
                            | Some _ => true
                            | None => false
                            end)
                rows)
        acc.
Proof.
  induction rows as [|row rows IH]; intros acc; simpl; auto.
  destruct (newDate (get row dateField)) as [date|] eqn:E; simpl.
  - apply IH.
  - rewrite <- IH. f_equal. unfold KMeans.monthGroupStep. now rewrite E.
Qed.

Lemma monthGroups_none_parseable newDate (data : list Customer) (dateField : string) :
  (forall row, In row data -> newDate (get row dateField) = None) ->
  KMeans.monthGroups newDate data dateField = [].
Proof.
  intros Hnone. unfold KMeans.monthGroups.
  rewrite monthGroups_drop_unparseable.
  assert (Hfilter : filter (fun row => match newDate (get row dateField) with
                                       | Some _ => true
                                       | None => false
                                       end) data = []).
  { induction data as [|row rows IH]; simpl; auto.
    rewrite (Hnone row) by now left.
    apply IH. intros r Hr. apply Hnone. now right. }
  rewrite Hfilter. reflexivity.
Qed.

Lemma length_fallbackMonthlyData random (data : list Customer) :
  List.length (KMeans.fallbackMonthlyData random data) = 12%nat.
Proof. unfold KMeans.fallbackMonthlyData. rewrite length_mapi. reflexivity. Qed.

Lemma monthlyData_without_date_field newDate random localeCompare monthLabel
      (data : list Customer) :
  dateFields data = [] ->
  KMeans.monthlyData newDate random localeCompare monthLabel data
  = KMeans.fallbackMonthlyData random data.
Proof. intros H. unfold KMeans.monthlyData. now rewrite H. Qed.

(** C7. Where the table has a date-like column and the date of no
    record parses, every record is dropped from the grouping and the
    trend that comes out is empty; the twelve-month fallback is not
    taken. *)
Theorem unparseable_dates_give_empty_trend :
  forall newDate random localeCompare monthLabel
         (data : list Customer) (dateField : string) (rest : list string),
    dateFields data = dateField :: rest ->
    (forall row, In row data -> newDate (get row dateField) = None) ->
    KMeans.monthGroups newDate data dateField = [] /\
    KMeans.monthlyData newDate random localeCompare monthLabel data = [] /\
    List.length (KMeans.fallbackMonthlyData random data) = 12%nat.
Proof.
  intros newDate random localeCompare monthLabel data dateField rest Hdate Hnone.
  pose proof (monthGroups_none_parseable newDate data dateField Hnone) as Hgroups.
  split; [exact Hgroups|]. split.
  - unfold KMeans.monthlyData. rewrite Hdate, Hgroups. reflexivity.
  - apply length_fallbackMonthlyData.
Qed.

Lemma unparseable_dates_give_empty_trend_witness :
  dateFields undated = ["signup_date"] /\
  (forall row, In row undated -> neverValid (get row "signup_date") = None) /\
  KMeans.monthlyData neverValid halves String.compare (fun key => key) undated = [].
Proof.
  assert (Hdate : dateFields undated = ["signup_date"]) by reflexivity.
  assert (Hnone : forall row, In row undated -> neverValid (get row "signup_date") = None)
    by reflexivity.
  split; [exact Hdate|]. split; [exact Hnone|].
  exact (proj1 (proj2 (unparseable_dates_give_empty_trend neverValid halves String.compare
                         (fun key => key) undated "signup_date" [] Hdate Hnone))).
Defined.

(** C9. For a table of one record without a date-like column the
    fallback hands out the counts 1, 0, -1, ..., -10: the number of
    records left over is not kept from going below zero, and the counts
    add up to -54 and not to the one record. *)
Theorem fallback_counts_go_negative :
  forall newDate random localeCompare monthLabel,
    map KMeans.customers
        (KMeans.monthlyData newDate random localeCompare monthLabel namesOnly)
    = map number_of_Z [1; 0; -1; -2; -3; -4; -5; -6; -7; -8; -9; -10].
Proof.
  intros newDate random localeCompare monthLabel.
  rewrite monthlyData_without_date_field by reflexivity.
  unfold KMeans.fallbackMonthlyData, mapi.
  rewrite map_mapi_from.
  cbn [KMeans.customers].
  rewrite (mapi_from_index_only
             (fun i => Math_min
                         (Math_ceil (num_div (number_of_nat (List.length namesOnly)) (number_of_Z 12)))
                         (num_sub (number_of_nat (List.length namesOnly))
                                  (num_mul (number_of_nat i)
                                           (Math_ceil (num_div (number_of_nat (List.length namesOnly))
                                                               (number_of_Z 12))))))).
  vm_compute. reflexivity.
Qed.

(** ** The normalizer *)

Lemma normalizeData_no_rows : normalizeData [] = [].
Proof. reflexivity. Qed.

Lemma normalizeData_no_columns (rows : list (list number)) :
  normalizeData ([] :: rows) = [] :: rows.
Proof. reflexivity. Qed.

Lemma normalizeData_shape (data : list (list number)) :
  map (@List.length number) (normalizeData data) = map (@List.length number) data.
Proof.
  destruct data as [|[|x row0] rows]; try reflexivity.
  unfold normalizeData. rewrite map_map.
  apply map_ext. intros row. apply length_mapi.
Qed.

Lemma cell_mapi_from {A : Type} (h : nat -> number -> number) (l : list number) :
  forall start j,
    (j < List.length l)%nat ->
    cell (mapi_from h start l) j = h (start + j)%nat (cell l j).
Proof.
  induction l as [|x l IH]; intros start j Hj; simpl in Hj; [lia|].
  destruct j as [|j]; simpl.
  - now rewrite Nat.add_0_r.
  - unfold cell in *. simpl. rewrite IH by lia. f_equal. lia.
Qed.

Lemma cell_mapi (h : nat -> number -> number) (l : list number) (j : nat) :
  (j < List.length l)%nat -> cell (mapi h l) j = h j (cell l j).
Proof. intros Hj. unfold mapi. now rewrite (@cell_mapi_from unit). Qed.

Lemma cell_map (h : number -> number) (l : list number) (j : nat) :
  (j < List.length l)%nat -> cell (map h l) j = h (cell l j).
Proof.
  revert j. induction l as [|x l IH]; intros j Hj; simpl in Hj; [lia|].
  destruct j as [|j]; simpl; auto. unfold cell in *. simpl. apply IH. lia.
Qed.

Lemma cell_repeat (x : number) (m j : nat) :
  (j < m)%nat -> cell (repeat x m) j = x.
Proof.
  revert j. induction m as [|m IH]; intros j Hj; [lia|].
  destruct j as [|j]; simpl; auto. unfold cell in *. simpl. apply IH. lia.
Qed.

(** The accumulation loop over the rows, read one column at a time. *)
Lemma column_accumulation (g : nat -> number -> list number -> number)
      (data : list (list number)) :
  forall (init : list number) (j : nat),
    (j < List.length init)%nat ->
    let acc := fold_left (fun acc row => mapi (fun j a => g j a row) acc) data init in
    List.length acc = List.length init /\
    cell acc j = fold_left (fun a row => g j a row) data (cell init j).
Proof.
  induction data as [|row data IH]; intros init j Hj; cbv zeta; simpl.
  - split; reflexivity.
  - destruct (IH (mapi (fun j a => g j a row) init) j) as [Hlen Hcell].
    { now rewrite length_mapi. }
    cbv zeta in Hlen, Hcell.
    rewrite Hlen, Hcell, length_mapi, cell_mapi by exact Hj.
    split; reflexivity.
Qed.

(** On a matrix with at least one column, each cell of the output is the
    z-score of the input cell: the value minus the mean of its column,
    over the divisor of its column. *)
Lemma normalizeData_zscore (data : list (list number)) (x0 : number) (row0 : list number)
      (rows : list (list number)) (i j : nat) (row : list number) :
  data = (x0 :: row0) :: rows ->
  nth_error data i = Some row ->
  (j < List.length row)%nat ->
  (j < List.length (x0 :: row0))%nat ->
  cell (nth i (normalizeData data) []) j
  = num_div (num_sub (cell row j) (columnMean data j)) (divisor data j).
Proof.
  intros Hdata Hrow Hj Hj0.
  unfold normalizeData. rewrite Hdata. rewrite <- Hdata.
  set (m := List.length (x0 :: row0)) in *.
  set (n := number_of_nat (List.length data)).
  destruct (column_accumulation (fun j a row => num_add a (cell row j)) data
              (repeat zero m) j) as [Hlen1 Hsum].
  { now rewrite repeat_length. }
  cbv zeta in Hlen1, Hsum. rewrite repeat_length in Hlen1.
  rewrite cell_repeat in Hsum by exact Hj0.
  set (sums := fold_left (fun means row => mapi (fun j a => num_add a (cell row j)) means)
                         data (repeat zero m)) in *.
  set (means := map (fun a => num_div a n) sums).
  assert (Hmean : cell means j = columnMean data j).
  { unfold means. rewrite cell_map by lia. rewrite Hsum. reflexivity. }
  destruct (column_accumulation
              (fun j a row => num_add a (Math_pow2 (num_sub (cell row j) (cell means j))))
              data (repeat zero m) j) as [Hlen2 Hsq].
  { now rewrite repeat_length. }
  cbv zeta in Hlen2, Hsq. rewrite repeat_length in Hlen2.
  rewrite cell_repeat in Hsq by exact Hj0.
  set (squares := fold_left
                    (fun stds row =>
                       mapi (fun j a => num_add a (Math_pow2 (num_sub (cell row j) (cell means j))))
                            stds)
                    data (repeat zero m)) in *.
  rewrite Hmean in Hsq.
  set (stds := map (fun a => let sd := Math_sqrt (num_div a n) in
                             if num_eq sd zero then number_of_Z 1 else sd) squares).
  assert (Hstd : cell stds j = divisor data j).
  { unfold stds. rewrite cell_map by lia. rewrite Hsq. reflexivity. }
  rewrite (nth_error_nth _ _ _ (map_nth_error _ _ _ Hrow)).
  rewrite cell_mapi by exact Hj.
  now rewrite Hmean, Hstd.
Qed.

(** A constant column whose mean is computed without rounding does come
    out as zeros. *)
Example constant_integer_column :
  normalizeData [[number_of_Z 5; number_of_Z 1]; [number_of_Z 5; number_of_Z 3]]
  = [[zero; number_of_Z (-1)]; [zero; number_of_Z 1]].
Proof. vm_compute. reflexivity. Qed.

(** C8. A column that holds 0.1 in each of three records does not come
    out as zeros: the mean computed for it is 0.10000000000000002, each
    value lies one rounding step below it, the standard deviation is that
    step and not 0, and every normalized value is -1. *)
Theorem constant_column_normalized_to_minus_one :
  normalizeData tenths
  = [[number_of_Z (-1)]; [number_of_Z (-1)]; [number_of_Z (-1)]].
Proof. vm_compute. reflexivity. Qed.

(** ** Binary64 rounding

    What rounding to nearest does to a quotient and to a product, in
    the range the percentages live in. *)

Lemma digits2_log2 (p : positive) : Zpos (digits2_pos p) = Z.log2 (Zpos p) + 1.
Proof.
  assert (H : forall q, digits2_pos q = Pos.size q) by (induction q; simpl; congruence).
  destruct p; simpl; rewrite ?H; lia.
Qed.

Lemma digits2_bounds (p : positive) :
  2 ^ (Zpos (digits2_pos p) - 1) <= Zpos p < 2 ^ Zpos (digits2_pos p).
Proof.
  rewrite digits2_log2.
  replace (Z.log2 (Zpos p) + 1 - 1) with (Z.log2 (Zpos p)) by lia.
  replace (Z.log2 (Zpos p) + 1) with (Z.succ (Z.log2 (Zpos p))) by lia.
  apply Z.log2_spec. lia.
Qed.

Lemma digits2_unique (p : positive) (d : Z) :
  2 ^ (d - 1) <= Zpos p < 2 ^ d -> Zpos (digits2_pos p) = d.
Proof.
  intros H. rewrite digits2_log2.
  assert (0 < d).
  { destruct (Z.lt_trichotomy d 0) as [Hd|[Hd|Hd]]; auto.
    - rewrite (Z.pow_neg_r 2 d) in H by lia. lia.
    - subst. simpl in H. lia. }
  rewrite (Z.log2_unique (Zpos p) (d - 1)); try lia.
  replace (Z.succ (d - 1)) with d by lia. exact H.
Qed.

Lemma shr_1_m (mrs : shr_record) :
  0 <= shr_m mrs -> shr_m (shr_1 mrs) = shr_m mrs / 2 /\ 0 <= shr_m (shr_1 mrs).
Proof.
  destruct mrs as [m r s]. simpl. intros Hm.
  destruct m as [|p|p]; try lia.
  - simpl. split; [reflexivity|lia].
  - destruct p; simpl.
    + rewrite Pos2Z.inj_xI. split; [|lia].
      apply (Z.div_unique _ _ _ 1); lia.
    + rewrite Pos2Z.inj_xO. split; [|lia].
      apply (Z.div_unique _ _ _ 0); lia.
    + split; [reflexivity|lia].
Qed.

Lemma iter_pos_shr_1 (p : positive) :
  forall mrs, 0 <= shr_m mrs ->
    shr_m (iter_pos shr_1 p mrs) = shr_m mrs / 2 ^ Zpos p /\
    0 <= shr_m (iter_pos shr_1 p mrs).
Proof.
  induction p as [p IH|p IH|]; intros mrs Hm; cbn [iter_pos].
  - destruct (shr_1_m mrs Hm) as [E1 H1].
    destruct (IH _ H1) as [E2 H2].
    destruct (IH _ H2) as [E3 H3].
    split; [|exact H3].
    assert (Hp : 0 < 2 ^ Zpos p) by (apply Z.pow_pos_nonneg; lia).
    rewrite E3, E2, E1.
    rewrite !Z.div_div by lia.
    f_equal.
    replace (Zpos p~1) with (1 + Zpos p + Zpos p) by lia.
    rewrite !Z.pow_add_r by lia. change (2 ^ 1) with 2. lia.
  - destruct (IH _ Hm) as [E2 H2].
    destruct (IH _ H2) as [E3 H3].
    split; [|exact H3].
    assert (Hp : 0 < 2 ^ Zpos p) by (apply Z.pow_pos_nonneg; lia).
    rewrite E3, E2.
    rewrite !Z.div_div by lia.
    f_equal.
    replace (Zpos p~0) with (Zpos p + Zpos p) by lia.
    rewrite Z.pow_add_r by lia. lia.
  - destruct (shr_1_m mrs Hm) as [E1 H1]. split; [|exact H1].
    rewrite E1. reflexivity.
Qed.

Lemma shr_record_of_loc_m m l : shr_m (shr_record_of_loc m l) = m.
Proof. destruct l as [|[]]; reflexivity. Qed.

(** Shifting a mantissa to its canonical exponent divides it by a power
    of two. *)
Lemma shr_fexp_m (m e : Z) (l : location) :
  0 <= m ->
  let k := Z.max 0 (fexp 53 1024 (Zdigits2 m + e) - e) in
  shr_m (fst (shr_fexp 53 1024 m e l)) = m / 2 ^ k /\
  snd (shr_fexp 53 1024 m e l) = e + k.
Proof.
  intros Hm k. unfold shr_fexp, shr. subst k.
  destruct (fexp 53 1024 (Zdigits2 m + e) - e) as [|p|p] eqn:E; simpl fst; simpl snd.
  - rewrite shr_record_of_loc_m. simpl. rewrite Z.div_1_r. split; lia.
  - rewrite Z.max_r by lia.
    destruct (iter_pos_shr_1 p (shr_record_of_loc m l)) as [E1 _].
    { now rewrite shr_record_of_loc_m. }
    rewrite E1, shr_record_of_loc_m. split; lia.
  - rewrite Z.max_l by lia. rewrite shr_record_of_loc_m. simpl.
    rewrite Z.div_1_r. split; lia.
Qed.

Lemma round_nearest_even_cases (m : Z) (l : location) :
  round_nearest_even m l = m \/ round_nearest_even m l = m + 1.
Proof.
  destruct l as [|[]]; simpl; auto.
  destruct (Z.even m); auto.
Qed.

Lemma fexp_normal (e : Z) : -1021 <= e -> fexp 53 1024 e = e - 53.
Proof. intros H. unfold fexp, emin. lia. Qed.

(** Rounding a mantissa of at least 53 digits whose value lies in the
    normal range: the result has a mantissa of 53 digits and is off by
    at most one unit of the last digit kept. *)
Lemma binary_round_aux_normal (s : bool) (mx : positive) (ex : Z) (l : location) :
  let d := Zpos (digits2_pos mx) in
  53 <= d -> -1021 <= d + ex -> d + ex <= 1023 ->
  exists (m : positive) (e : Z),
    binary_round_aux 53 1024 s (Zpos mx) ex l = S754_finite s m e /\
    Zpos (digits2_pos m) = 53 /\
    ex + d - 53 <= e <= ex + d - 52 /\
    Z.abs (Zpos m * 2 ^ (e - ex) - Zpos mx) <= 2 ^ (d - 53).
Proof.
  intros d Hd Hlo Hhi.
  pose proof (digits2_bounds mx) as Hmx. fold d in Hmx.
  unfold binary_round_aux.
  destruct (shr_fexp_m (Zpos mx) ex l) as [Hm1 He1]; [lia|].
  destruct (shr_fexp 53 1024 (Zpos mx) ex l) as [mrs1 e1].
  cbn [fst snd] in Hm1, He1.
  change (Zdigits2 (Zpos mx)) with d in Hm1, He1.
  rewrite fexp_normal in Hm1, He1 by lia.
  replace (Z.max 0 (d + ex - 53 - ex)) with (d - 53) in Hm1, He1 by lia.
  set (m1 := shr_m mrs1) in *.
  assert (Hm1b : 2 ^ 52 <= m1 < 2 ^ 53).
  { rewrite Hm1.
    assert (Hp : 2 ^ (d - 1) = 2 ^ 52 * 2 ^ (d - 53)).
    { rewrite <- Z.pow_add_r by lia. f_equal. lia. }
    assert (Hq : 2 ^ d = 2 ^ 53 * 2 ^ (d - 53)).
    { rewrite <- Z.pow_add_r by lia. f_equal. lia. }
    assert (0 < 2 ^ (d - 53)) by (apply Z.pow_pos_nonneg; lia).
    split.
    - apply Z.div_le_lower_bound; lia.
    - apply Z.div_lt_upper_bound; lia. }
  assert (Hdecomp : 0 <= Zpos mx - m1 * 2 ^ (d - 53) < 2 ^ (d - 53)).
  { assert (0 < 2 ^ (d - 53)) by (apply Z.pow_pos_nonneg; lia).
    pose proof (Z.div_mod (Zpos mx) (2 ^ (d - 53))).
    pose proof (Z.mod_pos_bound (Zpos mx) (2 ^ (d - 53))).
    rewrite Hm1. lia. }
  set (m2 := round_nearest_even m1 (loc_of_shr_record mrs1)).
  assert (Hm2 : m2 = m1 \/ m2 = m1 + 1) by apply round_nearest_even_cases.
  destruct (shr_fexp_m m2 e1 loc_Exact) as [Hm3 He3]; [lia|].
  destruct (shr_fexp 53 1024 m2 e1 loc_Exact) as [mrs3 e3].
  cbn [fst snd] in Hm3, He3.
  destruct (Z.eq_dec m2 (2 ^ 53)) as [Htop|Htop].
  - (* the mantissa was rounded up to 2^53 *)
    assert (Hdig : Zdigits2 m2 = 54).
    { rewrite Htop. reflexivity. }
    rewrite Hdig in Hm3, He3.
    rewrite fexp_normal in Hm3, He3 by lia.
    replace (Z.max 0 (54 + e1 - 53 - e1)) with 1 in Hm3, He3 by lia.
    rewrite Htop in Hm3. change (2 ^ 53 / 2 ^ 1) with (2 ^ 52) in Hm3.
    rewrite Hm3. change (2 ^ 52) with (Zpos (Z.to_pos (2 ^ 52))).
    assert (Hle : Z.leb e3 (1024 - 53) = true) by (apply Z.leb_le; lia).
    rewrite Hle.
    eexists _, e3. split; [reflexivity|].
    split; [reflexivity|]. split; [lia|].
    replace (e3 - ex) with (1 + (d - 53)) by lia.
    rewrite Z.pow_add_r by lia.
    assert (0 < 2 ^ (d - 53)) by (apply Z.pow_pos_nonneg; lia).
    change (2 ^ 1) with 2.
    change (Zpos (Z.to_pos (2 ^ 52))) with 4503599627370496.
    change (2 ^ 53) with 9007199254740992 in *.
    destruct Hm2 as [E | E]; rewrite E in *; lia.
  - assert (Hm2b : 2 ^ 52 <= m2 < 2 ^ 53) by lia.
    destruct m2 as [|p2|p2] eqn:Ep2; try lia.
    assert (Hdig : Zdigits2 (Zpos p2) = 53).
    { simpl. apply digits2_unique. exact Hm2b. }
    rewrite Hdig in Hm3, He3.
    rewrite fexp_normal in Hm3, He3 by lia.
    replace (Z.max 0 (53 + e1 - 53 - e1)) with 0 in Hm3, He3 by lia.
    change (2 ^ 0) with 1 in Hm3. rewrite Z.div_1_r in Hm3.
    rewrite Hm3.
    assert (Hle : Z.leb e3 (1024 - 53) = true) by (apply Z.leb_le; lia).
    rewrite Hle.
    exists p2, e3. split; [reflexivity|].
    split; [exact Hdig|]. split; [lia|].
    replace (e3 - ex) with (d - 53) by lia.
    assert (0 < 2 ^ (d - 53)) by (apply Z.pow_pos_nonneg; lia).
    destruct Hm2 as [E | E]; rewrite E; nia.
Qed.

Lemma binary_round_aux_exact (s : bool) (mx : positive) (ex : Z) :
  Zpos (digits2_pos mx) = 53 -> -1074 <= ex <= 971 ->
  binary_round_aux 53 1024 s (Zpos mx) ex loc_Exact = S754_finite s mx ex.
Proof.
  intros Hd He.
  assert (Hk : fexp 53 1024 (Zdigits2 (Zpos mx) + ex) - ex = 0).
  { change (Zdigits2 (Zpos mx)) with (Zpos (digits2_pos mx)). rewrite Hd.
    unfold fexp, emin. lia. }
  unfold binary_round_aux, shr_fexp.
  rewrite Hk. cbn [shr shr_record_of_loc shr_m loc_of_shr_record round_nearest_even].
  rewrite Hk. cbn [shr shr_record_of_loc shr_m].
  assert (Hle : Z.leb ex (1024 - 53) = true) by (apply Z.leb_le; lia).
  now rewrite Hle.
Qed.

Lemma iter_xO (n p : positive) : Zpos (Pos.iter xO p n) = Zpos p * 2 ^ Zpos n.
Proof.
  induction n as [|n IH] using Pos.peano_ind.
  - simpl. lia.
  - rewrite Pos.iter_succ, Pos2Z.inj_xO, IH, Pos2Z.inj_succ.
    rewrite Z.pow_succ_r by lia. lia.
Qed.

(** The number of an integer below 2^53 holds it exactly, with a mantissa
    of 53 digits. *)
Lemma binary_normalize_integer (z : Z) (s : bool) :
  0 < z < 2 ^ 53 ->
  exists (m : positive) (sh : Z),
    binary_normalize 53 1024 z 0 s = S754_finite false m (- sh) /\
    Zpos (digits2_pos m) = 53 /\
    0 <= sh <= 52 /\
    Zpos m = z * 2 ^ sh.
Proof.
  intros Hz. destruct z as [|p|p]; try lia.
  pose proof (digits2_bounds p) as Hp.
  set (d := Zpos (digits2_pos p)) in *.
  assert (Hd : 1 <= d <= 53).
  { split; [unfold d; lia|].
    destruct (Z.le_gt_cases d 53) as [|Hgt]; auto.
    assert (2 ^ 53 <= 2 ^ (d - 1)) by (apply Z.pow_le_mono_r; lia). lia. }
  unfold binary_normalize, binary_round, shl_align.
  fold d. rewrite fexp_normal by lia.
  destruct (d + 0 - 53 - 0) as [|k|k] eqn:Ek; try lia.
  - exists p, 0. rewrite binary_round_aux_exact by (fold d; lia).
    split; [reflexivity|]. split; [fold d; lia|]. split; [lia|]. lia.
  - assert (Hm : Zpos (Pos.iter xO p k) = Zpos p * 2 ^ (53 - d)).
    { rewrite iter_xO. f_equal. f_equal. lia. }
    assert (Hdig : Zpos (digits2_pos (Pos.iter xO p k)) = 53).
    { apply digits2_unique. rewrite Hm.
      assert (E1 : 2 ^ (53 - 1) = 2 ^ (d - 1) * 2 ^ (53 - d)).
      { rewrite <- Z.pow_add_r by lia. f_equal. lia. }
      assert (E2 : 2 ^ 53 = 2 ^ d * 2 ^ (53 - d)).
      { rewrite <- Z.pow_add_r by lia. f_equal. lia. }
      assert (0 < 2 ^ (53 - d)) by (apply Z.pow_pos_nonneg; lia).
      rewrite E1, E2. nia. }
    exists (Pos.iter xO p k), (53 - d).
    rewrite binary_round_aux_exact by (auto; lia).
    split; [f_equal; lia|]. split; [exact Hdig|]. split; [lia|exact Hm].
Qed.

(** Division of two positive numbers with 53-digit mantissas, away from
    overflow and underflow. *)
Lemma SFdiv_normal (mx my : positive) (ex ey : Z) :
  Zpos (digits2_pos mx) = 53 -> Zpos (digits2_pos my) = 53 ->
  -900 <= ex - ey <= 900 ->
  exists (m : positive) (e : Z),
    SFdiv 53 1024 (S754_finite false mx ex) (S754_finite false my ey) = S754_finite false m e /\
    Zpos (digits2_pos m) = 53 /\
    ex - ey - 53 <= e <= ex - ey - 51 /\
    Z.abs (Zpos m * 2 ^ (e - (ex - ey - 53)) * Zpos my - Zpos mx * 2 ^ 53) <= 3 * Zpos my.
Proof.
  intros Hdx Hdy Hrange.
  pose proof (digits2_bounds mx) as Hmx. rewrite Hdx in Hmx.
  pose proof (digits2_bounds my) as Hmy. rewrite Hdy in Hmy.
  change (2 ^ (53 - 1)) with (2 ^ 52) in *.
  unfold SFdiv, SFdiv_core_binary.
  change (Zdigits2 (Zpos mx)) with (Zpos (digits2_pos mx)).
  change (Zdigits2 (Zpos my)) with (Zpos (digits2_pos my)).
  rewrite Hdx, Hdy.
  rewrite fexp_normal by lia.
  replace (Z.min (53 + ex - (53 + ey) - 53) (ex - ey)) with (ex - ey - 53) by lia.
  replace (ex - ey - (ex - ey - 53)) with 53 by lia.
  cbv iota.
  rewrite Z.shiftl_mul_pow2 by lia.
  pose proof (Z.div_mod (Zpos mx * 2 ^ 53) (Zpos my)) as Hdm.
  pose proof (Z.mod_pos_bound (Zpos mx * 2 ^ 53) (Zpos my)) as Hmod.
  unfold Z.div, Z.modulo in Hdm, Hmod.
  destruct (Z.div_eucl (Zpos mx * 2 ^ 53) (Zpos my)) as [q r].
  specialize (Hdm ltac:(lia)). specialize (Hmod ltac:(lia)).
  change (2 ^ 53) with 9007199254740992 in *.
  change (2 ^ 52) with 4503599627370496 in *.
  assert (Hq : 4503599627370496 <= q < 4 * 4503599627370496) by nia.
  destruct q as [|pq|pq]; try lia.
  pose proof (digits2_bounds pq) as Hpq.
  set (dq := Zpos (digits2_pos pq)) in *.
  assert (Hdq : 53 <= dq <= 54).
  { split.
    - destruct (Z.le_gt_cases 53 dq) as [|Hlt]; auto.
      assert (2 ^ dq <= 2 ^ 52) by (apply Z.pow_le_mono_r; lia).
      change (2 ^ 52) with 4503599627370496 in *. lia.
    - destruct (Z.le_gt_cases dq 54) as [|Hgt]; auto.
      assert (2 ^ 54 <= 2 ^ (dq - 1)) by (apply Z.pow_le_mono_r; lia).
      change (2 ^ 54) with (4 * 4503599627370496) in *. lia. }
  destruct (binary_round_aux_normal (xorb false false) pq (ex - ey - 53)
              (new_location (Zpos my) r))
    as (m & e & Hres & Hdig & He & Herr); fold dq; try lia.
  fold dq in He, Herr.
  exists m, e. split; [exact Hres|]. split; [exact Hdig|]. split; [lia|].
  assert (Hpow : 2 ^ (dq - 53) <= 2).
  { change 2 with (2 ^ 1) at 2. apply Z.pow_le_mono_r; lia. }
  set (M := Zpos m * 2 ^ (e - (ex - ey - 53))) in *.
  nia.
Qed.

(** Multiplication of two positive numbers with 53-digit mantissas, away
    from overflow and underflow. *)
Lemma SFmul_normal (mx my : positive) (ex ey : Z) :
  Zpos (digits2_pos mx) = 53 -> Zpos (digits2_pos my) = 53 ->
  -900 <= ex + ey <= 800 ->
  exists (m : positive) (e : Z),
    SFmul 53 1024 (S754_finite false mx ex) (S754_finite false my ey) = S754_finite false m e /\
    Zpos (digits2_pos m) = 53 /\
    ex + ey + 52 <= e <= ex + ey + 54 /\
    Z.abs (Zpos m * 2 ^ (e - (ex + ey)) - Zpos mx * Zpos my) <= 2 ^ 53.
Proof.
  intros Hdx Hdy Hrange.
  pose proof (digits2_bounds mx) as Hmx. rewrite Hdx in Hmx.
  pose proof (digits2_bounds my) as Hmy. rewrite Hdy in Hmy.
  change (2 ^ (53 - 1)) with 4503599627370496 in *.
  change (2 ^ 53) with 9007199254740992 in *.
  unfold SFmul.
  pose proof (digits2_bounds (mx * my)) as Hp.
  set (d := Zpos (digits2_pos (mx * my))) in *.
  rewrite Pos2Z.inj_mul in Hp.
  assert (Hd : 105 <= d <= 106).
  { split.
    - destruct (Z.le_gt_cases 105 d) as [|Hlt]; auto.
      assert (2 ^ d <= 2 ^ 104) by (apply Z.pow_le_mono_r; lia).
      change (2 ^ 104) with (4503599627370496 * 4503599627370496) in *. nia.
    - destruct (Z.le_gt_cases d 106) as [|Hgt]; auto.
      assert (2 ^ 106 <= 2 ^ (d - 1)) by (apply Z.pow_le_mono_r; lia).
      change (2 ^ 106) with (9007199254740992 * 9007199254740992) in *. nia. }
  destruct (binary_round_aux_normal (xorb false false) (mx * my) (ex + ey) loc_Exact)
    as (m & e & Hres & Hdig & He & Herr); fold d; try lia.
  fold d in He, Herr.
  exists m, e. split; [exact Hres|]. split; [exact Hdig|]. split; [lia|].
  rewrite Pos2Z.inj_mul in Herr.
  assert (Hpow : 2 ^ (d - 53) <= 9007199254740992).
  { change 9007199254740992 with (2 ^ 53). apply Z.pow_le_mono_r; lia. }
  lia.
Qed.


Lemma pow2_pos (e : Z) : (0 < (2 # 1) ^ e)%Q.
Proof. apply Qpower_0_lt. reflexivity. Qed.

Lemma pow2_add (a b : Z) : ((2 # 1) ^ (a + b) == (2 # 1) ^ a * (2 # 1) ^ b)%Q.
Proof. apply Qpower_plus. discriminate. Qed.

Lemma pow2_inject (k : Z) : 0 <= k -> (inject_Z (2 ^ k) == (2 # 1) ^ k)%Q.
Proof. intros Hk. now rewrite Zpower_Qpower. Qed.

(** A mantissa scaled up by a power of two, with the exponent lowered to
    match, keeps its value. *)
Lemma val_rescale (m : positive) (e e0 : Z) :
  e0 <= e ->
  (inject_Z (Zpos m) * (2 # 1) ^ e == inject_Z (Zpos m * 2 ^ (e - e0)) * (2 # 1) ^ e0)%Q.
Proof.
  intros He.
  rewrite inject_Z_mult, pow2_inject by lia.
  replace e with ((e - e0) + e0) at 1 by lia.
  rewrite pow2_add. ring.
Qed.

Lemma val_integer (z : Z) (m : positive) (sh : Z) :
  0 <= sh -> Zpos m = z * 2 ^ sh ->
  (inject_Z z == inject_Z (Zpos m) * (2 # 1) ^ (- sh))%Q.
Proof.
  intros Hsh Hm. rewrite Hm, inject_Z_mult, pow2_inject by lia.
  rewrite <- Qmult_assoc, <- pow2_add.
  replace (sh + - sh) with 0 by lia. simpl. ring.
Qed.

Lemma div_error (v n : Z) :
  0 < v < 2 ^ 53 -> 0 < n < 2 ^ 53 ->
  exists (m : positive) (e : Z),
    SFdiv 53 1024 (binary_normalize 53 1024 v 0 false) (binary_normalize 53 1024 n 0 false)
    = S754_finite false m e /\
    Zpos (digits2_pos m) = 53 /\
    -160 <= e <= 10 /\
    let X := (inject_Z (Zpos m) * (2 # 1) ^ e)%Q in
    (- eps_div * inject_Z v <= X * inject_Z n - inject_Z v <= eps_div * inject_Z v)%Q.
Proof.
  intros Hv Hn.
  destruct (binary_normalize_integer v false Hv) as (mx & sa & -> & Hdx & Hsa & Hmx).
  destruct (binary_normalize_integer n false Hn) as (my & sb & -> & Hdy & Hsb & Hmy).
  destruct (SFdiv_normal mx my (- sa) (- sb) Hdx Hdy) as (m & e & Hres & Hdig & He & Herr);
    [lia|].
  exists m, e. split; [exact Hres|]. split; [exact Hdig|]. split; [lia|].
  cbv zeta.
  set (e0 := - sa - - sb - 53) in *.
  set (M := Zpos m * 2 ^ (e - e0)) in *.
  set (D := M * Zpos my - Zpos mx * 2 ^ 53) in *.
  pose proof (digits2_bounds mx) as Bx. rewrite Hdx in Bx.
  pose proof (digits2_bounds my) as By. rewrite Hdy in By.
  change (2 ^ (53 - 1)) with 4503599627370496 in *.
  change (2 ^ 53) with 9007199254740992 in *.
  assert (HD : - (6 * Zpos mx) <= D <= 6 * Zpos mx) by lia.
  set (c := ((2 # 1) ^ (- sa - 53))%Q).
  assert (Hc : (0 < c)%Q) by apply pow2_pos.
  assert (HX : (inject_Z (Zpos m) * (2 # 1) ^ e == inject_Z M * (2 # 1) ^ e0)%Q).
  { apply val_rescale. lia. }
  assert (Hvq : (inject_Z v == inject_Z (Zpos mx) * (inject_Z 9007199254740992 * c))%Q).
  { rewrite (val_integer v mx sa) by lia.
    unfold c. change 9007199254740992 with (2 ^ 53).
    rewrite pow2_inject by lia. rewrite <- pow2_add.
    replace (53 + (- sa - 53)) with (- sa) by lia. reflexivity. }
  assert (Hnq : (inject_Z n == inject_Z (Zpos my) * (2 # 1) ^ (- sb))%Q).
  { apply val_integer; lia. }
  assert (Hdiff : (inject_Z (Zpos m) * (2 # 1) ^ e * inject_Z n - inject_Z v
                   == c * inject_Z D)%Q).
  { rewrite HX, Hvq, Hnq. unfold D.
    unfold Z.sub. rewrite inject_Z_plus, inject_Z_opp, !inject_Z_mult.
    assert (Hc' : ((2 # 1) ^ e0 * (2 # 1) ^ (- sb) == c)%Q).
    { rewrite <- pow2_add. unfold c, e0. f_equiv. lia. }
    rewrite <- Hc'. ring. }
  rewrite Hdiff, Hvq.
  assert (HDq : (- (6 * inject_Z (Zpos mx)) <= inject_Z D <= 6 * inject_Z (Zpos mx))%Q).
  { split.
    - change 6%Q with (inject_Z 6). rewrite <- inject_Z_mult, <- inject_Z_opp.
      rewrite <- Zle_Qle. lia.
    - change 6%Q with (inject_Z 6). rewrite <- inject_Z_mult.
      rewrite <- Zle_Qle. lia. }
  unfold eps_div.
  set (a := inject_Z (Zpos mx)) in *. set (d := inject_Z D) in *.
  change (inject_Z 9007199254740992) with (9007199254740992 # 1).
  destruct HDq as [HD1 HD2].
  split.
  - assert (H1 : (c * - (6 * a) <= c * d)%Q) by (apply Qmult_le_l; assumption).
    lra.
  - assert (H1 : (c * d <= c * (6 * a))%Q) by (apply Qmult_le_l; assumption).
    lra.
Qed.

Lemma mul100_error (m : positive) (e : Z) :
  Zpos (digits2_pos m) = 53 -> -200 <= e <= 100 ->
  exists (m' : positive) (e' : Z),
    SFmul 53 1024 (S754_finite false m e) (binary_normalize 53 1024 100 0 false)
    = S754_finite false m' e' /\
    let X := (inject_Z (Zpos m) * (2 # 1) ^ e)%Q in
    let Y := (inject_Z (Zpos m') * (2 # 1) ^ e')%Q in
    (- eps_mul * (100 * X) <= Y - 100 * X <= eps_mul * (100 * X))%Q.
Proof.
  intros Hd He.
  change (binary_normalize 53 1024 100 0 false)
    with (S754_finite false 7036874417766400 (-46)).
  destruct (SFmul_normal m 7036874417766400 e (-46) Hd eq_refl)
    as (m' & e' & Hres & _ & He' & Herr); [lia|].
  exists m', e'. split; [exact Hres|]. cbv zeta.
  set (e0 := e + -46) in *.
  set (M := Zpos m' * 2 ^ (e' - e0)) in *.
  set (D := M - Zpos m * 7036874417766400) in *.
  pose proof (digits2_bounds m) as Bm. rewrite Hd in Bm.
  change (2 ^ (53 - 1)) with 4503599627370496 in *.
  change (2 ^ 53) with 9007199254740992 in *.
  assert (HD : - (2 * Zpos m) <= D <= 2 * Zpos m) by lia.
  set (c := ((2 # 1) ^ e0)%Q).
  assert (Hc : (0 < c)%Q) by apply pow2_pos.
  assert (HY : (inject_Z (Zpos m') * (2 # 1) ^ e' == inject_Z M * c)%Q).
  { apply val_rescale. lia. }
  assert (HX : (100 * (inject_Z (Zpos m) * (2 # 1) ^ e)
                == inject_Z (Zpos m) * (7036874417766400 # 1) * c)%Q).
  { unfold c, e0. rewrite pow2_add.
    change ((2 # 1) ^ (-46))%Q with (1 # 70368744177664)%Q. field. }
  assert (Hdiff : (inject_Z (Zpos m') * (2 # 1) ^ e' - 100 * (inject_Z (Zpos m) * (2 # 1) ^ e)
                   == c * inject_Z D)%Q).
  { rewrite HY, HX. unfold D.
    unfold Z.sub. rewrite inject_Z_plus, inject_Z_opp, inject_Z_mult.
    change (inject_Z 7036874417766400) with (7036874417766400 # 1). ring. }
  rewrite Hdiff, HX.
  assert (HDq : (- (2 * inject_Z (Zpos m)) <= inject_Z D <= 2 * inject_Z (Zpos m))%Q).
  { split.
    - change 2%Q with (inject_Z 2). rewrite <- inject_Z_mult, <- inject_Z_opp.
      rewrite <- Zle_Qle. lia.
    - change 2%Q with (inject_Z 2). rewrite <- inject_Z_mult.
      rewrite <- Zle_Qle. lia. }
  assert (Hm0 : (0 <= inject_Z (Zpos m))%Q).
  { change 0%Q with (inject_Z 0). rewrite <- Zle_Qle. lia. }
  unfold eps_mul.
  set (a := inject_Z (Zpos m)) in *. set (d := inject_Z D) in *.
  destruct HDq as [HD1 HD2].
  assert (Hca : (0 <= c * a)%Q) by (apply Qmult_le_0_compat; lra).
  split.
  - assert (H1 : (c * - (2 * a) <= c * d)%Q) by (apply Qmult_le_l; assumption).
    lra.
  - assert (H1 : (c * d <= c * (2 * a))%Q) by (apply Qmult_le_l; assumption).
    lra.
Qed.

Lemma roundZ_bounds (m : positive) (e : Z) :
  let Y := (inject_Z (Zpos m) * (2 # 1) ^ e)%Q in
  let P := inject_Z (roundZ (S754_finite false m e)) in
  (Y - (1 # 2) < P /\ P <= Y + (1 # 2))%Q.
Proof.
  cbv zeta. unfold roundZ, cond_Zopp.
  destruct (Z.lt_trichotomy e 0) as [Hneg|[Hzero|Hpos]].
  - set (G := 2 ^ (- e)).
    assert (HG : 0 < G) by (apply Z.pow_pos_nonneg; lia).
    rewrite (Z.shiftl_mul_pow2 1 (- e)) by lia. fold G.
    replace (e - 1) with (- (1 - e)) by lia.
    rewrite Z.shiftl_opp_r, Z.shiftr_div_pow2 by lia.
    replace (1 - e) with (1 + - e) by lia.
    rewrite Z.pow_add_r by lia. fold G. change (2 ^ 1) with 2.
    set (P := (2 * Zpos m + 1 * G) / (2 * G)).
    pose proof (Z.div_mod (2 * Zpos m + 1 * G) (2 * G) ltac:(lia)) as Hdm.
    pose proof (Z.mod_pos_bound (2 * Zpos m + 1 * G) (2 * G) ltac:(lia)) as Hmod.
    fold P in Hdm.
    assert (H1 : 2 * G * P <= 2 * Zpos m + G) by lia.
    assert (H2 : 2 * Zpos m + G < 2 * G * P + 2 * G) by lia.
    assert (Hm : (inject_Z (Zpos m) * (2 # 1) ^ e * inject_Z G == inject_Z (Zpos m))%Q).
    { unfold G. rewrite pow2_inject by lia.
      rewrite <- Qmult_assoc, <- pow2_add.
      replace (e + - e) with 0 by lia. simpl. ring. }
    assert (HGq : (0 < inject_Z G)%Q).
    { change 0%Q with (inject_Z 0). rewrite <- Zlt_Qlt. lia. }
    set (y := (inject_Z (Zpos m) * (2 # 1) ^ e)%Q) in *.
    set (g := inject_Z G) in *. set (p := inject_Z P) in *.
    set (mq := inject_Z (Zpos m)) in *.
    assert (H1q : (2 * g * p <= 2 * mq + g)%Q).
    { unfold g, p, mq. change 2%Q with (inject_Z 2).
      rewrite <- !inject_Z_mult, <- inject_Z_plus, <- Zle_Qle. exact H1. }
    assert (H2q : (2 * mq + g < 2 * g * p + 2 * g)%Q).
    { unfold g, p, mq. change 2%Q with (inject_Z 2).
      rewrite <- !inject_Z_mult, <- !inject_Z_plus, <- Zlt_Qlt. exact H2. }
    split.
    + apply (Qmult_lt_r _ _ (2 * g)); [lra|]. lra.
    + apply (Qmult_le_r _ _ (2 * g)); [lra|]. lra.
  - subst e. simpl (- 0). simpl (0 - 1).
    change (Z.shiftl 1 0) with 1.
    replace (Z.shiftl (2 * Zpos m + 1) (-1)) with (Zpos m).
    + simpl. split; lra.
    + change (Z.shiftl (2 * Zpos m + 1) (-1)) with (Z.shiftr (2 * Zpos m + 1) 1).
      rewrite Z.shiftr_div_pow2 by lia.
      change (2 ^ 1) with 2. apply (Z.div_unique _ _ _ 1); lia.
  - replace (Z.shiftl 1 (- e)) with 0.
    + rewrite Z.add_0_r, Z.shiftl_mul_pow2 by lia.
      replace (2 * Zpos m * 2 ^ (e - 1)) with (Zpos m * 2 ^ e).
      * rewrite inject_Z_mult, pow2_inject by lia. split; lra.
      * replace e with (1 + (e - 1)) at 1 by lia.
        rewrite Z.pow_add_r by lia. change (2 ^ 1) with 2. lia.
    + rewrite Z.shiftl_opp_r, Z.shiftr_div_pow2 by lia.
      symmetry. apply Z.div_small.
      assert (2 ^ 1 <= 2 ^ e) by (apply Z.pow_le_mono_r; lia).
      change (2 ^ 1) with 2 in *. lia.
Qed.

Lemma floorZ_integral (s : bool) (z : Z) :
  0 <= z < 2 ^ 53 -> floorZ (binary_normalize 53 1024 z 0 s) = z.
Proof.
  intros Hz. destruct (Z.eq_dec z 0) as [->|Hnz]; [reflexivity|].
  destruct (binary_normalize_integer z s ltac:(lia)) as (m & sh & -> & _ & Hsh & Hm).
  unfold floorZ, cond_Zopp.
  rewrite Z.shiftl_opp_r, Z.shiftr_div_pow2 by lia.
  rewrite Hm. apply Z.div_mul.
  assert (0 < 2 ^ sh) by (apply Z.pow_pos_nonneg; lia). lia.
Qed.

(** The rounded percentage of a count [v] out of [n] lies within 1 of
    [100 * v / n]. *)
Lemma percentage_error (v : Z) (n : nat) :
  0 < v <= Z.of_nat n -> Z.of_nat n < 2 ^ 53 ->
  Z.abs (floorZ (percentageOf v n) * Z.of_nat n - 100 * v) <= Z.of_nat n.
Proof.
  intros Hv Hn.
  unfold percentageOf, number_of_nat, number_of_Z, num_mul, num_div.
  change prec with 53. change emax with 1024.
  destruct (div_error v (Z.of_nat n)) as (m & e & -> & Hdig & He & HX); [lia|lia|].
  destruct (mul100_error m e Hdig) as (m' & e' & -> & HY); [lia|].
  cbv zeta in HX, HY.
  destruct (roundZ_bounds m' e') as [HP1 HP2]. cbv zeta in HP1, HP2.
  unfold Math_round, integral. change prec with 53. change emax with 1024.
  set (P := roundZ (S754_finite false m' e')) in *.
  set (X := (inject_Z (Zpos m) * (2 # 1) ^ e)%Q) in *.
  set (Y := (inject_Z (Zpos m') * (2 # 1) ^ e')%Q) in *.
  set (vq := inject_Z v) in *. set (nq := inject_Z (Z.of_nat n)) in *.
  set (pq := inject_Z P) in *.
  assert (Hvq : (0 < vq)%Q).
  { unfold vq. change 0%Q with (inject_Z 0). rewrite <- Zlt_Qlt. lia. }
  assert (Hvn : (vq <= nq)%Q).
  { unfold vq, nq. rewrite <- Zle_Qle. lia. }
  assert (Hnq : (0 < nq)%Q) by lra.
  destruct HX as [HX1 HX2]. destruct HY as [HY1 HY2].
  unfold eps_div in HX1, HX2. unfold eps_mul in HY1, HY2.
  assert (HYn1 : (- (1 # 2251799813685248) * (100 * X) * nq <= (Y - 100 * X) * nq)%Q)
    by (apply Qmult_le_r; assumption).
  assert (HYn2 : ((Y - 100 * X) * nq <= (1 # 2251799813685248) * (100 * X) * nq)%Q)
    by (apply Qmult_le_r; assumption).
  assert (HPn1 : ((Y - (1 # 2)) * nq < pq * nq)%Q)
    by (apply Qmult_lt_r; assumption).
  assert (HPn2 : (pq * nq <= (Y + (1 # 2)) * nq)%Q)
    by (apply Qmult_le_r; assumption).
  assert (Hupper : (pq * nq - 100 * vq <= nq)%Q) by lra.
  assert (Hlower : (- nq <= pq * nq - 100 * vq)%Q) by lra.
  assert (HPlo : (- 1 < pq)%Q).
  { apply (Qmult_lt_r _ _ nq Hnq). lra. }
  assert (HPhi : (pq <= 101)%Q).
  { apply (Qmult_le_r _ _ nq Hnq). lra. }
  assert (HPz : 0 <= P < 2 ^ 53).
  { unfold pq in HPlo, HPhi.
    change (- 1)%Q with (inject_Z (- 1)) in HPlo.
    change 101%Q with (inject_Z 101) in HPhi.
    rewrite <- Zlt_Qlt in HPlo. rewrite <- Zle_Qle in HPhi.
    change (2 ^ 53) with 9007199254740992. lia. }
  rewrite floorZ_integral by exact HPz.
  unfold pq, nq, vq in Hupper, Hlower.
  change 100%Q with (inject_Z 100) in Hupper, Hlower.
  rewrite <- !inject_Z_mult, <- inject_Z_opp in *.
  unfold Qminus in Hupper, Hlower.
  rewrite <- inject_Z_opp, <- inject_Z_plus in Hupper, Hlower.
  rewrite <- Zle_Qle in Hupper, Hlower.
  lia.
Qed.

(** ** The segment distribution *)

Lemma countOf_tally (acc : list (string * Z)) (name name' : string) :
  countOf (tally acc name) name'
  = if String.eqb name name' then countOf acc name + 1 else countOf acc name'.
Proof.
  unfold countOf, tally.
  destruct (String.eqb_spec name name') as [<-|Hne].
  - now rewrite get_set_same.
  - now rewrite get_set_other.
Qed.

Lemma Zsum_set_increment (acc : list (string * Z)) (name : string) :
  Zsum (map snd (set name (countOf acc name + 1) acc)) = Zsum (map snd acc) + 1.
Proof.
  induction acc as [|[k c] acc IH]; simpl.
  - unfold countOf. simpl. lia.
  - unfold countOf in *. simpl.
    destruct (String.eqb k name) eqn:E; simpl; [lia|].
    rewrite IH. lia.
Qed.

Lemma keys_set {V : Type} (o : list (string * V)) (k : string) (v : V) :
  map fst (set k v o) = if existsb (String.eqb k) (map fst o)
                        then map fst o else (map fst o ++ [k])%list.
Proof.
  induction o as [|[k' v'] o IH]; simpl; auto.
  rewrite (String.eqb_sym k k').
  destruct (String.eqb k' k) eqn:E; simpl; auto.
  rewrite IH. destruct (existsb (String.eqb k) (map fst o)); reflexivity.
Qed.

Lemma NoDup_keys_set {V : Type} (o : list (string * V)) (k : string) (v : V) :
  NoDup (map fst o) -> NoDup (map fst (set k v o)).
Proof.
  intros Hnd. rewrite keys_set.
  destruct (existsb (String.eqb k) (map fst o)) eqn:E; auto.
  apply NoDup_app; [exact Hnd | repeat constructor; simpl; tauto |].
  intros x Hx [->|[]].
  assert (Hex : existsb (String.eqb x) (map fst o) = true).
  { apply existsb_exists. exists x. split; auto. apply String.eqb_refl. }
  congruence.
Qed.

Lemma get_In_values {V : Type} (o : list (string * V)) (k : string) (v : V) :
  get o k = Some v -> In v (map snd o).
Proof.
  induction o as [|[k' v'] o IH]; simpl; [discriminate|].
  destruct (String.eqb k' k).
  - intros [= ->]. now left.
  - intros H. right. auto.
Qed.

Lemma Forall_values_set {V : Type} (P : V -> Prop) (o : list (string * V))
      (k : string) (v : V) :
  Forall P (map snd o) -> P v -> Forall P (map snd (set k v o)).
Proof.
  intros Ho Hv. induction o as [|[k' v'] o IH]; simpl.
  - repeat constructor. exact Hv.
  - inversion Ho; subst.
    destruct (String.eqb k' k); simpl; constructor; auto.
Qed.

(** The invariants of the tallying loop: the counts add up to the number
    of records seen, a segment counts the records that bear its name, no
    segment is listed twice and every listed count is positive. *)
Lemma tally_all (names : list string) :
  forall acc,
    NoDup (map fst acc) ->
    Forall (fun c => 0 < c) (map snd acc) ->
    let counts := fold_left tally names acc in
    Zsum (map snd counts) = Zsum (map snd acc) + Z.of_nat (List.length names) /\
    (forall name, countOf counts name
                  = countOf acc name + Z.of_nat (count_occ string_dec names name)) /\
    NoDup (map fst counts) /\
    Forall (fun c => 0 < c) (map snd counts).
Proof.
  induction names as [|n names IH]; intros acc Hnd Hpos; cbv zeta.
  - simpl. repeat split; auto; intros; lia.
  - assert (Hcount : 0 <= countOf acc n).
    { unfold countOf. destruct (get acc n) as [c|] eqn:E; [|lia].
      pose proof (get_In_values acc n c E) as Hin.
      rewrite Forall_forall in Hpos. specialize (Hpos c Hin). lia. }
    assert (Hpos' : Forall (fun c => 0 < c) (map snd (tally acc n))).
    { unfold tally. fold (countOf acc n).
      apply Forall_values_set; [exact Hpos|lia]. }
    destruct (IH (tally acc n) (NoDup_keys_set acc n _ Hnd) Hpos')
      as (Hsum & Hocc & Hnd' & Hall).
    simpl fold_left. repeat split; auto.
    + rewrite Hsum. unfold tally at 1. fold (countOf acc n).
      rewrite Zsum_set_increment. simpl List.length. lia.
    + intros name. rewrite Hocc, countOf_tally. simpl count_occ.
      destruct (string_dec n name) as [<-|Hne].
      * rewrite String.eqb_refl. lia.
      * destruct (String.eqb_spec n name); [contradiction|lia].
Qed.

Lemma length_rfm_customerSegments_from random (data rows : list Customer) :
  forall index calls,
    List.length (Rfm.customerSegments_from random data rows index calls) = List.length rows.
Proof.
  induction rows as [|c rows IH]; intros index calls; simpl; auto.
  destruct (Rfm.customerSegment random data c index calls). simpl. now rewrite IH.
Qed.

Lemma length_customerSegmentsBy (s : strategy) (data : list Customer) :
  List.length (customerSegmentsBy s data) = List.length data.
Proof.
  destruct s; simpl.
  - apply length_rfm_customerSegments_from.
  - unfold KMeans.customerSegments. apply length_mapi.
Qed.

Lemma Zsum_bounded_by_total (l : list Z) (c : Z) :
  Forall (fun c => 0 < c) l -> In c l -> 0 < c <= Zsum l.
Proof.
  induction 1 as [|x l Hx Hl IH]; intros Hin; simpl in *; [contradiction|].
  assert (0 <= Zsum l).
  { clear - Hl. induction Hl; simpl; lia. }
  destruct Hin as [->|Hin]; [lia|]. specialize (IH Hin). lia.
Qed.

Lemma percentages_sum (n : nat) (counts : list (string * Z)) :
  Z.of_nat n < 2 ^ 53 ->
  Forall (fun c => 0 < c <= Z.of_nat n) (map snd counts) ->
  Z.abs (Zsum (map (fun d => floorZ (percentage d)) (segmentData n counts)) * Z.of_nat n
         - 100 * Zsum (map snd counts))
  <= Z.of_nat (List.length counts) * Z.of_nat n.
Proof.
  intros Hn. induction counts as [|[k c] counts IH]; intros Hall.
  - simpl. lia.
  - inversion Hall as [|? ? Hc Hrest]; subst.
    specialize (IH Hrest).
    pose proof (percentage_error c n Hc Hn) as Herr.
    change (segmentData n ((k, c) :: counts))
      with ({| name := k; value := c; percentage := percentageOf c n |}
              :: segmentData n counts).
    set (rest := segmentData n counts) in *.
    set (total := Zsum (map snd counts)) in *.
    change (Zsum (map snd ((k, c) :: counts))) with (c + total).
    change (Zsum (map (fun d => floorZ (percentage d))
                      ({| name := k; value := c; percentage := percentageOf c n |} :: rest)))
      with (floorZ (percentageOf c n) + Zsum (map (fun d => floorZ (percentage d)) rest)).
    change (List.length ((k, c) :: counts)) with (S (List.length counts)).
    rewrite Nat2Z.inj_succ. lia.
Qed.

Lemma within_tolerance (S n L : Z) :
  0 < n -> Z.abs (S * n - 100 * n) <= L * n -> Z.abs (S - 100) <= L.
Proof.
  intros Hn H.
  replace (S * n - 100 * n) with ((S - 100) * n) in H by ring.
  rewrite Z.abs_mul, (Z.abs_eq n) in H by lia.
  now apply Z.mul_le_mono_pos_r in H.
Qed.

(** C1. Under either strategy, on a table that has records (fewer than
    2^32, as every array has), the segment distribution lists each
    segment once with the number of records that bear its name, these
    counts add up to the number of records, and the rounded percentages
    add up to 100 give or take one per segment. *)
Theorem segment_counts_partition_the_table :
  forall (s : strategy) (data : list Customer),
    data <> [] ->
    Z.of_nat (List.length data) < 2 ^ 32 ->
    let customerSegments := customerSegmentsBy s data in
    let counts := segmentCounts customerSegments in
    let distribution := segmentData (totalCustomers data) counts in
    List.length customerSegments = List.length data /\
    NoDup (map name distribution) /\
    (forall segment,
        countOf counts segment
        = Z.of_nat (count_occ string_dec (map segment_of customerSegments) segment)) /\
    Zsum (map value distribution) = Z.of_nat (List.length data) /\
    Z.abs (Zsum (map (fun d => floorZ (percentage d)) distribution) - 100)
    <= Z.of_nat (List.length distribution).
Proof.
  intros s data Hne Hlen customerSegments counts distribution.
  assert (Hlength : List.length customerSegments = List.length data)
    by apply length_customerSegmentsBy.
  destruct (tally_all (map segment_of customerSegments) [] (NoDup_nil _) (Forall_nil _))
    as (Hsum & Hocc & Hnd & Hpos).
  rewrite <- segmentCounts_tallies in Hsum, Hocc, Hnd, Hpos. fold counts in Hsum, Hocc, Hnd, Hpos.
  rewrite length_map, Hlength in Hsum. simpl in Hsum.
  assert (Hnames : map name distribution = map fst counts).
  { unfold distribution, segmentData. rewrite map_map. reflexivity. }
  assert (Hvalues : map value distribution = map snd counts).
  { unfold distribution, segmentData. rewrite map_map. reflexivity. }
  assert (Hdl : List.length distribution = List.length counts).
  { unfold distribution, segmentData. apply length_map. }
  split; [exact Hlength|]. split; [now rewrite Hnames|].
  split; [exact Hocc|]. split; [now rewrite Hvalues|].
  assert (Hn : 0 < Z.of_nat (List.length data)).
  { destruct data; [contradiction|]. simpl List.length. lia. }
  assert (Hbound : Forall (fun c => 0 < c <= Z.of_nat (totalCustomers data)) (map snd counts)).
  { apply Forall_forall. intros c Hc. unfold totalCustomers. rewrite <- Hsum.
    now apply Zsum_bounded_by_total. }
  pose proof (percentages_sum (totalCustomers data) counts) as Hp.
  unfold totalCustomers in Hp, Hbound.
  specialize (Hp ltac:(change (2 ^ 32) with 4294967296 in Hlen;
                       change (2 ^ 53) with 9007199254740992; lia) Hbound).
  fold distribution in Hp. rewrite Hsum in Hp. rewrite Hdl.
  now apply (within_tolerance _ (Z.of_nat (List.length data))).
Qed.

Lemma segment_counts_partition_the_table_witness :
  [sampleRow] <> [] /\
  Z.of_nat (List.length [sampleRow]) < 2 ^ 32 /\
  Zsum (map value
            (segmentData (totalCustomers [sampleRow])
               (segmentCounts (customerSegmentsBy (Clustering oneCluster) [sampleRow]))))
  = Z.of_nat (List.length [sampleRow]).
Proof.
  assert (H1 : [sampleRow] <> []) by discriminate.
  assert (H2 : Z.of_nat (List.length [sampleRow]) < 2 ^ 32) by reflexivity.
  split; [exact H1|]. split; [exact H2|].
  exact (proj1 (proj2 (proj2 (proj2
           (segment_counts_partition_the_table (Clustering oneCluster) [sampleRow] H1 H2))))).
Defined.

(** * The upload component *)

(** ** Property definition *)

Section DefineFacts.
Context {V : Type}.
Implicit Types (o : list (string * V)) (k : string) (v : V).

Lemma get_insertIndexed_same n o k v : get (insertIndexed n k v o) k = Some v.
Proof.
  induction o as [|[k' v'] o IH]; simpl.
  - now rewrite String.eqb_refl.
  - destruct (String.eqb k' k) eqn:E; simpl; [now rewrite E|].
    destruct (arrayIndex k') as [n'|]; [destruct (n <? n')%N|]; simpl;
      rewrite ?String.eqb_refl, ?E; auto.
Qed.

Lemma get_insertIndexed_other n o k k' v :
  k <> k' -> get (insertIndexed n k v o) k' = get o k'.
Proof.
  intros Hne.
  assert (Hk : String.eqb k k' = false) by now apply String.eqb_neq.
  induction o as [|[k0 v0] o IH]; simpl.
  - now rewrite Hk.
  - destruct (String.eqb k0 k) eqn:E; simpl.
    + apply String.eqb_eq in E. subst k0. now rewrite Hk.
    + destruct (arrayIndex k0) as [n'|]; [destruct (n <? n')%N|]; simpl;
        rewrite ?Hk, ?IH; auto.
Qed.

Lemma get_define_same o k v : get (define k v o) k = Some v.
Proof.
  unfold define. destruct (arrayIndex k).
  - apply get_insertIndexed_same.
  - apply get_set_same.
Qed.

Lemma get_define_other o k k' v : k <> k' -> get (define k v o) k' = get o k'.
Proof.
  intros Hne. unfold define. destruct (arrayIndex k).
  - now apply get_insertIndexed_other.
  - now apply get_set_other.
Qed.

Lemma Forall_define (P : string * V -> Prop) o k v :
  P (k, v) -> Forall P o -> Forall P (define k v o).
Proof.
  intros Hkv Ho. unfold define. destruct (arrayIndex k) as [n|].
  - induction Ho as [|[k' v'] o Hx Ho IH]; simpl.
    + now constructor.
    + destruct (String.eqb k' k) eqn:E.
      * apply String.eqb_eq in E. subst k'. now constructor.
      * destruct (arrayIndex k') as [n'|]; [destruct (n <? n')%N|];
          repeat constructor; auto.
  - induction Ho as [|[k' v'] o Hx Ho IH]; simpl.
    + now constructor.
    + destruct (String.eqb k' k) eqn:E.
      * apply String.eqb_eq in E. subst k'. now constructor.
      * now constructor.
Qed.

Lemma define_not_empty o k v : define k v o <> [].
Proof.
  unfold define. destruct (arrayIndex k) as [n|]; destruct o as [|[k' v'] o]; simpl;
    try discriminate.
  - destruct (String.eqb k' k); [discriminate|].
    destruct (arrayIndex k') as [n'|]; [destruct (n <? n')%N|]; discriminate.
  - destruct (String.eqb k' k); discriminate.
Qed.
End DefineFacts.

(** The names an object enumerates after an assignment are a matter of
    the names it had and of the name assigned, not of the values. *)
Lemma keys_define {V W : Type} (k : string) (v : V) (w : W)
      (o : list (string * V)) (p : list (string * W)) :
  Object_keys o = Object_keys p ->
  Object_keys (define k v o) = Object_keys (define k w p).
Proof.
  unfold define, Object_keys. destruct (arrayIndex k) as [n|].
  - revert p. induction o as [|[k' v'] o IH]; intros [|[k'' w'] p] H;
      try discriminate; simpl in *; auto.
    injection H as <- H.
    destruct (String.eqb k' k); simpl; [now rewrite H|].
    destruct (arrayIndex k') as [n'|]; [destruct (n <? n')%N|]; simpl;
      rewrite ?H; auto.
    f_equal. now apply IH.
  - revert p. induction o as [|[k' v'] o IH]; intros [|[k'' w'] p] H;
      try discriminate; simpl in *; auto.
    injection H as <- H.
    destruct (String.eqb k' k); simpl; [now rewrite H|].
    f_equal. now apply IH.
Qed.

Lemma keys_define_new {V : Type} (k : string) (v : V) (o : list (string * V)) :
  arrayIndex k = None -> ~ In k (Object_keys o) ->
  Object_keys (define k v o) = (Object_keys o ++ [k])%list.
Proof.
  intros Hidx Hnew. unfold define, Object_keys in *. rewrite Hidx, keys_set.
  destruct (existsb (String.eqb k) (map fst o)) eqn:E; auto.
  apply existsb_exists in E. destruct E as (x & Hin & Hx).
  apply String.eqb_eq in Hx. now subst x.
Qed.

(** ** Characters of strings *)

Lemma split_not_nil (sep : ascii) (s : string) : split sep s <> [].
Proof.
  induction s as [|c s IH]; simpl; [discriminate|].
  destruct (Ascii.eqb c sep); [discriminate|].
  destruct (split sep s); [contradiction|discriminate].
Qed.

Lemma split_pieces (sep : ascii) (s p : string) :
  In p (split sep s) ->
  ~ occurs sep p /\ forall c, occurs c p -> occurs c s.
Proof.
  unfold occurs. revert p. induction s as [|c s IH]; intros p; simpl.
  - intros [<-|[]]. simpl. tauto.
  - destruct (Ascii.eqb_spec c sep) as [->|Hne].
    + intros [<-|Hin]; [simpl; tauto|].
      destruct (IH p Hin) as [Hfree Hsub]. split; auto.
    + pose proof (split_not_nil sep s) as Hnil.
      destruct (split sep s) as [|piece pieces]; [contradiction|].
      intros [<-|Hin].
      * destruct (IH piece (or_introl eq_refl)) as [Hfree Hsub]. simpl. split.
        -- intros [Heq|Hin]; [now apply Hne|now apply Hfree].
        -- intros c0 [->|Hin]; [now left|right; now apply Hsub].
      * destruct (IH p (or_intror Hin)) as [Hfree Hsub]. split; auto.
Qed.

(** Putting the separator back between the pieces gives the string
    back. *)
Lemma concat_split (sep : ascii) (s : string) :
  String.concat (String sep EmptyString) (split sep s) = s.
Proof.
  induction s as [|c s IH]; simpl; auto.
  pose proof (split_not_nil sep s) as Hnil.
  destruct (Ascii.eqb_spec c sep) as [->|Hne].
  - destruct (split sep s) as [|piece pieces]; [contradiction|].
    simpl in *. now rewrite IH.
  - destruct (split sep s) as [|piece pieces]; [contradiction|].
    destruct pieces as [|piece' pieces]; simpl in *; now rewrite <- IH.
Qed.

Lemma trimStart_sub (s : string) (c : ascii) : occurs c (trimStart s) -> occurs c s.
Proof.
  unfold occurs. induction s as [|a s IH]; simpl; auto.
  destruct (isWhiteSpace a); simpl; auto.
Qed.

Lemma trimEnd_sub (s : string) (c : ascii) : occurs c (trimEnd s) -> occurs c s.
Proof.
  unfold occurs. induction s as [|a s IH]; simpl; auto.
  destruct (trimEnd s) as [|b t] eqn:E.
  - destruct (isWhiteSpace a); simpl; tauto.
  - simpl in *. intros [->|H]; auto.
Qed.

Lemma removeQuotes_chars (s : string) (c : ascii) :
  occurs c (removeQuotes s) -> c <> quote /\ occurs c s.
Proof.
  unfold occurs. induction s as [|a s IH]; simpl; [tauto|].
  destruct (Ascii.eqb_spec a quote) as [->|Hne]; simpl.
  - intros H. destruct (IH H). auto.
  - intros [<-|H]; [auto|]. destruct (IH H). auto.
Qed.

Lemma clean_chars (cell : string) (c : ascii) :
  occurs c (FileUpload.clean cell) -> c <> quote /\ occurs c cell.
Proof.
  unfold FileUpload.clean, trim. intros H.
  apply removeQuotes_chars in H. destruct H as [Hq H]. split; auto.
  now apply trimStart_sub, trimEnd_sub.
Qed.

(** ** The CSV reader *)

Lemma valueAt_nth (values : list string) (index : nat) :
  FileUpload.valueAt values index = nth index values EmptyString.
Proof.
  unfold FileUpload.valueAt. revert index.
  induction values as [|v values IH]; intros [|index]; simpl; auto.
  now destruct v.
Qed.

Lemma combine_seq_snoc {A : Type} (l : list A) (x : A) (start : nat) :
  combine (seq start (List.length (l ++ [x]))) (l ++ [x])
  = (combine (seq start (List.length l)) l ++ [((start + List.length l)%nat, x)])%list.
Proof.
  revert start. induction l as [|y l IH]; intros start; simpl.
  - now rewrite Nat.add_0_r.
  - rewrite IH. now rewrite Nat.add_succ_r.
Qed.

Lemma rowOf_snoc (headers : list string) (header line : string) :
  FileUpload.rowOf (headers ++ [header]) line
  = FileUpload.assign header
      (FileUpload.valueAt (map FileUpload.clean (split "," line)) (List.length headers))
      (FileUpload.rowOf headers line).
Proof.
  unfold FileUpload.rowOf. cbv zeta.
  now rewrite combine_seq_snoc, fold_left_app.
Qed.

Lemma get_rowOf (headers : list string) (line : string) :
  forall (i : nat) (h : string),
    nth_error headers i = Some h ->
    h <> "__proto__" ->
    (forall j, (i < j)%nat -> nth_error headers j <> Some h) ->
    get (FileUpload.rowOf headers line) h
    = Some (nth i (map FileUpload.clean (split "," line)) EmptyString).
Proof.
  induction headers as [|x headers IH] using rev_ind; intros i h Hi Hproto Hlast.
  - now destruct i.
  - rewrite rowOf_snoc. unfold FileUpload.assign.
    destruct (Nat.eq_dec i (List.length headers)) as [->|Hne].
    + rewrite nth_error_app2, Nat.sub_diag in Hi by lia. injection Hi as ->.
      destruct (String.eqb_spec h "__proto__"); [contradiction|].
      rewrite get_define_same. now rewrite valueAt_nth.
    + assert (Hlt : (i < List.length headers)%nat).
      { assert (i < List.length (headers ++ [x]))%nat
          by (apply nth_error_Some; congruence).
        rewrite length_app in H. simpl in H. lia. }
      rewrite nth_error_app1 in Hi by exact Hlt.
      assert (Hx : x <> h).
      { intros ->. apply (Hlast (List.length headers) Hlt).
        now rewrite nth_error_app2, Nat.sub_diag by lia. }
      assert (Hrow : get (FileUpload.rowOf headers line) h
                     = Some (nth i (map FileUpload.clean (split "," line)) EmptyString)).
      { apply IH; auto. intros j Hj Hnth. apply (Hlast j Hj).
        rewrite nth_error_app1; auto. apply nth_error_Some. congruence. }
      destruct (String.eqb x "__proto__"); [exact Hrow|].
      now rewrite get_define_other.
Qed.

Lemma get_rowOf_none (headers : list string) (line h : string) :
  ~ In h headers \/ h = "__proto__" ->
  get (FileUpload.rowOf headers line) h = None.
Proof.
  intros Hh. induction headers as [|x headers IH] using rev_ind; [reflexivity|].
  rewrite rowOf_snoc. unfold FileUpload.assign.
  assert (Hrow : get (FileUpload.rowOf headers line) h = None).
  { apply IH. destruct Hh as [Hh|Hh]; auto. left. intros Hin. apply Hh.
    apply in_or_app. now left. }
  destruct (String.eqb_spec x "__proto__") as [->|Hx]; [exact Hrow|].
  rewrite get_define_other; auto.
  intros ->. destruct Hh as [Hh|Hh]; [|contradiction].
  apply Hh. apply in_or_app. right. now left.
Qed.

Lemma keys_rowOf (headers : list string) (line line' : string) :
  Object_keys (FileUpload.rowOf headers line) = Object_keys (FileUpload.rowOf headers line').
Proof.
  induction headers as [|x headers IH] using rev_ind; [reflexivity|].
  rewrite !rowOf_snoc. unfold FileUpload.assign.
  destruct (String.eqb x "__proto__"); [exact IH|].
  now apply keys_define.
Qed.

Lemma keys_rowOf_plain (headers : list string) (line : string) :
  NoDup headers ->
  Forall (fun h => h <> "__proto__" /\ arrayIndex h = None) headers ->
  Object_keys (FileUpload.rowOf headers line) = headers.
Proof.
  induction headers as [|x headers IH] using rev_ind; intros Hnd Hall; [reflexivity|].
  rewrite rowOf_snoc. unfold FileUpload.assign.
  apply Forall_app in Hall. destruct Hall as [Hall Hx].
  inversion Hx as [|? ? [Hproto Hidx] _]; subst.
  apply NoDup_remove in Hnd. rewrite app_nil_r in Hnd. destruct Hnd as [Hnd Hnew].
  destruct (String.eqb_spec x "__proto__"); [contradiction|].
  rewrite keys_define_new; auto; rewrite IH; auto.
Qed.

Lemma rowOf_empty (headers : list string) (line : string) :
  FileUpload.rowOf headers line = [] <-> Forall (fun h => h = "__proto__") headers.
Proof.
  induction headers as [|x headers IH] using rev_ind.
  - split; [constructor|reflexivity].
  - rewrite rowOf_snoc, Forall_app. unfold FileUpload.assign.
    destruct (String.eqb_spec x "__proto__") as [->|Hx].
    + rewrite IH. split; [intros H; split; auto|tauto].
    + split.
      * intros H. now apply define_not_empty in H.
      * intros [_ H]. inversion H; subst. contradiction.
Qed.

Lemma Forall_rowOf (headers : list string) (line : string) :
  Forall (fun kv => In (fst kv) headers /\
                    (snd kv = EmptyString \/
                     In (snd kv) (map FileUpload.clean (split "," line))))
         (FileUpload.rowOf headers line).
Proof.
  induction headers as [|x headers IH] using rev_ind; [constructor|].
  rewrite rowOf_snoc. unfold FileUpload.assign.
  assert (Hrow : Forall (fun kv => In (fst kv) (headers ++ [x]) /\
                    (snd kv = EmptyString \/
                     In (snd kv) (map FileUpload.clean (split "," line))))
                        (FileUpload.rowOf headers line)).
  { eapply Forall_impl; [|exact IH]. intros kv [Hk Hv]. split; auto.
    apply in_or_app. now left. }
  destruct (String.eqb x "__proto__"); [exact Hrow|].
  apply Forall_define; [|exact Hrow]. simpl. split.
  - apply in_or_app. right. now left.
  - rewrite valueAt_nth.
    destruct (nth_in_or_default (List.length headers)
                (map FileUpload.clean (split "," line)) EmptyString); auto.
Qed.

Lemma parseCSV_returned (text : string) (data : list Customer) :
  FileUpload.parseCSV text = FileUpload.Returned data ->
  let lines := FileUpload.linesOf text in
  (2 <= List.length lines)%nat /\
  data = map (FileUpload.rowOf (FileUpload.headersOf lines)) (skipn 1 lines).
Proof.
  unfold FileUpload.parseCSV. cbv zeta.
  destruct (Nat.ltb_spec (List.length (FileUpload.linesOf text)) 2); [discriminate|].
  intros [= <-]. auto.
Qed.

Lemma parseCSV_thrown (text message : string) :
  FileUpload.parseCSV text = FileUpload.Thrown_Error message ->
  (List.length (FileUpload.linesOf text) < 2)%nat /\
  message = "CSV must have at least a header row and one data row".
Proof.
  unfold FileUpload.parseCSV. cbv zeta.
  destruct (Nat.ltb_spec (List.length (FileUpload.linesOf text)) 2); [|discriminate].
  intros [= <-]. auto.
Qed.

Lemma nth_error_rows {A B : Type} (f : A -> B) (d : A) (lines : list A) (r : nat) (row : B) :
  nth_error (map f (skipn 1 lines)) r = Some row -> row = f (nth (S r) lines d).
Proof.
  destruct lines as [|l0 lines]; simpl.
  - now destruct r.
  - rewrite nth_error_map. destruct (nth_error lines r) as [l|] eqn:E; [|discriminate].
    intros [= <-]. f_equal. symmetry. now apply nth_error_nth.
Qed.

(** X1. A record of a parsed table holds, under each header, the cell of
    its line at the position of the header, trimmed and without double
    quotes, and the empty string where the line has no such cell; when a
    header occurs several times its last position counts; a name that is
    no header is not a property of the record. *)
Theorem parseCSV_reads_cells_by_header :
  forall (text : string) (data : list Customer) (r : nat) (row : Customer)
         (i : nat) (h : string),
    FileUpload.parseCSV text = FileUpload.Returned data ->
    nth_error data r = Some row ->
    let lines := FileUpload.linesOf text in
    let headers := FileUpload.headersOf lines in
    nth_error headers i = Some h ->
    h <> "__proto__" ->
    (forall j, (i < j)%nat -> nth_error headers j <> Some h) ->
    get row h
    = Some (nth i (map FileUpload.clean (split "," (nth (S r) lines EmptyString)))
                EmptyString) /\
    (forall other, ~ In other headers -> get row other = None).
Proof.
  intros text data r row i h Hparse Hrow lines headers Hi Hproto Hlast.
  destruct (parseCSV_returned text data Hparse) as [_ Hdata].
  fold lines in Hdata. fold headers in Hdata. subst data.
  apply (nth_error_rows _ EmptyString) in Hrow. subst row. split.
  - now apply get_rowOf.
  - intros other Hother. apply get_rowOf_none. now left.
Qed.

Lemma parseCSV_reads_cells_by_header_witness :
  FileUpload.parseCSV smallCSV = FileUpload.Returned smallTable /\
  nth_error smallTable 1 = Some [("name", "bob"); ("total", EmptyString)] /\
  get [("name", "bob"); ("total", EmptyString)] "total" = Some EmptyString.
Proof.
  split; [reflexivity|]. split; [reflexivity|].
  refine (proj1 (parseCSV_reads_cells_by_header smallCSV smallTable
                   1 [("name", "bob"); ("total", EmptyString)] 1 "total"
                   eq_refl eq_refl eq_refl _ _)).
  - discriminate.
  - intros [|[|[|j]]] Hj; try lia; discriminate.
Defined.

(** X2. Every record of a parsed table has the columns of the first one,
    in the same order; they are the headers in their order when these
    are distinct and none is [__proto__] or an array index. *)
Theorem parsed_records_share_their_columns :
  forall (text : string) (data : list Customer),
    FileUpload.parseCSV text = FileUpload.Returned data ->
    let headers := FileUpload.headersOf (FileUpload.linesOf text) in
    (forall row, In row data -> Object_keys row = fields data) /\
    (NoDup headers -> Forall plainHeader headers -> fields data = headers).
Proof.
  intros text data Hparse headers.
  destruct (parseCSV_returned text data Hparse) as [Hlen Hdata].
  fold headers in Hdata.
  destruct (FileUpload.linesOf text) as [|l0 [|l1 lines]]; simpl in Hlen; try lia.
  change (skipn 1 (l0 :: l1 :: lines)) with (l1 :: lines) in Hdata.
  subst data. split.
  - intros row Hin. apply in_map_iff in Hin. destruct Hin as (l & <- & _).
    apply keys_rowOf.
  - intros Hnd Hplain. now apply keys_rowOf_plain.
Qed.

Lemma parsed_records_share_their_columns_witness :
  FileUpload.parseCSV smallCSV = FileUpload.Returned smallTable /\
  fields smallTable = ["name"; "total"].
Proof.
  split; [reflexivity|].
  refine (proj2 (parsed_records_share_their_columns smallCSV smallTable eq_refl) _ _).
  - change (FileUpload.headersOf (FileUpload.linesOf smallCSV)) with ["name"; "total"].
    constructor; [simpl; intros [H|[]]; discriminate|].
    constructor; [simpl; tauto|constructor].
  - change (FileUpload.headersOf (FileUpload.linesOf smallCSV)) with ["name"; "total"].
    repeat (constructor; [split; [discriminate|reflexivity]|]). constructor.
Defined.

(** X3. No column name and no value of a parsed table holds a line feed,
    a comma or a double quote. *)
Theorem parsed_text_is_free_of_delimiters :
  forall (text : string) (data : list Customer) (row : Customer) (key value : string)
         (c : ascii),
    FileUpload.parseCSV text = FileUpload.Returned data ->
    In row data -> In (key, value) row ->
    In c [LF; ","%char; quote] ->
    ~ occurs c key /\ ~ occurs c value.
Proof.
  intros text data row key value c Hparse Hrow Hkv Hc.
  destruct (parseCSV_returned text data Hparse) as [_ Hdata]. cbv zeta in Hdata.
  assert (Hline : forall line, In line (FileUpload.linesOf text) ->
                    forall cell, In cell (map FileUpload.clean (split "," line)) ->
                                 ~ occurs c cell).
  { intros line Hline cell Hcell Hocc.
    apply in_map_iff in Hcell. destruct Hcell as (piece & <- & Hpiece).
    apply clean_chars in Hocc. destruct Hocc as [Hq Hocc].
    destruct (split_pieces _ _ _ Hpiece) as [Hcomma Hsub].
    unfold FileUpload.linesOf in Hline. apply filter_In in Hline.
    destruct Hline as [Hline _].
    destruct (split_pieces _ _ _ Hline) as [Hlf _].
    destruct Hc as [<-|[<-|[<-|[]]]]; auto. }
  assert (Hheaders : forall h, In h (FileUpload.headersOf (FileUpload.linesOf text)) ->
                               ~ occurs c h).
  { intros h Hh. unfold FileUpload.headersOf in Hh.
    destruct (FileUpload.linesOf text) as [|l0 lines] eqn:E.
    - simpl in Hh. destruct Hh as [<-|[]]. intros [].
    - apply (Hline l0); [now left|exact Hh]. }
  subst data. apply in_map_iff in Hrow. destruct Hrow as (line & <- & Hin).
  pose proof (Forall_rowOf (FileUpload.headersOf (FileUpload.linesOf text)) line) as Hall.
  rewrite Forall_forall in Hall. destruct (Hall _ Hkv) as [Hk Hv]. simpl in Hk, Hv.
  split; [now apply Hheaders|].
  destruct Hv as [->|Hv]; [intros []|].
  apply (Hline line); auto.
  destruct (FileUpload.linesOf text); [destruct Hin|]. right. exact Hin.
Qed.

Lemma parsed_text_is_free_of_delimiters_witness :
  FileUpload.parseCSV smallCSV = FileUpload.Returned smallTable /\
  ~ occurs ","%char "name" /\ ~ occurs ","%char "ann".
Proof.
  split; [reflexivity|].
  refine (parsed_text_is_free_of_delimiters smallCSV smallTable
            [("name", "ann"); ("total", "12")] "name" "ann" ","%char eq_refl _ _ _);
    simpl; auto.
Defined.

(** X4. A call of [handleFile] shows one toast, never the one that says
    that no data was found. When the toast reports a failure the page
    keeps the table and the file it had; when it reports success the
    file read is a table of at least one record, which is passed on. The
    loading flag is not left set. *)
Theorem handleFile_reports_once :
  forall (file : FileUpload.File) (st : FileUpload.State),
    let st' := FileUpload.handleFile file st in
    exists t,
      FileUpload.toasts st' = (FileUpload.toasts st ++ [t])%list /\
      FileUpload.description t <> "No data found in CSV file" /\
      (FileUpload.isLoading st' = true -> FileUpload.isLoading st = true) /\
      (if FileUpload.destructive t
       then FileUpload.uploads st' = FileUpload.uploads st /\
            FileUpload.uploadedFile st' = FileUpload.uploadedFile st
       else exists data,
              FileUpload.parseCSV (FileUpload.text file) = FileUpload.Returned data /\
              data <> [] /\
              FileUpload.uploads st' = (FileUpload.uploads st ++ [data])%list /\
              FileUpload.uploadedFile st' = Some file /\
              Index.customerData st' = data).
Proof.
  intros file st. unfold FileUpload.handleFile.
  destruct (negb _ && negb _)%bool.
  - eexists. split; [reflexivity|]. split; [simpl; discriminate|].
    split; [simpl; auto|]. simpl. split; reflexivity.
  - cbv zeta.
    destruct (FileUpload.parseCSV (FileUpload.text file)) as [[|row data]|message] eqn:E.
    + apply parseCSV_returned in E. destruct E as [Hlen Hdata].
      exfalso. apply (f_equal (@List.length _)) in Hdata.
      rewrite length_map, length_skipn in Hdata. simpl in Hdata. lia.
    + eexists. split; [reflexivity|]. split; [simpl; discriminate|].
      split; [simpl; discriminate|]. simpl.
      exists (row :: data). repeat split; auto; try discriminate.
      unfold Index.customerData. simpl. apply last_last.
    + apply parseCSV_thrown in E. destruct E as [_ ->].
      eexists. split; [reflexivity|]. split; [simpl; discriminate|].
      split; [simpl; discriminate|]. simpl. split; reflexivity.
Qed.

(** X5. The analysis of a parsed table never gives the no-data result,
    and it throws exactly when every header of the file is
    [__proto__]. *)
Theorem parsed_table_analysis :
  forall kmeans newDate random localeCompare monthLabel (text : string)
         (data : list Customer),
    FileUpload.parseCSV text = FileUpload.Returned data ->
    let outcome :=
      KMeans.insights kmeans newDate random localeCompare monthLabel (Some data) in
    outcome <> KMeans.Returned None /\
    (outcome = KMeans.Thrown_TypeError
     <-> Forall (fun h => h = "__proto__") (FileUpload.headersOf (FileUpload.linesOf text))).
Proof.
  intros kmeans newDate random localeCompare monthLabel text data Hparse outcome.
  destruct (parseCSV_returned text data Hparse) as [Hlen Hdata]. cbv zeta in Hdata.
  destruct (FileUpload.linesOf text) as [|l0 [|l1 lines]]; simpl in Hlen; try lia.
  simpl in Hdata. subst data. subst outcome. split.
  - unfold KMeans.insights. destruct (emailField _); discriminate.
  - rewrite insights_throws_iff. rewrite <- (rowOf_empty _ l1). split.
    + intros [rest [= -> _]]. reflexivity.
    + intros ->. eauto.
Qed.

Lemma parsed_table_analysis_witness :
  FileUpload.parseCSV protoCSV = FileUpload.Returned [[]] /\
  KMeans.insights oneCluster neverValid halves (fun _ _ => Eq) (fun k => k) (Some [[]])
  = KMeans.Thrown_TypeError.
Proof.
  split; [reflexivity|].
  refine (proj2 (proj2 (parsed_table_analysis oneCluster neverValid halves
                          (fun _ _ => Eq) (fun k => k) protoCSV [[]] eq_refl)) _).
  change (FileUpload.headersOf (FileUpload.linesOf protoCSV)) with ["__proto__"].
  repeat constructor.
Defined.

(** ** Lines *)

Lemma split_app (sep : ascii) (a b : string) :
  split sep (a ++ String sep b) = (split sep a ++ split sep b)%list.
Proof.
  induction a as [|c a IH]; simpl.
  - now rewrite Ascii.eqb_refl.
  - destruct (Ascii.eqb c sep); [now rewrite IH|].
    rewrite IH. pose proof (split_not_nil sep a) as Hnil.
    now destruct (split sep a).
Qed.

Lemma linesOf_app (a b : string) :
  FileUpload.linesOf (a ++ String LF b) = (FileUpload.linesOf a ++ FileUpload.linesOf b)%list.
Proof. unfold FileUpload.linesOf. now rewrite split_app, filter_app. Qed.

Lemma parseCSV_by_lines (text text' : string) :
  FileUpload.linesOf text = FileUpload.linesOf text' ->
  FileUpload.parseCSV text = FileUpload.parseCSV text'.
Proof. unfold FileUpload.parseCSV. now intros ->. Qed.

(** X6. Lines that are blank once trimmed leave no trace: with such lines
    between two parts of a text, after it or before it, the reader gives
    what it gives without them. *)
Theorem blank_lines_are_skipped :
  forall (a blank b : string),
    FileUpload.linesOf blank = [] ->
    FileUpload.parseCSV (a ++ String LF (blank ++ String LF b))
    = FileUpload.parseCSV (a ++ String LF b) /\
    FileUpload.parseCSV (a ++ String LF blank) = FileUpload.parseCSV a /\
    FileUpload.parseCSV (blank ++ String LF b) = FileUpload.parseCSV b.
Proof.
  intros a blank b Hblank. repeat split; apply parseCSV_by_lines;
    rewrite !linesOf_app, ?Hblank, ?app_nil_r; reflexivity.
Qed.

Lemma blank_lines_are_skipped_witness :
  FileUpload.linesOf "  " = [] /\
  FileUpload.parseCSV ("id" ++ String LF ("  " ++ String LF "7"))
  = FileUpload.Returned [[("id", "7")]].
Proof.
  split; [reflexivity|].
  rewrite (proj1 (blank_lines_are_skipped "id" "  " "7" eq_refl)). reflexivity.
Defined.

(** ** Line ends *)

Lemma trimEnd_snoc (s : string) (w : ascii) :
  isWhiteSpace w = true -> trimEnd (s ++ String w EmptyString) = trimEnd s.
Proof.
  intros Hw. induction s as [|c s IH]; simpl.
  - now rewrite Hw.
  - now rewrite IH.
Qed.

Lemma trim_snoc (s : string) (w : ascii) :
  isWhiteSpace w = true -> trim (s ++ String w EmptyString) = trim s.
Proof.
  intros Hw. unfold trim. induction s as [|c s IH]; simpl.
  - now rewrite Hw.
  - destruct (isWhiteSpace c); [exact IH|].
    change (String c (s ++ String w EmptyString)) with (String c s ++ String w EmptyString).
    now apply trimEnd_snoc.
Qed.

Lemma split_snoc (sep w : ascii) (s : string) :
  w <> sep ->
  Forall2 (padded w) (split sep (s ++ String w EmptyString)) (split sep s).
Proof.
  intros Hne. induction s as [|c s IH]; simpl.
  - destruct (Ascii.eqb_spec w sep); [contradiction|].
    constructor; [now right|constructor].
  - destruct (Ascii.eqb c sep).
    + constructor; [now left|exact IH].
    + pose proof (split_not_nil sep s) as Hnil. revert Hnil.
      destruct IH as [|p' p ps' ps Hp Hps]; intros Hnil; [contradiction|].
      constructor; auto.
      destruct Hp as [-> | ->]; [now left|now right].
Qed.

Lemma clean_padded (w : ascii) (cells' cells : list string) :
  isWhiteSpace w = true ->
  Forall2 (padded w) cells' cells ->
  map FileUpload.clean cells' = map FileUpload.clean cells.
Proof.
  intros Hw. induction 1 as [|c' c cells' cells Hc _ IH]; simpl; auto.
  rewrite IH. f_equal. unfold FileUpload.clean.
  destruct Hc as [-> | ->]; auto. now rewrite trim_snoc.
Qed.

Lemma cells_padded (line' line : string) :
  padded CR line' line ->
  map FileUpload.clean (split "," line') = map FileUpload.clean (split "," line).
Proof.
  intros [->| ->]; auto.
  apply (clean_padded CR); [reflexivity|].
  apply split_snoc. discriminate.
Qed.

Lemma split_withCarriageReturns (text : string) :
  Forall2 (padded CR) (split LF (withCarriageReturns text)) (split LF text).
Proof.
  induction text as [|c text IH]; simpl.
  - constructor; [now left|constructor].
  - destruct (Ascii.eqb c LF) eqn:E; simpl.
    + constructor; [now right|exact IH].
    + rewrite E. pose proof (split_not_nil LF text) as Hnil. revert Hnil.
      destruct IH as [|p' p ps' ps Hp Hps]; intros Hnil; [contradiction|].
      constructor; auto.
      destruct Hp as [-> | ->]; [now left|now right].
Qed.

Lemma filter_padded (lines' lines : list string) :
  Forall2 (padded CR) lines' lines ->
  Forall2 (padded CR)
    (filter (fun line => negb (String.eqb (trim line) EmptyString)) lines')
    (filter (fun line => negb (String.eqb (trim line) EmptyString)) lines).
Proof.
  induction 1 as [|l' l lines' lines Hl _ IH]; simpl; [constructor|].
  assert (Htrim : trim l' = trim l).
  { destruct Hl as [-> | ->]; auto. now apply trim_snoc. }
  rewrite Htrim. destruct (negb _); auto.
Qed.

Lemma rowOf_padded (headers : list string) (line' line : string) :
  padded CR line' line -> FileUpload.rowOf headers line' = FileUpload.rowOf headers line.
Proof.
  intros H. unfold FileUpload.rowOf. now rewrite (cells_padded _ _ H).
Qed.

(** X7. Windows line ends make no difference: the reader gives the same
    result for a text and for the text with a carriage return before
    every line feed. *)
Theorem carriage_returns_are_ignored :
  forall text : string,
    FileUpload.parseCSV (withCarriageReturns text) = FileUpload.parseCSV text.
Proof.
  intros text. unfold FileUpload.parseCSV. cbv zeta.
  pose proof (filter_padded _ _ (split_withCarriageReturns text)) as Hlines.
  fold (FileUpload.linesOf (withCarriageReturns text)) in Hlines.
  fold (FileUpload.linesOf text) in Hlines.
  rewrite (Forall2_length Hlines).
  destruct (List.length (FileUpload.linesOf text) <? 2)%nat; auto.
  f_equal.
  assert (Hheaders : FileUpload.headersOf (FileUpload.linesOf (withCarriageReturns text))
                     = FileUpload.headersOf (FileUpload.linesOf text)).
  { unfold FileUpload.headersOf.
    destruct Hlines as [|l' l ls' ls Hl _]; auto. simpl. now apply cells_padded. }
  rewrite Hheaders.
  assert (Hrest : Forall2 (padded CR)
                    (skipn 1 (FileUpload.linesOf (withCarriageReturns text)))
                    (skipn 1 (FileUpload.linesOf text))).
  { destruct Hlines; simpl; auto. }
  induction Hrest as [|l' l ls' ls Hl _ IH]; simpl; auto.
  now rewrite IH, (rowOf_padded _ _ _ Hl).
Qed.

(** * More of the dashboard *)

(** ** Sorting *)

Section SortFacts.
Context {A : Type}.
Variable cmp : A -> A -> comparison.

Lemma insert_sorted_permutation (x : A) (l : list A) :
  Permutation (insert_sorted cmp x l) (x :: l).
Proof.
  induction l as [|y l IH]; simpl; auto.
  destruct (cmp x y); auto.
  rewrite IH. apply perm_swap.
Qed.

Lemma sort_permutation (l : list A) : Permutation (sort cmp l) l.
Proof.
  induction l as [|x l IH]; simpl; auto.
  rewrite insert_sorted_permutation. now constructor.
Qed.

(** The element placed first is the first of the array that no other
    one has to precede. *)
Lemma sort_head (before after : list A) (d : A) :
  Forall (fun p => cmp p d = Gt) before ->
  Forall (fun q => cmp d q <> Gt) after ->
  hd_error (sort cmp (before ++ d :: after)) = Some d.
Proof.
  intros Hbefore Hafter. induction Hbefore as [|p before Hp _ IH]; simpl.
  - destruct (sort cmp after) as [|y l] eqn:E; simpl; auto.
    assert (Hy : In y after).
    { apply (Permutation_in y (sort_permutation after)). rewrite E. now left. }
    rewrite Forall_forall in Hafter. specialize (Hafter y Hy).
    destruct (cmp d y); auto. contradiction.
  - fold (sort cmp (before ++ d :: after)).
    destruct (sort cmp (before ++ d :: after)) as [|y l]; [discriminate|].
    simpl in IH. injection IH as ->. simpl. now rewrite Hp.
Qed.

Lemma insert_sorted_sorted (R : A -> A -> Prop) (x : A) (l : list A) :
  (forall a b, cmp a b = Gt -> R b a) ->
  (forall a b, cmp a b <> Gt -> R a b) ->
  (forall a b c, R a b -> R b c -> R a c) ->
  StronglySorted R l -> StronglySorted R (insert_sorted cmp x l).
Proof.
  intros Hgt Hle Htrans. induction 1 as [|y l Hl IH Hy]; simpl.
  - repeat constructor.
  - destruct (cmp x y) eqn:E.
    + constructor; [now constructor|]. constructor.
      * apply Hle. congruence.
      * eapply Forall_impl; [|exact Hy]. intros z Hz.
        apply (Htrans x y z); auto. apply Hle. congruence.
    + constructor; [now constructor|]. constructor.
      * apply Hle. congruence.
      * eapply Forall_impl; [|exact Hy]. intros z Hz.
        apply (Htrans x y z); auto. apply Hle. congruence.
    + constructor; auto.
      apply (Permutation_Forall (Permutation_sym (insert_sorted_permutation x l))).
      constructor; auto.
Qed.

Lemma sort_sorted (R : A -> A -> Prop) (l : list A) :
  (forall a b, cmp a b = Gt -> R b a) ->
  (forall a b, cmp a b <> Gt -> R a b) ->
  (forall a b c, R a b -> R b c -> R a c) ->
  StronglySorted R (sort cmp l).
Proof.
  intros Hgt Hle Htrans. induction l as [|x l IH]; simpl.
  - constructor.
  - now apply insert_sorted_sorted.
Qed.
End SortFacts.

(** Every list of counts that is not empty has a largest count that
    comes first. *)
Lemma first_largest (counts : list (string * Z)) :
  counts <> [] ->
  exists before top c after,
    counts = (before ++ (top, c) :: after)%list /\
    Forall (fun e => snd e < c) before /\
    Forall (fun e => snd e <= c) after.
Proof.
  induction counts as [|[n0 c0] counts IH]; intros Hne; [contradiction|].
  destruct counts as [|e counts].
  - exists [], n0, c0, []. repeat split; constructor.
  - destruct IH as (before & top & c & after & Heq & Hb & Ha); [discriminate|].
    rewrite Heq. destruct (Z_lt_le_dec c0 c) as [Hlt|Hge].
    + exists ((n0, c0) :: before), top, c, after. repeat split; auto.
    + exists [], n0, c0, (before ++ (top, c) :: after)%list. repeat split; auto.
      apply Forall_app. split.
      * eapply Forall_impl; [|exact Hb]. simpl. intros; lia.
      * constructor; [simpl; lia|].
        eapply Forall_impl; [|exact Ha]. simpl. intros; lia.
Qed.

Lemma topSegment_of_counts (total : nat) (counts : list (string * Z)) :
  counts <> [] ->
  Forall (fun e => fst e <> EmptyString) counts ->
  largestFirstSeen counts (topSegment (sortedSegmentData (segmentData total counts))).
Proof.
  intros Hne Hnames.
  destruct (first_largest counts Hne) as (before & top & c & after & Heq & Hb & Ha).
  set (mk := fun e : string * Z =>
               {| name := fst e; value := snd e; percentage := percentageOf (snd e) total |}).
  assert (Hhd : hd_error (sortedSegmentData (segmentData total counts)) = Some (mk (top, c))).
  { unfold sortedSegmentData, segmentData. fold mk. rewrite Heq, map_app. simpl map.
    apply sort_head.
    - apply Forall_map. eapply Forall_impl; [|exact Hb]. intros e He.
      cbn in He |- *. apply Z.compare_gt_iff. lia.
    - apply Forall_map. eapply Forall_impl; [|exact Ha]. intros e He.
      cbn in He |- *. intros Hgt. apply Z.compare_gt_iff in Hgt. lia. }
  assert (Htop : top <> EmptyString).
  { rewrite Forall_forall in Hnames. apply (Hnames (top, c)).
    rewrite Heq. apply in_or_app. right. now left. }
  destruct (sortedSegmentData (segmentData total counts)) as [|d l]; [discriminate|].
  injection Hhd as ->. simpl. destruct top as [|a s]; [contradiction|].
  exists before, c, after. auto.
Qed.

(** ** The top segment *)

Lemma Forall_keys_tally (P : string -> Prop) (acc : list (string * Z)) (name : string) :
  P name -> Forall (fun e => P (fst e)) acc -> Forall (fun e => P (fst e)) (tally acc name).
Proof.
  intros Hname Hacc. unfold tally.
  generalize (match get acc name with Some c => c | None => 0 end + 1). intros v.
  induction Hacc as [|[k c] acc Hk Hacc IH]; simpl.
  - repeat constructor. exact Hname.
  - destruct (String.eqb k name); constructor; auto.
Qed.

Lemma Forall_keys_segmentCounts (P : string -> Prop) (cs : list (list (string * jsvalue))) :
  Forall (fun c => P (segment_of c)) cs ->
  Forall (fun e => P (fst e)) (segmentCounts cs).
Proof.
  unfold segmentCounts. intros Hcs.
  assert (H : forall acc, Forall (fun e => P (fst e)) acc ->
              Forall (fun e => P (fst e))
                     (fold_left (fun acc c => tally acc (segment_of c)) cs acc)).
  { induction Hcs as [|c cs Hc _ IH]; intros acc Hacc; simpl; auto.
    apply IH. now apply Forall_keys_tally. }
  apply H. constructor.
Qed.

Lemma segmentCounts_not_empty (cs : list (list (string * jsvalue))) :
  cs <> [] -> segmentCounts cs <> [].
Proof.
  intros Hne Hcounts.
  destruct (tally_all (map segment_of cs) [] (NoDup_nil _) (Forall_nil _)) as (Hsum & _).
  rewrite <- segmentCounts_tallies, Hcounts, length_map in Hsum. simpl in Hsum.
  destruct cs; [contradiction|]. simpl in Hsum. lia.
Qed.

Lemma segmentOfScore_not_empty (avgScore : number) : Rfm.segmentOfScore avgScore <> EmptyString.
Proof.
  unfold Rfm.segmentOfScore.
  repeat match goal with
         | |- context [if ?b then _ else _] => destruct b
         end; discriminate.
Qed.

Lemma segment_of_rfm_customerSegment random (data : list Customer) (customer : Customer)
      (index calls : nat) :
  exists avgScore,
    segment_of (fst (Rfm.customerSegment random data customer index calls))
    = Rfm.segmentOfScore avgScore.
Proof.
  unfold Rfm.customerSegment.
  destruct (Rfm.amountOf random data customer calls) as [amount calls1].
  cbv zeta. simpl fst. unfold segment_of. rewrite get_set_same. eauto.
Qed.

Lemma segmentOf_not_empty kmeans (data : list Customer) (id : option nat) :
  KMeans.segmentOf kmeans data id <> EmptyString.
Proof.
  unfold KMeans.segmentOf, KMeans.segmentLabel.
  destruct id as [c|]; [|discriminate].
  destruct (nth_error _ c) as [[|a s]|]; discriminate.
Qed.

Lemma segments_not_empty (s : strategy) (data : list Customer) :
  Forall (fun c => segment_of c <> EmptyString) (customerSegmentsBy s data).
Proof.
  destruct s as [random|kmeans]; simpl.
  - assert (H : forall rows index calls,
               Forall (fun c => segment_of c <> EmptyString)
                      (Rfm.customerSegments_from random data rows index calls)).
    { induction rows as [|c rows IH]; intros index calls; simpl; [constructor|].
      destruct (Rfm.customerSegment random data c index calls) as [e calls'] eqn:E.
      constructor; [|apply IH].
      destruct (segment_of_rfm_customerSegment random data c index calls) as [avg Havg].
      rewrite E in Havg. simpl in Havg. rewrite Havg. apply segmentOfScore_not_empty. }
    apply H.
  - apply Forall_forall. intros c Hin.
    assert (Hseg : In (segment_of c) (map segment_of (KMeans.customerSegments kmeans data)))
      by now apply in_map.
    rewrite segments_of_customerSegments in Hseg.
    apply in_map_iff in Hseg. destruct Hseg as (i & <- & _).
    apply segmentOf_not_empty.
Qed.

Lemma customerSegmentsBy_not_empty (s : strategy) (data : list Customer) :
  data <> [] -> customerSegmentsBy s data <> [].
Proof.
  intros Hne Hcs. apply (f_equal (@List.length _)) in Hcs.
  rewrite length_customerSegmentsBy in Hcs. destruct data; [contradiction|discriminate].
Qed.

(** X8. The top segment of a snapshot, in both revisions, is a segment of
    the distribution with the largest count, and where several have that
    count it is the one met first in the table: the distribution is not
    empty, and the default that the code keeps for an empty one is not
    called for. *)
Theorem top_segment_is_the_largest :
  forall (data : list Customer),
    data <> [] ->
    (forall random, exists snapshot,
        Rfm.insights random (Some data) = Some snapshot /\
        largestFirstSeen (segmentCounts (Rfm.customerSegments_ snapshot))
                         (Rfm.topSegment_ snapshot)) /\
    (forall kmeans newDate random localeCompare monthLabel snapshot,
        KMeans.insights kmeans newDate random localeCompare monthLabel (Some data)
        = KMeans.Returned (Some snapshot) ->
        largestFirstSeen (segmentCounts (KMeans.customerSegments_ snapshot))
                         (KMeans.topSegment_ snapshot)).
Proof.
  intros data Hne.
  assert (Htop : forall s,
             largestFirstSeen (segmentCounts (customerSegmentsBy s data))
               (topSegment
                  (sortedSegmentData
                     (segmentData (totalCustomers data)
                                  (segmentCounts (customerSegmentsBy s data)))))).
  { intros s. apply topSegment_of_counts.
    - apply segmentCounts_not_empty. now apply customerSegmentsBy_not_empty.
    - apply (Forall_keys_segmentCounts (fun n => n <> EmptyString)).
      apply segments_not_empty. }
  split.
  - intros random. destruct data as [|c data]; [contradiction|].
    eexists. split; [reflexivity|]. exact (Htop (RuleBased random)).
  - intros kmeans newDate random localeCompare monthLabel snapshot.
    destruct data as [|c data]; [contradiction|].
    unfold KMeans.insights. destruct (emailField (c :: data)); [|discriminate].
    intros [= <-]. exact (Htop (Clustering kmeans)).
Qed.

Lemma top_segment_is_the_largest_witness :
  threeSpenders <> [] /\
  largestFirstSeen
    (segmentCounts (KMeans.customerSegments skipsCluster1 threeSpenders)) "Segment 3".
Proof.
  split; [discriminate|].
  exact (proj2 (top_segment_is_the_largest threeSpenders ltac:(discriminate))
               skipsCluster1 neverValid halves (fun _ _ => Eq) (fun key => key) _ eq_refl).
Defined.

(** X9. The distribution a snapshot shows is the tallied one put in the
    order of the counts, the largest first: the sort that finds the top
    segment works in place, on the array the snapshot holds. *)
Theorem distribution_is_shown_largest_first :
  forall (data : list Customer),
    data <> [] ->
    (forall random, exists snapshot,
        Rfm.insights random (Some data) = Some snapshot /\
        Permutation (Rfm.segmentData_ snapshot)
                    (segmentData (totalCustomers data)
                                 (segmentCounts (Rfm.customerSegments_ snapshot))) /\
        StronglySorted (fun a b => value b <= value a) (Rfm.segmentData_ snapshot)) /\
    (forall kmeans newDate random localeCompare monthLabel snapshot,
        KMeans.insights kmeans newDate random localeCompare monthLabel (Some data)
        = KMeans.Returned (Some snapshot) ->
        Permutation (KMeans.segmentData_ snapshot)
                    (segmentData (totalCustomers data)
                                 (segmentCounts (KMeans.customerSegments_ snapshot))) /\
        StronglySorted (fun a b => value b <= value a) (KMeans.segmentData_ snapshot)).
Proof.
  intros data Hne.
  assert (Hsorted : forall sd,
             Permutation (sortedSegmentData sd) sd /\
             StronglySorted (fun a b => value b <= value a) (sortedSegmentData sd)).
  { intros sd. split; [apply sort_permutation|]. apply sort_sorted.
    - intros a b H. apply Z.compare_gt_iff in H. lia.
    - intros a b H.
      destruct (Z.compare_spec (value b - value a) 0); try lia. congruence.
    - intros a b c; lia. }
  split.
  - intros random. destruct data as [|c data]; [contradiction|].
    eexists. split; [reflexivity|]. apply Hsorted.
  - intros kmeans newDate random localeCompare monthLabel snapshot.
    destruct data as [|c data]; [contradiction|].
    unfold KMeans.insights. destruct (emailField (c :: data)); [|discriminate].
    intros [= <-]. apply Hsorted.
Qed.

Lemma distribution_is_shown_largest_first_witness :
  threeSpenders <> [] /\
  exists snapshot,
    Rfm.insights halves (Some threeSpenders) = Some snapshot /\
    StronglySorted (fun a b => value b <= value a) (Rfm.segmentData_ snapshot).
Proof.
  split; [discriminate|].
  destruct (proj1 (distribution_is_shown_largest_first threeSpenders ltac:(discriminate))
                  halves) as (snapshot & Hsnap & _ & Hsorted).
  exists snapshot. split; [exact Hsnap|exact Hsorted].
Defined.

(** ** The RFM segments *)

Lemma rScore_range (recency : number) : 1 <= Rfm.rScore recency <= 5.
Proof.
  unfold Rfm.rScore.
  repeat match goal with
         | |- context [if ?b then _ else _] => destruct b
         end; lia.
Qed.

Lemma fScore_range (frequency : number) : 1 <= Rfm.fScore frequency <= 5.
Proof.
  unfold Rfm.fScore.
  repeat match goal with
         | |- context [if ?b then _ else _] => destruct b
         end; lia.
Qed.

Lemma mScore_range (amount : number) : 1 <= Rfm.mScore amount <= 5.
Proof.
  unfold Rfm.mScore.
  repeat match goal with
         | |- context [if ?b then _ else _] => destruct b
         end; lia.
Qed.

Lemma segmentOfScore_total (total : Z) :
  3 <= total <= 15 ->
  Rfm.segmentOfScore (num_div (number_of_Z total) (number_of_Z 3)) = segmentOfTotal total.
Proof.
  intros H.
  assert (Hcases : total = 3 \/ total = 4 \/ total = 5 \/ total = 6 \/ total = 7 \/
                   total = 8 \/ total = 9 \/ total = 10 \/ total = 11 \/ total = 12 \/
                   total = 13 \/ total = 14 \/ total = 15) by lia.
  repeat (destruct Hcases as [->|Hcases]; [vm_compute; reflexivity|]).
  subst total. vm_compute. reflexivity.
Qed.

(** X10. The segment of a customer of the RFM revision is a matter of the
    sum of the three scores, each from 1 to 5: Champions from 14 on,
    Loyal Customers from 12, Potential Loyalists at 11, At Risk from 9,
    Need Attention from 6, and Lost Customers below; the initial
    segment, New Customer, is never kept. *)
Theorem rfm_segment_by_total_score :
  forall (random : nat -> number) (data : list Customer) (customer : Customer)
         (index calls : nat),
    let enriched := fst (Rfm.customerSegment random data customer index calls) in
    exists r f m,
      1 <= r <= 5 /\ 1 <= f <= 5 /\ 1 <= m <= 5 /\
      get enriched "rScore" = Some (VNumber (number_of_Z r)) /\
      get enriched "fScore" = Some (VNumber (number_of_Z f)) /\
      get enriched "mScore" = Some (VNumber (number_of_Z m)) /\
      get enriched "segment" = Some (VString (segmentOfTotal (r + f + m))) /\
      segmentOfTotal (r + f + m) <> "New Customer".
Proof.
  intros random data customer index calls. unfold Rfm.customerSegment.
  destruct (Rfm.amountOf random data customer calls) as [amount calls1].
  cbv zeta. simpl fst.
  match goal with
  | |- context [Rfm.rScore ?recency] =>
      match goal with
      | |- context [Rfm.fScore ?frequency] =>
          exists (Rfm.rScore recency), (Rfm.fScore frequency), (Rfm.mScore amount);
          pose proof (rScore_range recency) as Hr;
          pose proof (fScore_range frequency) as Hf
      end
  end.
  pose proof (mScore_range amount) as Hm.
  rewrite segmentOfScore_total by lia.
  repeat split; try lia;
    try (repeat first
           [ rewrite get_set_same; reflexivity
           | rewrite get_set_other by discriminate ]).
  unfold segmentOfTotal.
  repeat match goal with
         | |- context [if ?b then _ else _] => destruct b
         end; discriminate.
Qed.

(** ** The total of the amounts *)

Lemma monetary_of_enrich customer id cluster segment amount features :
  monetary_of (KMeans.enrich customer id cluster segment amount features) = amount.
Proof.
  unfold monetary_of.
  destruct (get_enrich_derived customer id cluster segment amount features)
    as (_ & _ & _ & -> & _).
  reflexivity.
Qed.

Lemma fold_monetary_of (rows : list Customer)
      (enriched : nat -> Customer -> list (string * jsvalue)) (amount : Customer -> number) :
  (forall index customer, monetary_of (enriched index customer) = amount customer) ->
  forall start acc,
    fold_left (fun sum customer => num_add sum (monetary_of customer))
              (mapi_from enriched start rows) acc
    = fold_left (fun sum customer => num_add sum (amount customer)) rows acc.
Proof.
  intros Hmon. induction rows as [|c rows IH]; intros start acc; simpl; auto.
  now rewrite Hmon, IH.
Qed.

(** X11. In the k-means revision the total revenue is the sum, in the
    order of the table and from 0, of the monetary values of the enriched
    records. *)
Theorem totalRevenue_sums_the_monetary_values :
  forall (kmeans : list (list number) -> nat -> list nat) (data : list Customer),
    totalRevenue data
    = fold_left (fun sum customer => num_add sum (monetary_of customer))
                (KMeans.customerSegments kmeans data) zero.
Proof.
  intros kmeans data. unfold KMeans.customerSegments, mapi.
  rewrite (fold_monetary_of data _ (KMeans.amountOf data))
    by (intros; apply monetary_of_enrich).
  unfold totalRevenue, KMeans.amountOf.
  destruct (amountFields data) as [|f fs]; [|reflexivity].
  induction data as [|c rows IH]; simpl; auto.
Qed.

(** ** The matrix that is clustered *)

Lemma clusterResults_of_table
    (kmeans : list (list number) -> nat -> list nat) (data : list Customer) :
  data <> [] ->
  KMeans.clusterResults kmeans data
  = Some (kmeans (normalizeData (KMeans.clusteringData data)) (Nat.min 5 (List.length data))).
Proof.
  intros Hne.
  unfold KMeans.clusterResults, KMeans.normalizedData, KMeans.k.
  pose proof (normalizeData_shape (KMeans.clusteringData data)) as Hshape.
  apply (f_equal (@List.length _)) in Hshape. rewrite !length_map in Hshape.
  assert (Hlen : List.length (KMeans.clusteringData data) = List.length data)
    by (unfold KMeans.clusteringData; apply length_map).
  destruct (KMeans.clusteringData data) as [|row rows] eqn:E.
  - destruct data; [contradiction|discriminate].
  - destruct (normalizeData (row :: rows)); [discriminate|reflexivity].
Qed.

(** X12. The matrix of features has a row for each record and a cell for
    each numeric field, and no cell is [NaN]. For a table that is not
    empty the k-means routine is always called, on the normalized matrix,
    which has the same shape, with as many clusters as there are records
    up to five: the result is never the [null] that the code provides
    for. *)
Theorem kmeans_is_given_a_full_matrix :
  forall (kmeans : list (list number) -> nat -> list nat) (data : list Customer),
    data <> [] ->
    let features := KMeans.clusteringData data in
    List.length features = List.length data /\
    Forall (fun row => List.length row = List.length (KMeans.numericFields data) /\
                       Forall (fun v => isNaN v = false) row) features /\
    map (@List.length number) (normalizeData features) = map (@List.length number) features /\
    KMeans.clusterResults kmeans data
    = Some (kmeans (normalizeData features) (Nat.min 5 (List.length data))).
Proof.
  intros kmeans data Hne features.
  assert (Hlen : List.length features = List.length data).
  { unfold features, KMeans.clusteringData. apply length_map. }
  split; [exact Hlen|]. split; [|split].
  - unfold features, KMeans.clusteringData. apply Forall_map, Forall_forall.
    intros customer _. split; [apply length_map|].
    apply Forall_map, Forall_forall. intros field _. cbv zeta.
    destruct (parseFloat (get customer field)); reflexivity.
  - apply normalizeData_shape.
  - exact (clusterResults_of_table kmeans data Hne).
Qed.

Lemma kmeans_is_given_a_full_matrix_witness :
  threeSpenders <> [] /\
  KMeans.clusterResults skipsCluster1 threeSpenders
  = Some (skipsCluster1 (normalizeData (KMeans.clusteringData threeSpenders)) 3%nat).
Proof.
  split; [discriminate|].
  exact (proj2 (proj2 (proj2 (kmeans_is_given_a_full_matrix skipsCluster1 threeSpenders
                                ltac:(discriminate))))).
Defined.

(** ** Infinite values *)

Lemma notFinite_add (a b : number) : notFinite a \/ notFinite b -> notFinite (num_add a b).
Proof.
  unfold notFinite.
  destruct a as [sa|sa| |sa ma ea], b as [sb|sb| |sb mb eb]; simpl;
    intros [H|H]; try discriminate; try reflexivity;
    destruct sa, sb; reflexivity.
Qed.

Lemma notFinite_sub (a b : number) : notFinite a \/ notFinite b -> notFinite (num_sub a b).
Proof.
  unfold notFinite.
  destruct a as [sa|sa| |sa ma ea], b as [sb|sb| |sb mb eb]; simpl;
    intros [H|H]; try discriminate; try reflexivity;
    destruct sa, sb; reflexivity.
Qed.

Lemma notFinite_div (a b : number) : notFinite a -> notFinite (num_div a b).
Proof.
  unfold notFinite.
  destruct a as [sa|sa| |sa ma ea], b as [sb|sb| |sb mb eb]; simpl;
    intros H; try discriminate; reflexivity.
Qed.

Lemma notFinite_square (a : number) : notFinite a -> notFinite (Math_pow2 a).
Proof.
  unfold notFinite. destruct a as [sa|sa| |sa ma ea]; simpl; intros H;
    try discriminate; reflexivity.
Qed.

Lemma notFinite_sqrt (a : number) : notFinite a -> notFinite (Math_sqrt a).
Proof.
  unfold notFinite. destruct a as [sa|sa| |sa ma ea]; simpl; intros H;
    try discriminate; try reflexivity. now destruct sa.
Qed.

Lemma notFinite_quotient (a b : number) : notFinite a -> notFinite b -> num_div a b = NaN.
Proof.
  unfold notFinite.
  destruct a as [sa|sa| |sa ma ea], b as [sb|sb| |sb mb eb]; simpl;
    intros Ha Hb; try discriminate; reflexivity.
Qed.

Lemma notFinite_fold (f : list number -> number) (data : list (list number)) :
  forall init,
    notFinite init \/ (exists row, In row data /\ notFinite (f row)) ->
    notFinite (fold_left (fun sum row => num_add sum (f row)) data init).
Proof.
  induction data as [|r data IH]; intros init H; simpl.
  - destruct H as [H|(row & [] & _)]. exact H.
  - apply IH. destruct H as [H|(row & [<-|Hin] & Hrow)].
    + left. apply notFinite_add. now left.
    + left. apply notFinite_add. now right.
    + right. eauto.
Qed.

(** X13. One value that is infinite, or [NaN], spoils its column: every
    cell of the column comes out of the normalizer as [NaN]. *)
Theorem infinite_value_spoils_its_column :
  forall (data : list (list number)) (x0 : number) (row0 : list number)
         (rows : list (list number)) (j : nat) (spoiled : list number)
         (i : nat) (row : list number),
    data = (x0 :: row0) :: rows ->
    (j < List.length (x0 :: row0))%nat ->
    In spoiled data -> num_isFinite (cell spoiled j) = false ->
    nth_error data i = Some row -> (j < List.length row)%nat ->
    cell (nth i (normalizeData data) []) j = NaN.
Proof.
  intros data x0 row0 rows j spoiled i row Hdata Hj0 Hin Hspoiled Hrow Hj.
  rewrite (normalizeData_zscore data x0 row0 rows i j row Hdata Hrow Hj Hj0).
  assert (Hmean : notFinite (columnMean data j)).
  { unfold columnMean. apply notFinite_div.
    apply (notFinite_fold (fun row => cell row j)). right. eauto. }
  assert (Hstd : notFinite (populationStd data j)).
  { unfold populationStd. apply notFinite_sqrt, notFinite_div.
    apply (notFinite_fold (fun row => Math_pow2 (num_sub (cell row j) (columnMean data j)))).
    right. exists spoiled. split; [exact Hin|].
    apply notFinite_square, notFinite_sub. now left. }
  apply notFinite_quotient.
  - apply notFinite_sub. now right.
  - unfold divisor. destruct (populationStd data j) as [s|s| |s m e]; try discriminate.
    + now destruct s.
    + reflexivity.
Qed.

Lemma infinite_value_spoils_its_column_witness :
  In [S754_infinity false] [[number_of_Z 1]; [S754_infinity false]] /\
  num_isFinite (cell [S754_infinity false] 0) = false /\
  cell (nth 0 (normalizeData [[number_of_Z 1]; [S754_infinity false]]) []) 0 = NaN.
Proof.
  split; [simpl; auto|]. split; [reflexivity|].
  apply (infinite_value_spoils_its_column [[number_of_Z 1]; [S754_infinity false]]
           (number_of_Z 1) [] [[S754_infinity false]] 0 [S754_infinity false]
           0 [number_of_Z 1] eq_refl).
  - simpl. lia.
  - simpl. auto.
  - reflexivity.
  - reflexivity.
  - simpl. lia.
Defined.

(** ** The scatter chart *)

Lemma get_fold_set {V : Type} (g : string -> V) (names : list string) (field : string) :
  forall acc : list (string * V),
    get (fold_left (fun acc name => set name (g name) acc) names acc) field
    = if existsb (String.eqb field) names then Some (g field) else get acc field.
Proof.
  induction names as [|name names IH]; intros acc; simpl; auto.
  rewrite IH. destruct (existsb (String.eqb field) names); [now rewrite orb_true_r|].
  rewrite orb_false_r. destruct (String.eqb_spec field name) as [->|Hne].
  - apply get_set_same.
  - apply get_set_other. congruence.
Qed.

Lemma featureOf_enrich (data : list Customer) customer id cluster segment amount
      (field : string) :
  In field (KMeans.numericFields data) ->
  KMeans.featureOf (KMeans.enrich customer id cluster segment amount
                                   (KMeans.featuresOf data customer)) field
  = num_or (parseFloat (get customer field)) zero.
Proof.
  intros Hin. unfold KMeans.featureOf.
  destruct (get_enrich_derived customer id cluster segment amount
              (KMeans.featuresOf data customer)) as (_ & _ & _ & _ & ->).
  unfold KMeans.featuresOf.
  rewrite (get_fold_set (fun name => num_or (parseFloat (get customer name)) zero)).
  assert (Hex : existsb (String.eqb field) (KMeans.numericFields data) = true).
  { apply existsb_exists. exists field. split; auto. apply String.eqb_refl. }
  rewrite Hex. now destruct (parseFloat (get customer field)).
Qed.

Lemma cell_clusteringData (data : list Customer) (index : nat) (customer : Customer)
      (j : nat) (field : string) :
  nth_error data index = Some customer ->
  nth_error (KMeans.numericFields data) j = Some field ->
  cell (nth index (KMeans.clusteringData data) []) j
  = (let v := parseFloat (get customer field) in if isNaN v then zero else v).
Proof.
  intros Hrow Hfield. unfold KMeans.clusteringData.
  rewrite (nth_error_nth _ _ _ (map_nth_error _ _ _ Hrow)).
  unfold cell. now rewrite (nth_error_nth _ _ _ (map_nth_error _ _ _ Hfield)).
Qed.

(** X14. The scatter chart has a point for each record, with the cluster
    and the segment of its enriched record. Where the table has numeric
    fields, [x] is the value of the first one, read as the features
    object keeps it, and equals as a number the first cell that was
    clustered for the record; [y] is that of the second numeric field,
    where there is one. *)
Theorem scatter_plots_the_clustered_features :
  forall (kmeans : list (list number) -> nat -> list nat) (random : nat -> number)
         (data : list Customer) (index : nat) (customer : Customer)
         (field : string) (others : list string),
    nth_error data index = Some customer ->
    KMeans.numericFields data = field :: others ->
    exists point,
      nth_error (KMeans.clusterVisualizationData kmeans random data) index = Some point /\
      KMeans.cluster point
      = match KMeans.clusterIdOf kmeans data index with
        | Some c => VNumber (number_of_nat c)
        | None => VUndefined
        end /\
      KMeans.segment point
      = KMeans.segmentOf kmeans data (KMeans.clusterIdOf kmeans data index) /\
      KMeans.x point = num_or (parseFloat (get customer field)) zero /\
      num_eq (KMeans.x point) (cell (nth index (KMeans.clusteringData data) []) 0) = true /\
      (forall second, hd_error others = Some second ->
         KMeans.y point = num_or (parseFloat (get customer second)) zero /\
         num_eq (KMeans.y point) (cell (nth index (KMeans.clusteringData data) []) 1) = true).
Proof.
  intros kmeans random data index customer field others Hrow Hnum.
  unfold KMeans.clusterVisualizationData, KMeans.customerSegments. cbv zeta.
  eexists. split.
  { rewrite !nth_error_mapi, Hrow. simpl. reflexivity. }
  cbn [KMeans.cluster KMeans.segment KMeans.x KMeans.y].
  rewrite segment_of_enrich.
  match goal with
  | |- context [get (KMeans.enrich ?c ?i ?cl ?s ?a ?f) "cluster"] =>
      destruct (get_enrich_derived c i cl s a f) as (_ & -> & _)
  end.
  split; [reflexivity|]. split; [reflexivity|].
  rewrite Hnum.
  assert (Hx : KMeans.featureOf
                 (KMeans.enrich customer (index + 1) (KMeans.clusterIdOf kmeans data index)
                    (KMeans.segmentOf kmeans data (KMeans.clusterIdOf kmeans data index))
                    (KMeans.amountOf data customer) (KMeans.featuresOf data customer)) field
               = num_or (parseFloat (get customer field)) zero).
  { apply featureOf_enrich. rewrite Hnum. now left. }
  rewrite Hx. split; [reflexivity|]. split.
  - rewrite (cell_clusteringData data index customer 0 field Hrow)
      by (rewrite Hnum; reflexivity).
    apply num_or_zero_eq.
  - intros second Hsecond. destruct others as [|second' others]; [discriminate|].
    injection Hsecond as ->.
    rewrite featureOf_enrich by (rewrite Hnum; right; now left).
    split; [reflexivity|].
    rewrite (cell_clusteringData data index customer 1 second Hrow)
      by (rewrite Hnum; reflexivity).
    apply num_or_zero_eq.
Qed.

Lemma scatter_plots_the_clustered_features_witness :
  nth_error threeSpenders 1 = Some [("amount", "900")] /\
  KMeans.numericFields threeSpenders = ["amount"] /\
  exists point,
    nth_error (KMeans.clusterVisualizationData skipsCluster1 halves threeSpenders) 1
    = Some point /\
    KMeans.x point = num_or (parseFloat (get [("amount", "900")] "amount")) zero.
Proof.
  split; [reflexivity|]. split; [reflexivity|].
  destruct (scatter_plots_the_clustered_features skipsCluster1 halves threeSpenders 1
              [("amount", "900")] "amount" [] eq_refl eq_refl)
    as (point & Hnth & _ & _ & Hx & _).
  exists point. split; [exact Hnth|exact Hx].
Defined.

(** ** The months of the trend *)

Lemma Zsum_set {V : Type} (w : V -> Z) (o : list (string * V)) (k : string) (v : V) :
  Zsum (map (fun e => w (snd e)) (set k v o))
  = Zsum (map (fun e => w (snd e)) o) + w v
    - match get o k with Some u => w u | None => 0 end.
Proof.
  induction o as [|[k' v'] o IH]; simpl.
  - lia.
  - destruct (String.eqb k' k); simpl; [lia|]. rewrite IH. lia.
Qed.

Lemma Zsum_permutation (l l' : list Z) : Permutation l l' -> Zsum l = Zsum l'.
Proof. induction 1; simpl; lia. Qed.

Lemma Zsum_skipn (l : list Z) (n : nat) :
  Forall (fun c => 0 < c) l -> Zsum (skipn n l) <= Zsum l.
Proof.
  intros Hl. revert n. induction Hl as [|c l Hc _ IH]; intros [|n]; simpl; try lia.
  specialize (IH n). lia.
Qed.

Lemma monthGroups_counts newDate (data rows : list Customer) (dateField : string) :
  forall acc : list (string * (Z * number)),
    Forall (fun g => 0 < fst (snd g)) acc ->
    let groups := fold_left (KMeans.monthGroupStep newDate data dateField) rows acc in
    Forall (fun g => 0 < fst (snd g)) groups /\
    Zsum (map (fun g => fst (snd g)) groups)
    = Zsum (map (fun g => fst (snd g)) acc) + dated newDate rows dateField.
Proof.
  unfold dated.
  induction rows as [|row rows IH]; intros acc Hacc; cbv zeta; simpl.
  - split; [exact Hacc|lia].
  - unfold KMeans.monthGroupStep at 2 4.
    destruct (newDate (get row dateField)) as [[year mon]|].
    + destruct (get acc (KMeans.monthKey year mon)) as [[count rev]|] eqn:E.
      * assert (Hcount : 0 < count).
        { apply get_In_values in E. rewrite Forall_forall in Hacc.
          apply in_map_iff in E. destruct E as (g & Hg & Hin).
          specialize (Hacc g Hin). rewrite Hg in Hacc. exact Hacc. }
        destruct (IH (set (KMeans.monthKey year mon)
                          (count + 1, num_add rev (KMeans.amountOf data row)) acc))
          as [Hpos Hsum].
        { rewrite <- (Forall_map snd (fun v => 0 < fst v)).
          apply Forall_values_set; [|simpl; lia].
          now rewrite (Forall_map snd (fun v => 0 < fst v)). }
        cbv zeta in Hpos, Hsum. split; [exact Hpos|].
        rewrite Hsum, (Zsum_set fst), E. simpl List.length. simpl fst. lia.
      * destruct (IH (set (KMeans.monthKey year mon)
                          (0 + 1, num_add zero (KMeans.amountOf data row)) acc))
          as [Hpos Hsum].
        { rewrite <- (Forall_map snd (fun v => 0 < fst v)).
          apply Forall_values_set; [|simpl; lia].
          now rewrite (Forall_map snd (fun v => 0 < fst v)). }
        cbv zeta in Hpos, Hsum. split; [exact Hpos|].
        rewrite Hsum, (Zsum_set fst), E. simpl List.length. simpl fst. lia.
    + destruct (IH acc Hacc) as [Hpos Hsum]. cbv zeta in Hpos, Hsum.
      split; [exact Hpos|]. rewrite Hsum. lia.
Qed.

(** X15. The trend of a table with a date field shows at most twelve
    months. Each month shown counts at least one record; together they
    count no more records than have a date in the field, and exactly
    those when the dates fall in twelve months or fewer. *)
Theorem trend_counts_the_dated_records :
  forall newDate random localeCompare monthLabel (data : list Customer)
         (dateField : string) (others : list string),
    dateFields data = dateField :: others ->
    let trend := KMeans.monthlyData newDate random localeCompare monthLabel data in
    (List.length trend <= 12)%nat /\
    exists counts,
      map KMeans.customers trend = map number_of_Z counts /\
      Forall (fun c => 0 < c) counts /\
      Zsum counts <= dated newDate data dateField /\
      ((List.length (KMeans.monthGroups newDate data dateField) <= 12)%nat ->
       Zsum counts = dated newDate data dateField).
Proof.
  intros newDate random localeCompare monthLabel data dateField others Hfield trend.
  unfold trend, KMeans.monthlyData. rewrite Hfield.
  set (groups := KMeans.monthGroups newDate data dateField).
  set (sorted := sort (fun a b => localeCompare (fst a) (fst b)) groups).
  destruct (monthGroups_counts newDate data data dateField [] (Forall_nil _))
    as [Hpos Hsum].
  cbv zeta in Hpos, Hsum. fold (KMeans.monthGroups newDate data dateField) in Hpos, Hsum.
  fold groups in Hpos, Hsum. simpl in Hsum.
  assert (Hperm : Permutation sorted groups) by apply sort_permutation.
  assert (Hpos' : Forall (fun c => 0 < c) (map (fun g => fst (snd g)) sorted)).
  { apply Forall_map. apply (Permutation_Forall (Permutation_sym Hperm)). exact Hpos. }
  assert (Hsum' : Zsum (map (fun g => fst (snd g)) sorted) = dated newDate data dateField).
  { rewrite <- Hsum. apply Zsum_permutation. now apply Permutation_map. }
  split.
  - rewrite length_map. unfold lastn. rewrite length_skipn. lia.
  - exists (map (fun g => fst (snd g)) (lastn 12 sorted)).
    split; [now rewrite !map_map|].
    unfold lastn. rewrite <- skipn_map. split; [|split].
    + apply Forall_forall. intros c Hc.
      rewrite Forall_forall in Hpos'. apply Hpos'.
      rewrite <- (firstn_skipn (List.length sorted - 12)). apply in_or_app. now right.
    + rewrite <- Hsum'. now apply Zsum_skipn.
    + intros Hlen. rewrite <- (Permutation_length Hperm) in Hlen.
      replace (List.length sorted - 12)%nat with 0%nat by lia. exact Hsum'.
Qed.

Lemma trend_counts_the_dated_records_witness :
  dateFields dated2 = ["signup_date"] /\
  (List.length (KMeans.monthlyData januaryOnly halves (fun _ _ => Eq) (fun key => key) dated2)
   <= 12)%nat.
Proof.
  split; [reflexivity|].
  exact (proj1 (trend_counts_the_dated_records januaryOnly halves (fun _ _ => Eq)
                  (fun key => key) dated2 "signup_date" [] eq_refl)).
Defined.

(** * What the random draws leave possible *)

(** ** Rounding to nearest *)

Lemma shr_1_r (mrs : shr_record) :
  0 <= shr_m mrs -> shr_r (shr_1 mrs) = Z.odd (shr_m mrs).
Proof.
  destruct mrs as [m r s]. simpl. intros Hm.
  destruct m as [|p|p]; try lia; [reflexivity|].
  destruct p; reflexivity.
Qed.

Lemma iter_pos_shr_1_r (p : positive) :
  forall mrs, 0 <= shr_m mrs ->
    shr_r (iter_pos shr_1 p mrs) = Z.odd (shr_m mrs / 2 ^ (Zpos p - 1)).
Proof.
  induction p as [p IH|p IH|]; intros mrs Hm; cbn [iter_pos].
  - destruct (shr_1_m mrs Hm) as [E1 H1].
    destruct (iter_pos_shr_1 p _ H1) as [E2 H2].
    rewrite (IH _ H2), E2, E1.
    assert (Hp : 0 < 2 ^ Zpos p) by (apply Z.pow_pos_nonneg; lia).
    assert (Hq : 0 < 2 ^ (Zpos p - 1)) by (apply Z.pow_pos_nonneg; lia).
    rewrite !Z.div_div by lia. do 2 f_equal.
    replace (Zpos p~1 - 1) with (1 + Zpos p + (Zpos p - 1)) by lia.
    rewrite !Z.pow_add_r by lia. change (2 ^ 1) with 2. lia.
  - destruct (iter_pos_shr_1 p _ Hm) as [E2 H2].
    rewrite (IH _ H2), E2.
    assert (Hp : 0 < 2 ^ Zpos p) by (apply Z.pow_pos_nonneg; lia).
    assert (Hq : 0 < 2 ^ (Zpos p - 1)) by (apply Z.pow_pos_nonneg; lia).
    rewrite !Z.div_div by lia. do 2 f_equal.
    replace (Zpos p~0 - 1) with (Zpos p + (Zpos p - 1)) by lia.
    rewrite Z.pow_add_r by lia. reflexivity.
  - rewrite shr_1_r by exact Hm. change (2 ^ (1 - 1)) with 1. now rewrite Z.div_1_r.
Qed.

(** The mantissa is rounded up only from the upper half of the interval
    between two neighbours. *)
Lemma round_nearest_even_up (mrs : shr_record) :
  round_nearest_even (shr_m mrs) (loc_of_shr_record mrs) = shr_m mrs \/
  (round_nearest_even (shr_m mrs) (loc_of_shr_record mrs) = shr_m mrs + 1 /\
   shr_r mrs = true).
Proof.
  destruct mrs as [m [|] [|]]; simpl; auto.
  destruct (Z.even m); auto.
Qed.

Lemma shr_fexp_r (m e : Z) :
  0 <= m ->
  let n := fexp 53 1024 (Zdigits2 m + e) - e in
  shr_r (fst (shr_fexp 53 1024 m e loc_Exact)) = true ->
  1 <= n /\ Z.odd (m / 2 ^ (n - 1)) = true.
Proof.
  intros Hm n. unfold shr_fexp, shr. fold n.
  destruct n as [|p|p] eqn:E; simpl fst; try discriminate.
  rewrite iter_pos_shr_1_r by (simpl; exact Hm). simpl shr_m.
  intros H. split; [lia|exact H].
Qed.

Lemma odd_quotient_half (m k : Z) :
  0 <= m -> 1 <= k -> Z.odd (m / 2 ^ (k - 1)) = true ->
  (m / 2 ^ k + 1) * 2 ^ k <= m + 2 ^ (k - 1).
Proof.
  intros Hm Hk Hodd.
  assert (Hq : 0 < 2 ^ (k - 1)) by (apply Z.pow_pos_nonneg; lia).
  assert (Hpow : 2 ^ k = 2 ^ (k - 1) * 2).
  { replace k with ((k - 1) + 1) at 1 by lia. rewrite Z.pow_add_r by lia. reflexivity. }
  rewrite Hpow. rewrite <- Z.div_div by lia.
  set (q := m / 2 ^ (k - 1)) in *.
  pose proof (Z.div_mod m (2 ^ (k - 1)) ltac:(lia)) as Hdm. fold q in Hdm.
  pose proof (Z.mod_pos_bound m (2 ^ (k - 1)) Hq) as Hr.
  rewrite (Zodd_div2 q) in Hdm at 1 by (now apply Zodd_bool_iff).
  rewrite Z.div2_div in Hdm. nia.
Qed.

(** Rounding the mantissa [mx] at the exponent [ex]: the mantissa is
    shifted to the exponent of the format and rounded up only when the
    first digit lost is a one; the result is zero or finite, of the sign
    given. *)
Lemma binary_round_aux_cases (s : bool) (mx : positive) (ex : Z) :
  let k := Z.max 0 (fexp 53 1024 (Zdigits2 (Zpos mx) + ex) - ex) in
  ex + k <= 970 ->
  exists m2,
    (m2 = Zpos mx / 2 ^ k \/
     (m2 = Zpos mx / 2 ^ k + 1 /\ 1 <= k /\ Z.odd (Zpos mx / 2 ^ (k - 1)) = true)) /\
    ((m2 = 0 /\ binary_round_aux 53 1024 s (Zpos mx) ex loc_Exact = S754_zero s) \/
     (exists m,
         Zpos m = m2 /\ m2 < 2 ^ 53 /\
         binary_round_aux 53 1024 s (Zpos mx) ex loc_Exact = S754_finite s m (ex + k)) \/
     (m2 = 2 ^ 53 /\
      binary_round_aux 53 1024 s (Zpos mx) ex loc_Exact
      = S754_finite s 4503599627370496 (ex + k + 1))).
Proof.
  intros k Hk.
  pose proof (digits2_bounds mx) as Hmx.
  set (d := Zpos (digits2_pos mx)) in *.
  assert (Hkd : d - 53 <= k /\ -1074 - ex <= k /\ 0 <= k).
  { unfold k. change (Zdigits2 (Zpos mx)) with d. unfold fexp, emin. lia. }
  assert (Hpk : 0 < 2 ^ k) by (apply Z.pow_pos_nonneg; lia).
  unfold binary_round_aux.
  destruct (shr_fexp_m (Zpos mx) ex loc_Exact) as [Hm1 He1]; [lia|].
  pose proof (shr_fexp_r (Zpos mx) ex ltac:(lia)) as Hr1. cbv zeta in Hr1.
  fold k in Hm1, He1.
  destruct (shr_fexp 53 1024 (Zpos mx) ex loc_Exact) as [mrs1 e1].
  cbn [fst snd] in Hm1, He1, Hr1.
  set (m1 := shr_m mrs1) in *.
  assert (Hm1b : 0 <= m1 < 2 ^ 53).
  { rewrite Hm1. split; [apply Z.div_pos; lia|].
    apply Z.div_lt_upper_bound; [lia|].
    rewrite <- Z.pow_add_r by lia.
    assert (2 ^ d <= 2 ^ (k + 53)) by (apply Z.pow_le_mono_r; lia). lia. }
  set (m2 := round_nearest_even m1 (loc_of_shr_record mrs1)).
  assert (Hm2 : m2 = Zpos mx / 2 ^ k \/
                (m2 = Zpos mx / 2 ^ k + 1 /\ 1 <= k /\
                 Z.odd (Zpos mx / 2 ^ (k - 1)) = true)).
  { destruct (round_nearest_even_up mrs1) as [E|[E Hr]]; fold m1 in E; fold m2 in E.
    - left. now rewrite E.
    - right. destruct (Hr1 Hr) as [Hn Hodd].
      assert (Hkn : k = fexp 53 1024 (Zdigits2 (Zpos mx) + ex) - ex) by (unfold k; lia).
      rewrite <- Hkn in Hodd, Hn. rewrite E, Hm1. auto. }
  assert (Hm2b : 0 <= m2 <= 2 ^ 53) by (rewrite <- Hm1 in Hm2; lia).
  exists m2. split; [exact Hm2|].
  destruct (shr_fexp_m m2 e1 loc_Exact) as [Hm3 He3]; [lia|].
  destruct (shr_fexp 53 1024 m2 e1 loc_Exact) as [mrs3 e3].
  cbn [fst snd] in Hm3, He3.
  destruct (Z.eq_dec m2 (2 ^ 53)) as [Htop|Htop].
  - right. right. split; [exact Htop|].
    assert (Hdig : Zdigits2 m2 = 54) by (rewrite Htop; reflexivity).
    rewrite Hdig in Hm3, He3.
    assert (Hk2 : Z.max 0 (fexp 53 1024 (54 + e1) - e1) = 1)
      by (unfold fexp, emin; lia).
    rewrite Hk2 in Hm3, He3.
    rewrite Htop in Hm3. change (2 ^ 53 / 2 ^ 1) with (Zpos 4503599627370496) in Hm3.
    rewrite Hm3.
    assert (Hle : Z.leb e3 (1024 - 53) = true) by (apply Z.leb_le; lia).
    rewrite Hle. f_equal. lia.
  - destruct m2 as [|p2|p2] eqn:Ep2; try lia.
    + left. split; [reflexivity|].
      assert (Hk2 : Z.max 0 (fexp 53 1024 (Zdigits2 0 + e1) - e1) = 0)
        by (simpl Zdigits2; unfold fexp, emin; lia).
      rewrite Hk2 in Hm3. change (0 / 2 ^ 0) with 0 in Hm3. now rewrite Hm3.
    + right. left.
      assert (Hdig : Zpos (digits2_pos p2) <= 53).
      { pose proof (digits2_bounds p2) as Hp2.
        destruct (Z.le_gt_cases (Zpos (digits2_pos p2)) 53) as [|Hgt]; auto.
        assert (2 ^ 53 <= 2 ^ (Zpos (digits2_pos p2) - 1))
          by (apply Z.pow_le_mono_r; lia).
        lia. }
      assert (Hk2 : Z.max 0 (fexp 53 1024 (Zdigits2 (Zpos p2) + e1) - e1) = 0)
        by (simpl Zdigits2; unfold fexp, emin; lia).
      rewrite Hk2 in Hm3, He3. change (2 ^ 0) with 1 in Hm3. rewrite Z.div_1_r in Hm3.
      rewrite Hm3.
      assert (Hle : Z.leb e3 (1024 - 53) = true) by (apply Z.leb_le; lia).
      rewrite Hle. exists p2. split; [reflexivity|]. split; [lia|]. f_equal. lia.
Qed.

(** The rounded mantissa, at the exponent of the rounding, lies no more
    than half a unit above the exact one. *)
Lemma binary_round_aux_nearest (s : bool) (mx : positive) (ex : Z) :
  let k := Z.max 0 (fexp 53 1024 (Zdigits2 (Zpos mx) + ex) - ex) in
  ex + k <= 970 ->
  exists m2,
    0 <= m2 /\
    m2 * 2 ^ k <= Zpos mx + 2 ^ k / 2 /\
    ((m2 = 0 /\ binary_round_aux 53 1024 s (Zpos mx) ex loc_Exact = S754_zero s) \/
     (exists m e,
         binary_round_aux 53 1024 s (Zpos mx) ex loc_Exact = S754_finite s m e /\
         ex + k <= e /\ Zpos m * 2 ^ (e - (ex + k)) = m2)).
Proof.
  intros k Hk.
  destruct (binary_round_aux_cases s mx ex Hk) as (m2 & Hm2 & Hres). fold k in Hm2, Hres.
  assert (Hk0 : 0 <= k) by (unfold k; lia).
  assert (Hpk : 0 < 2 ^ k) by (apply Z.pow_pos_nonneg; lia).
  assert (Hfloor : Zpos mx / 2 ^ k * 2 ^ k <= Zpos mx).
  { rewrite Z.mul_comm. apply Z.mul_div_le. lia. }
  assert (Hpos : 0 <= Zpos mx / 2 ^ k) by (apply Z.div_pos; lia).
  exists m2. split; [lia|]. split.
  - destruct Hm2 as [->|(-> & Hk1 & Hodd)].
    + assert (0 <= 2 ^ k / 2) by (apply Z.div_pos; lia). lia.
    + pose proof (odd_quotient_half (Zpos mx) k ltac:(lia) Hk1 Hodd) as Hhalf.
      replace (2 ^ k / 2) with (2 ^ (k - 1)); [exact Hhalf|].
      replace k with ((k - 1) + 1) at 2 by lia.
      rewrite Z.pow_add_r by lia. change (2 ^ 1) with 2.
      now rewrite Z.div_mul by lia.
  - destruct Hres as [H|[(m & Hm & _ & ->)|(-> & ->)]]; [now left| |].
    + right. exists m, (ex + k). split; [reflexivity|]. split; [lia|].
      rewrite Z.sub_diag. simpl. lia.
    + right. eexists _, _. split; [reflexivity|]. split; [lia|].
      replace (ex + k + 1 - (ex + k)) with 1 by lia. reflexivity.
Qed.

Lemma inUnitInterval_cases (x : number) :
  inUnitInterval x = true ->
  x = zero \/
  exists mx ex, x = S754_finite false mx ex /\ -1074 <= ex <= -53 /\ Zpos mx < 2 ^ 53.
Proof.
  unfold inUnitInterval. intros H.
  apply andb_prop in H. destruct H as [H Hlt].
  apply andb_prop in H. destruct H as [Hvalid Hsign].
  destruct x as [s|s| |s mx ex]; simpl in Hsign.
  - left. destruct s; [discriminate|reflexivity].
  - destruct s; discriminate.
  - discriminate.
  - right. destruct s; [discriminate|]. exists mx, ex. split; [reflexivity|].
    simpl in Hvalid. unfold bounded, canonical_mantissa in Hvalid.
    apply andb_prop in Hvalid. destruct Hvalid as [Hcanon _].
    apply Z.eqb_eq in Hcanon. unfold fexp, emin in Hcanon.
    change prec with 53 in Hcanon. change emax with 1024 in Hcanon.
    pose proof (digits2_bounds mx) as Hmx.
    set (d := Zpos (digits2_pos mx)) in *.
    assert (Hd : d <= 53 /\ -1074 <= ex) by lia.
    assert (Hm : Zpos mx < 2 ^ 53).
    { assert (2 ^ d <= 2 ^ 53) by (apply Z.pow_le_mono_r; lia). lia. }
    split; [|exact Hm]. split; [lia|].
    change (number_of_Z 1) with (S754_finite false 4503599627370496 (-52)) in Hlt.
    unfold num_lt, SFltb, SFcompare in Hlt.
    destruct (Z.compare_spec ex (-52)) as [E|E|E]; try discriminate; try lia.
    subst ex. exfalso.
    destruct (Pos.compare_cont Eq mx 4503599627370496) eqn:Ec; try discriminate.
    assert (Hlt52 : Zpos mx < 2 ^ 52).
    { change (2 ^ 52) with (Zpos 4503599627370496). apply Pos2Z.pos_lt_pos. exact Ec. }
    assert (d <= 52).
    { destruct (Z.le_gt_cases d 52) as [|Hgt]; auto.
      assert (2 ^ 52 <= 2 ^ (d - 1)) by (apply Z.pow_le_mono_r; lia). lia. }
    lia.
Qed.

(** [Math.floor(Math.random() * C)] is one of the integers 0, ..., C - 1:
    the product of a draw below 1 and [C] is rounded to a number below
    [C]. *)
Lemma floor_scaled_draw (x : number) (C : Z) :
  inUnitInterval x = true -> 0 < C < 2 ^ 53 ->
  exists n, 0 <= n < C /\ Math_floor (num_mul x (number_of_Z C)) = number_of_Z n.
Proof.
  intros Hx HC.
  destruct (binary_normalize_integer C false HC) as (cm & sh & Hnum & Hdig & Hsh & Hcm).
  unfold number_of_Z at 1. change prec with 53. change emax with 1024. rewrite Hnum.
  destruct (inUnitInterval_cases x Hx) as [->|(mx & ex & -> & Hex & Hmx)].
  - exists 0. split; [lia|reflexivity].
  - unfold num_mul, SFmul. change prec with 53. change emax with 1024.
    change (xorb false false) with false.
    set (M := (mx * cm)%positive).
    set (E := ex + - sh).
    pose proof (digits2_bounds cm) as Hcmb. rewrite Hdig in Hcmb.
    change (2 ^ (53 - 1)) with 4503599627370496 in Hcmb.
    change (2 ^ 53) with 9007199254740992 in *.
    pose proof (digits2_bounds M) as HMb.
    set (d := Zpos (digits2_pos M)) in *.
    assert (HM : Zpos M = Zpos mx * Zpos cm) by (unfold M; lia).
    assert (Hd : d <= 106).
    { destruct (Z.le_gt_cases d 106) as [|Hgt]; auto.
      assert (2 ^ 106 <= 2 ^ (d - 1)) by (apply Z.pow_le_mono_r; lia).
      change (2 ^ 106) with (9007199254740992 * 9007199254740992) in H. nia. }
    pose proof (binary_round_aux_nearest false M E) as Hround. cbv zeta in Hround.
    change (Zdigits2 (Zpos M)) with d in Hround.
    set (k := Z.max 0 (fexp 53 1024 (d + E) - E)) in *.
    assert (Hk : 0 <= k /\ (k = 0 \/ k = d - 53 \/ k = -1074 - E)).
    { unfold k, fexp, emin. lia. }
    destruct Hround as (m2 & Hm2 & Hhalf & Hres).
    { unfold k, fexp, emin, E. lia. }
    set (W := 2 ^ (- ex)).
    assert (HW : 9007199254740992 <= W).
    { unfold W. change 9007199254740992 with (2 ^ 53). apply Z.pow_le_mono_r; lia. }
    assert (Hhalfk : 2 ^ k / 2 < Zpos cm).
    { destruct (Z.le_gt_cases k 52) as [Hle|Hgt].
      - assert (2 ^ k <= 2 ^ 52) by (apply Z.pow_le_mono_r; lia).
        change (2 ^ 52) with 4503599627370496 in H.
        assert (0 < 2 ^ k) by (apply Z.pow_pos_nonneg; lia).
        assert (2 ^ k / 2 < 2 ^ k) by (apply Z.div_lt; lia). lia.
      - assert (Hk53 : k = 53) by (unfold E in Hk; lia).
        assert (Hd106 : d = 106) by (unfold E in Hk; lia).
        rewrite Hk53. change (2 ^ 53 / 2) with 4503599627370496.
        rewrite Hd106 in HMb.
        change (2 ^ (106 - 1)) with (9007199254740992 * 4503599627370496) in HMb. nia. }
    assert (Hbelow : m2 * 2 ^ k < W * Zpos cm).
    { assert ((Zpos mx + 1) * Zpos cm <= W * Zpos cm)
        by (apply Z.mul_le_mono_nonneg_r; lia).
      lia. }
    assert (HWC : W * Zpos cm = C * 2 ^ (- E)).
    { unfold W, E. rewrite Hcm.
      replace (- (ex + - sh)) with (sh + - ex) by lia.
      rewrite Z.pow_add_r by lia. lia. }
    rewrite HWC in Hbelow.
    destruct Hres as [[-> ->]|(m & e & -> & He & Hme)].
    + exists 0. split; [lia|reflexivity].
    + exists (Z.shiftl (Zpos m) e). split; [|reflexivity].
      assert (Hpk : 0 < 2 ^ k) by (apply Z.pow_pos_nonneg; lia).
      assert (Hval : Zpos m * 2 ^ (e - E) < C * 2 ^ (- E)).
      { replace (e - E) with ((e - (E + k)) + k) by lia.
        rewrite Z.pow_add_r by lia. rewrite Z.mul_assoc, Hme. exact Hbelow. }
      split; [apply Z.shiftl_nonneg; lia|].
      destruct (Z.le_gt_cases 0 e) as [Hpos|Hneg].
      * rewrite Z.shiftl_mul_pow2 by lia.
        replace (e - E) with (e + - E) in Hval by lia.
        rewrite Z.pow_add_r in Hval by (unfold E; lia).
        apply (Z.mul_lt_mono_pos_r (2 ^ (- E))).
        -- apply Z.pow_pos_nonneg; unfold E; lia.
        -- rewrite <- Z.mul_assoc. exact Hval.
      * rewrite Z.shiftl_div_pow2 by lia.
        assert (Hpe : 0 < 2 ^ (- e)) by (apply Z.pow_pos_nonneg; lia).
        apply Z.div_lt_upper_bound; [lia|].
        replace (- E) with ((- e) + (e - E)) in Hval by lia.
        rewrite Z.pow_add_r in Hval by lia.
        apply (Z.mul_lt_mono_pos_r (2 ^ (e - E))).
        -- apply Z.pow_pos_nonneg; lia.
        -- rewrite (Z.mul_comm (2 ^ (- e)) C), <- Z.mul_assoc. exact Hval.
Qed.

(** ** Integers as numbers *)

(** The number of a positive integer below 2^53, given with any number
    of trailing zeros: 53 digits at the exponent that fits them. *)
Lemma binary_normalize_scaled (p : positive) (j : Z) :
  Zpos p < 2 ^ 53 -> 0 <= j <= 53 ->
  exists m,
    binary_normalize 53 1024 (Zpos p * 2 ^ j) (- j) false
    = S754_finite false m (Zpos (digits2_pos p) - 53) /\
    Zpos m = Zpos p * 2 ^ (53 - Zpos (digits2_pos p)).
Proof.
  intros Hp Hj.
  pose proof (digits2_bounds p) as Hpb.
  set (d := Zpos (digits2_pos p)) in *.
  assert (Hd : 1 <= d <= 53).
  { split; [unfold d; lia|].
    destruct (Z.le_gt_cases d 53) as [|Hgt]; auto.
    assert (2 ^ 53 <= 2 ^ (d - 1)) by (apply Z.pow_le_mono_r; lia). lia. }
  assert (Hpj : 0 < 2 ^ j) by (apply Z.pow_pos_nonneg; lia).
  assert (Hnorm : 2 ^ 52 <= Zpos p * 2 ^ (53 - d) < 2 ^ 53).
  { assert (E1 : 2 ^ 52 = 2 ^ (d - 1) * 2 ^ (53 - d))
      by (rewrite <- Z.pow_add_r by lia; f_equal; lia).
    assert (E2 : 2 ^ 53 = 2 ^ d * 2 ^ (53 - d))
      by (rewrite <- Z.pow_add_r by lia; f_equal; lia).
    assert (0 < 2 ^ (53 - d)) by (apply Z.pow_pos_nonneg; lia).
    rewrite E1, E2. split.
    - apply Z.mul_le_mono_nonneg_r; lia.
    - apply Z.mul_lt_mono_pos_r; lia. }
  destruct (Zpos p * 2 ^ j) as [|q|q] eqn:Eq; try lia.
  assert (Hq : Zpos (digits2_pos q) = d + j).
  { apply digits2_unique. rewrite <- Eq.
    replace (d + j - 1) with ((d - 1) + j) by lia.
    rewrite !Z.pow_add_r by lia. split.
    - apply Z.mul_le_mono_nonneg_r; lia.
    - apply Z.mul_lt_mono_pos_r; lia. }
  unfold binary_normalize, binary_round, shl_align. rewrite Hq.
  assert (Hf : fexp 53 1024 (d + j + - j) = d - 53) by (unfold fexp, emin; lia).
  rewrite Hf.
  destruct (d - 53 - - j) as [|t|t] eqn:Et.
  - (* the mantissa has 53 digits as it is *)
    exists q. rewrite binary_round_aux_exact by lia.
    split; [f_equal; lia|]. rewrite <- Eq. do 2 f_equal. lia.
  - (* the mantissa has digits to spare, all of them zeros *)
    destruct (binary_round_aux_cases false q (- j)) as (m2 & Hm2 & Hres).
    { change (Zdigits2 (Zpos q)) with (Zpos (digits2_pos q)). rewrite Hq, Hf. lia. }
    change (Zdigits2 (Zpos q)) with (Zpos (digits2_pos q)) in Hm2, Hres.
    rewrite Hq, Hf, Et in Hm2, Hres.
    replace (Z.max 0 (Zpos t)) with (Zpos t) in Hm2, Hres by lia.
    assert (Hsplit : Zpos q = Zpos p * 2 ^ (53 - d) * 2 ^ Zpos t).
    { rewrite <- Eq, <- Z.mul_assoc, <- Z.pow_add_r by lia. do 2 f_equal. lia. }
    assert (Hquot : Zpos q / 2 ^ Zpos t = Zpos p * 2 ^ (53 - d)).
    { rewrite Hsplit. apply Z.div_mul. apply Z.pow_nonzero; lia. }
    assert (Heven : Z.odd (Zpos q / 2 ^ (Zpos t - 1)) = false).
    { replace (Zpos q) with (Zpos p * 2 ^ (53 - d) * 2 * 2 ^ (Zpos t - 1)).
      - rewrite Z.div_mul by (apply Z.pow_nonzero; lia).
        rewrite Z.odd_mul. simpl. apply andb_false_r.
      - rewrite Hsplit. replace (Zpos t) with (1 + (Zpos t - 1)) at 2 by lia.
        rewrite Z.pow_add_r by lia. change (2 ^ 1) with 2. lia. }
    destruct Hm2 as [Hm2|(_ & _ & Hodd)]; [|congruence].
    rewrite Hquot in Hm2.
    destruct Hres as [[H0 _]|[(m & Hm & _ & ->)|[Htop _]]]; try lia.
    exists m. split; [f_equal; lia|]. lia.
  - (* the mantissa is shifted left *)
    assert (Hm : Zpos (Pos.iter xO q t) = Zpos p * 2 ^ (53 - d)).
    { rewrite iter_xO, <- Eq, <- Z.mul_assoc, <- Z.pow_add_r by lia.
      do 2 f_equal. lia. }
    exists (Pos.iter xO q t).
    change (PosDef.Pos.iter xO q t) with (Pos.iter xO q t). simpl fst. simpl snd.
    rewrite binary_round_aux_exact; [split; [reflexivity|exact Hm]| |lia].
    apply digits2_unique. rewrite Hm. exact Hnorm.
Qed.

(** Sums of integers are exact as long as they stay below 2^53. *)
Lemma num_add_integers (a b : Z) :
  0 <= a -> 0 <= b -> a + b < 2 ^ 53 ->
  num_add (number_of_Z a) (number_of_Z b) = number_of_Z (a + b).
Proof.
  intros Ha Hb Hab. unfold number_of_Z, num_add. change prec with 53. change emax with 1024.
  destruct a as [|p|p]; try lia; destruct b as [|q|q]; try lia.
  - reflexivity.
  - simpl Z.add.
    destruct (binary_normalize_scaled q 0 ltac:(lia) ltac:(lia)) as (m & Hm & _).
    change (2 ^ 0) with 1 in Hm. rewrite Z.mul_1_r in Hm. simpl Z.opp in Hm.
    rewrite Hm. reflexivity.
  - rewrite Z.add_0_r.
    destruct (binary_normalize_scaled p 0 ltac:(lia) ltac:(lia)) as (m & Hm & _).
    change (2 ^ 0) with 1 in Hm. rewrite Z.mul_1_r in Hm. simpl Z.opp in Hm.
    rewrite Hm. reflexivity.
  - destruct (binary_normalize_scaled p 0 ltac:(lia) ltac:(lia)) as (ma & Hma & Hva).
    destruct (binary_normalize_scaled q 0 ltac:(lia) ltac:(lia)) as (mb & Hmb & Hvb).
    change (2 ^ 0) with 1 in Hma, Hmb. rewrite Z.mul_1_r in Hma, Hmb.
    simpl Z.opp in Hma, Hmb. rewrite Hma, Hmb.
    pose proof (digits2_bounds p) as Hpb. pose proof (digits2_bounds q) as Hqb.
    set (da := Zpos (digits2_pos p)) in *. set (db := Zpos (digits2_pos q)) in *.
    assert (Hda : 1 <= da <= 53).
    { split; [unfold da; lia|].
      destruct (Z.le_gt_cases da 53) as [|Hgt]; auto.
      assert (2 ^ 53 <= 2 ^ (da - 1)) by (apply Z.pow_le_mono_r; lia). lia. }
    assert (Hdb : 1 <= db <= 53).
    { split; [unfold db; lia|].
      destruct (Z.le_gt_cases db 53) as [|Hgt]; auto.
      assert (2 ^ 53 <= 2 ^ (db - 1)) by (apply Z.pow_le_mono_r; lia). lia. }
    unfold SFadd. cbv zeta.
    set (ez := IntDef.Z.min (da - 53) (db - 53)).
    assert (Hez : ez = Z.min (da - 53) (db - 53)) by reflexivity.
    assert (Halign : forall (m : positive) (dm v : Z),
               1 <= dm <= 53 -> ez <= dm - 53 -> Zpos m = v * 2 ^ (53 - dm) ->
               Zpos (fst (shl_align m (dm - 53) ez)) = v * 2 ^ (- ez)).
    { intros m dm v Hdm Hle Hv. unfold shl_align.
      destruct (ez - (dm - 53)) as [|t|t] eqn:Et; try lia; simpl fst.
      - rewrite Hv. do 2 f_equal. lia.
      - change (PosDef.Pos.iter xO m t) with (Pos.iter xO m t).
        rewrite iter_xO, Hv, <- Z.mul_assoc, <- Z.pow_add_r by lia.
        do 2 f_equal. lia. }
    rewrite (Halign ma da (Zpos p)) by (auto; lia).
    rewrite (Halign mb db (Zpos q)) by (auto; lia).
    unfold cond_Zopp. rewrite <- Z.mul_add_distr_r.
    change (Zpos p + Zpos q) with (Zpos (p + q)).
    destruct (binary_normalize_scaled (p + q) (- ez) ltac:(lia) ltac:(lia))
      as (m & Hm & _).
    rewrite Z.opp_involutive in Hm. rewrite Hm.
    destruct (binary_normalize_scaled (p + q) 0 ltac:(lia) ltac:(lia)) as (m' & Hm' & Hv').
    change (2 ^ 0) with 1 in Hm'. rewrite Z.mul_1_r in Hm'. simpl Z.opp in Hm'.
    rewrite Hm'.
    destruct (binary_normalize_scaled (p + q) (- ez) ltac:(lia) ltac:(lia))
      as (m'' & Hm'' & Hv'').
    rewrite Z.opp_involutive in Hm''. rewrite Hm in Hm''. injection Hm'' as <-.
    f_equal. lia.
Qed.

(** Integers below 2^53 compare as numbers the way they do as
    integers. *)
Lemma num_lt_integers (a b : Z) :
  0 <= a < b -> b < 2 ^ 53 -> num_lt (number_of_Z a) (number_of_Z b) = true.
Proof.
  intros Ha Hb. unfold number_of_Z, num_lt. change prec with 53. change emax with 1024.
  destruct b as [|q|q]; try lia.
  destruct (binary_normalize_scaled q 0 ltac:(lia) ltac:(lia)) as (mb & Hmb & Hvb).
  change (2 ^ 0) with 1 in Hmb. rewrite Z.mul_1_r in Hmb. simpl Z.opp in Hmb.
  rewrite Hmb.
  destruct a as [|p|p]; try lia; [reflexivity|].
  destruct (binary_normalize_scaled p 0 ltac:(lia) ltac:(lia)) as (ma & Hma & Hva).
  change (2 ^ 0) with 1 in Hma. rewrite Z.mul_1_r in Hma. simpl Z.opp in Hma.
  rewrite Hma.
  pose proof (digits2_bounds p) as Hpb. pose proof (digits2_bounds q) as Hqb.
  set (da := Zpos (digits2_pos p)) in *. set (db := Zpos (digits2_pos q)) in *.
  assert (Hle : da <= db).
  { destruct (Z.le_gt_cases da db) as [|Hgt]; auto.
    assert (2 ^ db <= 2 ^ (da - 1)) by (apply Z.pow_le_mono_r; lia). lia. }
  assert (Hdb : db <= 53).
  { destruct (Z.le_gt_cases db 53) as [|Hgt]; auto.
    assert (2 ^ 53 <= 2 ^ (db - 1)) by (apply Z.pow_le_mono_r; lia). lia. }
  unfold SFltb, SFcompare.
  destruct (Z.compare_spec (da - 53) (db - 53)) as [E|E|E]; [|reflexivity|lia].
  assert (Hlt : (ma < mb)%positive).
  { assert (Zpos ma < Zpos mb); [|lia].
    rewrite Hva, Hvb. replace db with da by lia.
    apply Z.mul_lt_mono_pos_r; [apply Z.pow_pos_nonneg|]; lia. }
  unfold Pos.lt, Pos.compare in Hlt. now rewrite Hlt.
Qed.

(** ** What the draws leave possible *)

Lemma rScore_of_recent (recency : Z) :
  0 <= recency <= 364 -> 2 <= Rfm.rScore (number_of_Z recency) <= 5.
Proof.
  intros H. unfold Rfm.rScore.
  rewrite (num_lt_integers recency 365 ltac:(lia) eq_refl).
  repeat match goal with
         | |- context [if ?b then _ else _] => destruct b
         end; lia.
Qed.

Lemma floor_scaled_draw_plus (x : number) (C offset : Z) :
  inUnitInterval x = true -> 0 < C -> 0 <= offset -> C + offset < 2 ^ 53 ->
  exists n,
    offset <= n < C + offset /\
    num_add (Math_floor (num_mul x (number_of_Z C))) (number_of_Z offset) = number_of_Z n.
Proof.
  intros Hx HC Hoff Hsum.
  destruct (floor_scaled_draw x C Hx ltac:(lia)) as (n & Hn & ->).
  exists (n + offset). split; [lia|]. apply num_add_integers; lia.
Qed.

Lemma rfm_record_draws random (data : list Customer) (customer : Customer)
      (index calls : nat) :
  unitDraws random ->
  let enriched := fst (Rfm.customerSegment random data customer index calls) in
  exists recency frequency r,
    0 <= recency <= 364 /\ 1 <= frequency <= 20 /\ 2 <= r <= 5 /\
    get enriched "recency" = Some (VNumber (number_of_Z recency)) /\
    get enriched "frequency" = Some (VNumber (number_of_Z frequency)) /\
    get enriched "rScore" = Some (VNumber (number_of_Z r)).
Proof.
  intros Hdraws. unfold Rfm.customerSegment.
  destruct (Rfm.amountOf random data customer calls) as [amount calls1].
  cbv zeta. cbn [fst].
  destruct (floor_scaled_draw (random calls1) 365 (Hdraws calls1) ltac:(split; reflexivity))
    as (recency & Hrecency & ->).
  destruct (floor_scaled_draw_plus (random (S calls1)) 20 1 (Hdraws (S calls1))
              ltac:(lia) ltac:(lia) eq_refl) as (frequency & Hfrequency & ->).
  exists recency, frequency, (Rfm.rScore (number_of_Z recency)).
  pose proof (rScore_of_recent recency ltac:(lia)) as Hr.
  repeat split; try lia;
    repeat first
      [ rewrite get_set_same; reflexivity
      | rewrite get_set_other by discriminate ].
Qed.

(** X16. With draws in the range of [Math.random()], from 0 up to but not
    including 1, every record of the RFM revision gets a recency from 0
    to 364 and a frequency from 1 to 20, both integers, and a recency
    score of at least 2: the score 1, kept for a recency of 365 days or
    more, is never given. *)
Theorem rfm_draws_bound_the_scores :
  forall (random : nat -> number) (data : list Customer)
         (enriched : list (string * jsvalue)),
    unitDraws random ->
    In enriched (Rfm.customerSegments random data) ->
    exists recency frequency r,
      0 <= recency <= 364 /\ 1 <= frequency <= 20 /\ 2 <= r <= 5 /\
      get enriched "recency" = Some (VNumber (number_of_Z recency)) /\
      get enriched "frequency" = Some (VNumber (number_of_Z frequency)) /\
      get enriched "rScore" = Some (VNumber (number_of_Z r)).
Proof.
  intros random data enriched Hdraws. unfold Rfm.customerSegments.
  generalize 0%nat at 1. generalize 0%nat. generalize data at 2.
  intros rows. induction rows as [|c rows IH]; intros calls index; simpl; [tauto|].
  pose proof (rfm_record_draws random data c index calls Hdraws) as Hc. cbv zeta in Hc.
  destruct (Rfm.customerSegment random data c index calls) as [e calls'].
  intros [<-|Hin]; [exact Hc|]. eapply IH. exact Hin.
Qed.

Lemma rfm_draws_bound_the_scores_witness :
  unitDraws halves /\
  exists recency,
    0 <= recency <= 364 /\
    get (hd [] (Rfm.customerSegments halves namesOnly)) "recency"
    = Some (VNumber (number_of_Z recency)).
Proof.
  assert (Hdraws : unitDraws halves) by (intros i; reflexivity).
  split; [exact Hdraws|].
  destruct (rfm_draws_bound_the_scores halves namesOnly
              (hd [] (Rfm.customerSegments halves namesOnly)) Hdraws
              (or_introl eq_refl))
    as (recency & _ & _ & Hrecency & _ & _ & Hget & _).
  exists recency. split; [exact Hrecency|exact Hget].
Defined.

Lemma Forall_mapi_from {A B : Type} (P : B -> Prop) (f : nat -> A -> B) (l : list A) :
  (forall i x, P (f i x)) -> forall start, Forall P (mapi_from f start l).
Proof.
  intros Hf. induction l as [|x l IH]; intros start; simpl; constructor; auto.
Qed.

(** X17. With draws in the range of [Math.random()], the simulated trend
    of the RFM revision shows the twelve months from January to December,
    each with a whole number of customers from 50 to 149 and a whole
    revenue from 5000 to 14999. *)
Theorem simulated_trend_ranges :
  forall (random : nat -> number) (data : list Customer),
    unitDraws random ->
    let trend := Rfm.monthlyData random data in
    map Rfm.month trend = Rfm.shortMonths /\
    Forall (fun m => exists customers revenue,
                50 <= customers <= 149 /\ 5000 <= revenue <= 14999 /\
                Rfm.customers m = number_of_Z customers /\
                Rfm.revenue m = number_of_Z revenue)
           trend.
Proof.
  intros random data Hdraws trend. split; [reflexivity|].
  unfold trend, Rfm.monthlyData, mapi. apply Forall_mapi_from. intros i label.
  cbn [Rfm.customers Rfm.revenue].
  destruct (floor_scaled_draw_plus (random (Rfm.drawsOfSegments data + 2 * i)%nat) 100 50
              (Hdraws _) ltac:(lia) ltac:(lia) eq_refl) as (customers & Hc & ->).
  destruct (floor_scaled_draw_plus (random (Rfm.drawsOfSegments data + 2 * i + 1)%nat)
              10000 5000 (Hdraws _) ltac:(lia) ltac:(lia) eq_refl) as (revenue & Hr & ->).
  exists customers, revenue. repeat split; lia.
Qed.

Lemma simulated_trend_ranges_witness :
  unitDraws halves /\
  map Rfm.month (Rfm.monthlyData halves namesOnly) = Rfm.shortMonths.
Proof.
  assert (Hdraws : unitDraws halves) by (intros i; reflexivity).
  split; [exact Hdraws|].
  exact (proj1 (simulated_trend_ranges halves namesOnly Hdraws)).
Defined.

(** * The number of segments *)

(** ** How many segments there are *)

Lemma segmentCounts_keys (cs : list (list (string * jsvalue))) (names : list string) :
  Forall (fun c => In (segment_of c) names) cs ->
  (List.length (segmentCounts cs) <= List.length names)%nat.
Proof.
  intros Hcs.
  destruct (tally_all (map segment_of cs) [] (NoDup_nil _) (Forall_nil _))
    as (_ & _ & Hnd & _).
  rewrite <- segmentCounts_tallies in Hnd.
  rewrite <- (length_map fst (segmentCounts cs)).
  apply NoDup_incl_length; [exact Hnd|].
  intros name Hin.
  pose proof (Forall_keys_segmentCounts (fun n => In n names) cs Hcs) as Hkeys.
  rewrite Forall_forall in Hkeys.
  apply in_map_iff in Hin. destruct Hin as (e & <- & He). now apply Hkeys.
Qed.

Lemma segmentOfScore_known (avgScore : number) : In (Rfm.segmentOfScore avgScore) rfmSegments.
Proof.
  unfold Rfm.segmentOfScore, rfmSegments.
  repeat match goal with
         | |- context [if ?b then _ else _] => destruct b
         end; simpl; tauto.
Qed.

(** X18. The distribution of the RFM revision never has more than six
    segments, whatever the table and the draws. *)
Theorem rfm_distribution_has_six_segments_at_most :
  forall (random : nat -> number) (data : list Customer),
    (List.length (segmentCounts (Rfm.customerSegments random data)) <= 6)%nat /\
    Forall (fun e => In (fst e) rfmSegments)
           (segmentCounts (Rfm.customerSegments random data)).
Proof.
  intros random data.
  assert (H : Forall (fun c => In (segment_of c) rfmSegments)
                     (Rfm.customerSegments random data)).
  { unfold Rfm.customerSegments. generalize 0%nat at 1. generalize 0%nat.
    generalize data at 2. intros rows.
    induction rows as [|c rows IH]; intros calls index; simpl; [constructor|].
    destruct (segment_of_rfm_customerSegment random data c index calls) as [avg Havg].
    destruct (Rfm.customerSegment random data c index calls) as [e calls'].
    constructor; [|apply IH]. simpl in Havg. rewrite Havg. apply segmentOfScore_known. }
  split.
  - exact (segmentCounts_keys _ rfmSegments H).
  - exact (Forall_keys_segmentCounts (fun n => In n rfmSegments) _ H).
Qed.

(** X19. Where the k-means routine gives every record a cluster id below
    the number of clusters, the distribution of the k-means revision has
    no more segments than clusters, which are five at most. *)
Theorem kmeans_distribution_has_five_segments_at_most :
  forall (kmeans : list (list number) -> nat -> list nat) (data : list Customer),
    data <> [] ->
    clustersInRange kmeans data ->
    (List.length (segmentCounts (KMeans.customerSegments kmeans data)) <= KMeans.k data
     <= 5)%nat.
Proof.
  intros kmeans data Hne [Hlen Hrange]. split; [|unfold KMeans.k; lia].
  set (names := map (fun c => KMeans.segmentOf kmeans data (Some c)) (seq 0 (KMeans.k data))).
  replace (KMeans.k data) with (List.length names)
    by (unfold names; now rewrite length_map, length_seq).
  apply segmentCounts_keys. apply Forall_forall. intros c Hin.
  assert (Hseg : In (segment_of c) (map segment_of (KMeans.customerSegments kmeans data)))
    by now apply in_map.
  rewrite segments_of_customerSegments in Hseg.
  apply in_map_iff in Hseg. destruct Hseg as (i & <- & Hi). apply in_seq in Hi.
  pose proof (clusterResults_of_table kmeans data Hne) as Hres.
  unfold KMeans.clusterIdOf. rewrite Hres. fold (KMeans.k data).
  destruct (nth_error _ i) as [id|] eqn:E.
  - unfold names. apply in_map_iff. exists id. split; [reflexivity|].
    apply in_seq. rewrite Forall_forall in Hrange.
    specialize (Hrange id (nth_error_In _ _ E)). lia.
  - apply nth_error_None in E. lia.
Qed.

Lemma kmeans_distribution_has_five_segments_at_most_witness :
  threeSpenders <> [] /\
  clustersInRange skipsCluster1 threeSpenders /\
  (List.length (segmentCounts (KMeans.customerSegments skipsCluster1 threeSpenders)) <= 3)%nat.
Proof.
  assert (Hne : threeSpenders <> []) by discriminate.
  assert (Hrange : clustersInRange skipsCluster1 threeSpenders).
  { split; [reflexivity|]. repeat constructor. }
  split; [exact Hne|]. split; [exact Hrange|].
  exact (proj1 (kmeans_distribution_has_five_segments_at_most skipsCluster1 threeSpenders
                  Hne Hrange)).
Defined.

(** ** The earlier k-means revision *)

Lemma segments_of_early_customerSegments kmeans (data : list Customer) :
  map segment_of (KMeansEarly.customerSegments kmeans data)
  = map (fun index => KMeansEarly.segmentOf (KMeans.clusterIdOf kmeans data index))
        (seq 0 (List.length data)).
Proof.
  unfold KMeansEarly.customerSegments, mapi.
  rewrite map_mapi_from.
  rewrite <- mapi_from_index_only.
  apply mapi_from_ext. intros i x.
  apply segment_of_enrich.
Qed.

Lemma early_segmentOf_injective (c c' : nat) :
  (c < 5)%nat -> (c' < 5)%nat ->
  KMeansEarly.segmentOf (Some c) = KMeansEarly.segmentOf (Some c') -> c = c'.
Proof.
  intros Hc Hc'.
  destruct c as [|[|[|[|[|c]]]]]; try lia;
    destruct c' as [|[|[|[|[|c']]]]]; try lia; simpl; intros H;
    try reflexivity; discriminate.
Qed.

(** X20. In the earlier k-means revision, which names the clusters from a
    fixed list, a segment is a cluster: where the routine gives every
    record a cluster id below the number of clusters, the count of the
    segment of a cluster is the number of records in that cluster. *)
Theorem early_segments_are_the_clusters :
  forall (kmeans : list (list number) -> nat -> list nat) (data : list Customer) (c : nat),
    data <> [] ->
    clustersInRange kmeans data ->
    (c < 5)%nat ->
    countOf (segmentCounts (KMeansEarly.customerSegments kmeans data))
            (KMeansEarly.segmentOf (Some c))
    = Z.of_nat (clusterSize kmeans data c).
Proof.
  intros kmeans data c Hne [Hlen Hrange] Hc.
  destruct (tally_all (map segment_of (KMeansEarly.customerSegments kmeans data)) []
              (NoDup_nil _) (Forall_nil _)) as (_ & Hocc & _).
  rewrite <- segmentCounts_tallies in Hocc. rewrite Hocc.
  unfold countOf at 1. simpl get. rewrite Z.add_0_l. f_equal.
  rewrite segments_of_early_customerSegments. unfold clusterSize.
  pose proof (clusterResults_of_table kmeans data Hne) as Hres.
  assert (Hids : forall index, In index (seq 0 (List.length data)) ->
             exists id, KMeans.clusterIdOf kmeans data index = Some id /\ (id < 5)%nat).
  { intros index Hin. apply in_seq in Hin.
    unfold KMeans.clusterIdOf. rewrite Hres. fold (KMeans.k data).
    destruct (nth_error _ index) as [id|] eqn:E.
    - exists id. split; [reflexivity|]. rewrite Forall_forall in Hrange.
      specialize (Hrange id (nth_error_In _ _ E)). unfold KMeans.k in Hrange. lia.
    - apply nth_error_None in E. lia. }
  revert Hids. generalize (seq 0 (List.length data)) as indices.
  induction indices as [|index indices IH]; intros Hids; [reflexivity|].
  destruct (Hids index (or_introl eq_refl)) as (id & Hid & Hlt).
  assert (IH' := IH (fun i Hi => Hids i (or_intror Hi))).
  cbn [map count_occ filter]. rewrite Hid. cbv beta iota.
  destruct (string_dec (KMeansEarly.segmentOf (Some id)) (KMeansEarly.segmentOf (Some c)))
    as [Heq|Hneq].
  - apply early_segmentOf_injective in Heq; auto. subst id.
    rewrite Nat.eqb_refl. cbn [List.length]. f_equal. exact IH'.
  - destruct (Nat.eqb_spec id c) as [->|_]; [contradiction|]. exact IH'.
Qed.

Lemma early_segments_are_the_clusters_witness :
  threeSpenders <> [] /\
  clustersInRange skipsCluster1 threeSpenders /\
  countOf (segmentCounts (KMeansEarly.customerSegments skipsCluster1 threeSpenders))
          "At Risk"
  = 2.
Proof.
  assert (Hne : threeSpenders <> []) by discriminate.
  assert (Hrange : clustersInRange skipsCluster1 threeSpenders).
  { split; [reflexivity|]. repeat constructor. }
  split; [exact Hne|]. split; [exact Hrange|].
  exact (early_segments_are_the_clusters skipsCluster1 threeSpenders 2 Hne Hrange
           ltac:(repeat constructor)).
Defined.

(** ** Numeric values *)

Lemma binary_round_aux_not_NaN (s : bool) (mx : positive) (ex : Z) (l : location) :
  isNaN (binary_round_aux 53 1024 s (Zpos mx) ex l) = false.
Proof.
  unfold binary_round_aux.
  destruct (shr_fexp_m (Zpos mx) ex l) as [Hm1 _]; [lia|].
  destruct (shr_fexp 53 1024 (Zpos mx) ex l) as [mrs1 e1]. cbn [fst] in Hm1.
  assert (H1 : 0 <= shr_m mrs1).
  { rewrite Hm1. apply Z.div_pos; [lia|]. apply Z.pow_pos_nonneg; lia. }
  set (m2 := round_nearest_even (shr_m mrs1) (loc_of_shr_record mrs1)).
  assert (H2 : 0 <= m2).
  { destruct (round_nearest_even_cases (shr_m mrs1) (loc_of_shr_record mrs1)) as [E|E];
      fold m2 in E; lia. }
  destruct (shr_fexp_m m2 e1 loc_Exact H2) as [Hm3 _].
  destruct (shr_fexp 53 1024 m2 e1 loc_Exact) as [mrs3 e3]. cbn [fst] in Hm3.
  assert (H3 : 0 <= shr_m mrs3).
  { rewrite Hm3. apply Z.div_pos; [lia|]. apply Z.pow_pos_nonneg; lia. }
  destruct (shr_m mrs3) as [|m|m]; try lia; [reflexivity|].
  now destruct (e3 <=? 1024 - 53).
Qed.

Lemma binary_normalize_not_NaN (m e : Z) (s : bool) :
  isNaN (binary_normalize 53 1024 m e s) = false.
Proof.
  unfold binary_normalize, binary_round.
  destruct m as [|p|p]; [reflexivity| |].
  - destruct (shl_align p e _). apply binary_round_aux_not_NaN.
  - destruct (shl_align p e _). apply binary_round_aux_not_NaN.
Qed.

Lemma decimal_value_not_NaN (d : decimal) : isNaN (decimal_value d) = false.
Proof.
  destruct d as [s|s m e10]; [reflexivity|].
  unfold decimal_value, of_decimal. destruct m as [|p]; [reflexivity|].
  destruct (0 <=? e10); [apply binary_normalize_not_NaN|].
  unfold of_ratio. destruct (Z.div_eucl _ _). apply binary_normalize_not_NaN.
Qed.

Lemma scanDecimal_signed (s : string) :
  scanDecimal s
  = match s with
    | String c r =>
        if Ascii.eqb c "+" then scanUnsigned false r
        else if Ascii.eqb c "-" then scanUnsigned true r
        else scanUnsigned false s
    | EmptyString => scanUnsigned false EmptyString
    end.
Proof.
  destruct s as [|c r]; [reflexivity|].
  destruct c as [[] [] [] [] [] [] [] []]; reflexivity.
Qed.

Lemma takeDigits_count (s : string) :
  forall acc count, (count <= snd (fst (takeDigits s acc count)))%nat.
Proof.
  induction s as [|c s IH]; intros acc count; cbn [takeDigits]; [cbn; lia|].
  destruct (isDigit c); [|cbn; lia].
  specialize (IH (10 * acc + digitValue c)%N (S count)). lia.
Qed.

Lemma takeDigits_head (s : string) (acc : N) :
  (snd (fst (takeDigits s acc 0)) =? 0)%nat
  = negb match s with String c _ => isDigit c | EmptyString => false end.
Proof.
  destruct s as [|c s]; [reflexivity|]. cbn [takeDigits].
  destruct (isDigit c); [|reflexivity]. cbn [negb].
  pose proof (takeDigits_count s (10 * acc + digitValue c)%N 1).
  destruct (Nat.eqb_spec (snd (fst (takeDigits s (10 * acc + digitValue c)%N 1))) 0); auto.
  lia.
Qed.

Lemma scanUnsigned_starts (neg : bool) (s1 : string) :
  isSome (scanUnsigned neg s1) = startsUnsigned s1.
Proof.
  unfold scanUnsigned, startsUnsigned.
  destruct (String.prefix "Infinity" s1); [reflexivity|]. simpl orb.
  destruct s1 as [|c r]; [reflexivity|].
  destruct (isDigit c) eqn:Hc.
  - (* a digit *)
    cbn [takeDigits]. rewrite Hc.
    pose proof (takeDigits_count r (10 * 0 + digitValue c)%N 1) as Hn.
    destruct (takeDigits r (10 * 0 + digitValue c)%N 1) as [[ip n1] r1]. simpl in Hn.
    destruct n1 as [|n1]; [lia|]. simpl orb.
    destruct r1 as [|c2 r2].
    + destruct (scanExponent EmptyString). reflexivity.
    + destruct c2 as [[] [] [] [] [] [] [] []];
        try (destruct (scanExponent _); reflexivity);
        destruct (takeDigits r2 ip 0) as [[m n2] r3]; destruct (scanExponent r3);
        reflexivity.
  - (* no digit *)
    cbn [takeDigits]. rewrite Hc. simpl orb.
    destruct (Ascii.eqb_spec c ".") as [->|Hne].
    + pose proof (takeDigits_head r 0%N) as Hhead.
      destruct (takeDigits r 0%N 0) as [[m n2] r3]. simpl in Hhead. simpl andb.
      destruct n2 as [|n2]; simpl in Hhead.
      * destruct r as [|c2 r']; [reflexivity|].
        destruct (isDigit c2); [discriminate|reflexivity].
      * destruct (scanExponent r3).
        destruct r as [|c2 r']; [discriminate|].
        destruct (isDigit c2); [reflexivity|discriminate].
    + destruct c as [[] [] [] [] [] [] [] []]; try reflexivity; try discriminate.
      contradiction Hne. reflexivity.
Qed.

Lemma scanDecimal_starts (s : string) : isSome (scanDecimal s) = startsNumber s.
Proof.
  rewrite scanDecimal_signed. unfold startsNumber.
  destruct s as [|c r]; [reflexivity|].
  destruct (Ascii.eqb c "+"); [apply scanUnsigned_starts|].
  destruct (Ascii.eqb c "-"); apply scanUnsigned_starts.
Qed.

Lemma prefix_app (p s w : string) :
  String.prefix p s = true -> String.prefix p (s ++ w) = true.
Proof.
  revert s. induction p as [|a p IH]; intros s H; [now destruct (s ++ w)|].
  destruct s as [|b s]; [discriminate|]. simpl in *.
  destruct (ascii_dec a b); [auto|discriminate].
Qed.

Lemma startsUnsigned_app (s w : string) :
  startsUnsigned s = true -> startsUnsigned (s ++ w) = true.
Proof.
  unfold startsUnsigned. intros H.
  apply orb_true_iff in H. apply orb_true_iff.
  destruct H as [H|H]; [left; now apply prefix_app|right].
  destruct s as [|c r]; [discriminate|]. cbn [append].
  destruct (isDigit c); [reflexivity|]. simpl orb in *.
  destruct (Ascii.eqb c "."); [|discriminate]. simpl andb in *.
  destruct r as [|c2 r]; [discriminate|]. exact H.
Qed.

Lemma startsNumber_app (s w : string) :
  startsNumber s = true -> startsNumber (s ++ w) = true.
Proof.
  unfold startsNumber. destruct s as [|c r]; [discriminate|]. cbn [append].
  destruct (Ascii.eqb c "+" || Ascii.eqb c "-")%bool.
  - apply startsUnsigned_app.
  - apply (startsUnsigned_app (String c r)).
Qed.

Lemma trimEnd_app (s : string) : exists w, s = trimEnd s ++ w.
Proof.
  induction s as [|c s [w IH]]; [now exists EmptyString|].
  cbn [trimEnd]. destruct (trimEnd s) as [|c' t'] eqn:Et.
  - destruct (isWhiteSpace c).
    + now exists (String c s).
    + exists w. cbn [append] in *. now rewrite <- IH.
  - exists w. cbn [append] in *. now rewrite <- IH.
Qed.

Lemma trimStart_head (s : string) :
  match trimStart s with
  | String c _ => isWhiteSpace c = false
  | EmptyString => True
  end.
Proof.
  induction s as [|c s IH]; [exact I|]. cbn [trimStart].
  destruct (isWhiteSpace c) eqn:Hc; [exact IH|exact Hc].
Qed.

Lemma trimEnd_empty (s : string) :
  trimEnd s = EmptyString ->
  match s with String c _ => isWhiteSpace c = true | EmptyString => True end.
Proof.
  destruct s as [|c s]; [trivial|]. cbn [trimEnd].
  destruct (trimEnd s); [|discriminate].
  destruct (isWhiteSpace c); [reflexivity|discriminate].
Qed.

Lemma trim_empty (s : string) : trim s = EmptyString -> trimStart s = EmptyString.
Proof.
  unfold trim. intros H. apply trimEnd_empty in H.
  pose proof (trimStart_head s) as Hh.
  destruct (trimStart s); [reflexivity|congruence].
Qed.

Lemma scanNonDecimal_starts (t : string) (v : N) :
  scanNonDecimal t = Some v -> startsNumber t = true.
Proof.
  destruct t as [|c0 t]; [discriminate|].
  destruct c0 as [[] [] [] [] [] [] [] []]; try discriminate.
  reflexivity.
Qed.

(** X21. A value passes the numeric test of the k-means revision exactly
    when [isFinite] accepts it and it is not blank once trimmed: the
    [parseFloat] half of the test only turns away the blank strings, which
    [Number] reads as zero. *)
Theorem numeric_values_are_the_finite_nonblank_ones (s : string) :
  KMeans.looksNumeric (Some s)
  = (isFinite (Some s) && negb (String.eqb (trim s) EmptyString))%bool.
Proof.
  unfold KMeans.looksNumeric, isFinite, parseFloat, parseFloat_string, Number_string.
  fold (trim s).
  destruct (String.eqb_spec (trim s) EmptyString) as [He|Hne].
  - rewrite (trim_empty s He). cbn [negb]. rewrite andb_false_r. reflexivity.
  - cbn [negb]. rewrite andb_true_r.
    destruct (num_isFinite _) eqn:HF; [|apply andb_false_r].
    rewrite andb_true_r.
    assert (Hstart : startsNumber (trim s) = true).
    { destruct (trim s) as [|c t] eqn:Et; [contradiction Hne; reflexivity|].
      destruct (scanDecimal (String c t)) as [[d r]|] eqn:Es.
      - rewrite <- scanDecimal_starts, Es. reflexivity.
      - destruct (scanNonDecimal (String c t)) as [v|] eqn:En.
        + exact (scanNonDecimal_starts _ _ En).
        + discriminate HF. }
    destruct (trimEnd_app (trimStart s)) as [w Hw]. fold (trim s) in Hw.
    apply (startsNumber_app _ w) in Hstart. rewrite <- Hw in Hstart.
    rewrite <- scanDecimal_starts in Hstart.
    destruct (scanDecimal (trimStart s)) as [[d r]|]; [|discriminate].
    rewrite decimal_value_not_NaN. reflexivity.
Qed.
